(** * Consensus merging of annotations: [cvat/apps/consensus/intersect_merge.py]

    A shallow embedding of the matching, clustering and voting engine of
    the consensus application, and the properties its specification states
    about it.

    Conventions of the embedding.
    - Python object identity ([id(x)]) is an explicit integer handle carried
      by annotations, items and datasets.
    - Floats are rationals ([Q]); the one non-numeric float the code can
      produce, the mean of an empty list, is the separate value [NaN].
    - Methods that read or mutate the merge context, or can raise, live in
      the monad [M]: a state transformer over [Context] with exceptions.
    - A [dict] whose iteration order matters is an association list kept in
      insertion order ([odict]); the identity-keyed indexes are [gmap]s.
    - A [set] is a duplicate-free list; [set.pop()], whose choice is left
      open by Python, takes the choice as an explicit policy. *)

From Stdlib Require Import ZArith QArith Qminmax Lqa Lia List Bool String.
From stdpp Require Import base option list gmap strings sorting.

Open Scope string_scope.
Open Scope Z_scope.
Open Scope list_scope.

(** ** Exceptions and the merge monad *)

Inductive Exn : Set :=
| TypeError | KeyError | ValueError | IndexError
| ZeroDivisionError | RecursionError | StopIteration | AssertionError
| AttributeError
| Unbounded.   (* not a Python exception: the bound the embedding puts on a
                  [while] loop was reached *)

Inductive Result (A : Type) : Type :=
| Ok (a : A)
| Raise (e : Exn).
Arguments Ok {A} a.
Arguments Raise {A} e.

(** ** Data model *)

Module AnnotationType.
Inductive t : Set :=
| label | bbox | polygon | polyline | mask | points | skeleton.
End AnnotationType.

#[global] Instance AnnotationType_eq_dec : EqDecision AnnotationType.t.
Proof. solve_decision. Defined.

(** Values of the free-form attribute map of an annotation. *)
Inductive AttrValue : Type :=
| VNone
| VBool (b : bool)
| VNum (q : Q)
| VStr (s : string).

(** Python truthiness, as used by [not a.attributes.get("outside", False)]. *)
Definition truthy (v : AttrValue) : bool :=
  match v with
  | VNone => false
  | VBool b => b
  | VNum q => negb (Qeq_bool q 0)
  | VStr s => negb (String.eqb s "")
  end.

Record Annotation : Type := mkAnnotation {
  ann_id : Z;                          (* id(ann) *)
  ann_type : AnnotationType.t;          (* ann.type *)
  ann_label : option nat;              (* ann.label, an index of the source's labels *)
  attributes : gmap string AttrValue;  (* ann.attributes *)
  z_order : Z;                         (* ann.z_order *)
}.

Abbreviation ItemKey := (string * string)%type.   (* (item.id, item.subset) *)

Record DatasetItem : Type := mkItem {
  item_pyid : Z;                       (* id(item) *)
  item_key : ItemKey;
  annotations : list Annotation;
}.

Record Dataset : Type := mkDataset {
  ds_pyid : Z;                         (* id(dataset) *)
  ds_items : list DatasetItem;
}.

(** Insertion-ordered dictionaries. *)
Section odict.
Context {K V : Type} `{EqDecision K}.

Definition odict : Type := list (K * V).

Fixpoint od_get (d : odict) (k : K) : option V :=
  match d with
  | [] => None
  | (k', v) :: d' => if decide (k' = k) then Some v else od_get d' k
  end.

(** [d[k] = v]: an existing key keeps its position. *)
Fixpoint od_set (d : odict) (k : K) (v : V) : odict :=
  match d with
  | [] => [(k, v)]
  | (k', v') :: d' =>
      if decide (k' = k) then (k, v) :: d' else (k', v') :: od_set d' k v
  end.

Definition od_keys (d : odict) : list K := map fst d.
End odict.
Arguments odict : clear implicits.

(** The vote tally of a shaped cluster: label name -> [score, count]. *)
Definition ShapeVotes : Type := odict (option string) (Q * Z).
(** The vote tally of a label cluster: label name -> count. *)
Definition LabelVotes : Type := odict (option string) Z.

Inductive Votes : Type :=
| VotesShape (v : ShapeVotes)
| VotesLabel (v : LabelVotes).

(** [datumaro.components.errors]: every item error records the current
    item and a set of source indices ([sources], converted with [set]);
    only the two kinds this module raises itself carry data here. *)
Inductive ItemError : Type :=
| NoMatchingItemError (item : ItemKey) (sources : gset nat)
| FailedLabelVotingError (item : ItemKey) (votes : Votes) (sources : gset nat)
| OtherItemError (item : ItemKey) (what : string).

(** A float that may be [nan]. *)
Inductive Float : Type :=
| Fin (q : Q)
| NaN.

(** A slot of [dataset_mean_consensus_score]: the running list while items
    are merged, one float once the call has finished. *)
Inductive ScoreSlot : Type :=
| Scores (l : list Q)
| Mean (m : Float).

(** The mutable part of [IntersectMerge], together with the distance cache
    of the merger whose method is running. *)
Record Context : Type := mkContext {
  errors : list ItemError;
  _item_id : ItemKey;
  _dataset_map : gmap Z nat;             (* id(dataset) -> index *)
  _item_map : gmap Z Z;                  (* id(item) -> id(dataset) *)
  _ann_map : gmap Z Z;                   (* id(ann) -> id(item) *)
  dataset_mean_consensus_score : gmap Z ScoreSlot;
  cache : gmap (Z * Z) Q;                (* CachedSimilarityFunction.cache *)
}.

Definition M (A : Type) : Type := Context -> Result (A * Context).

Definition ret {A} (a : A) : M A := fun st => Ok (a, st).

Definition bind {A B} (m : M A) (k : A -> M B) : M B :=
  fun st =>
    match m st with
    | Ok (a, st') => k a st'
    | Raise e => Raise e
    end.

Definition raise {A} (e : Exn) : M A := fun _ => Raise e.

Definition get_ctx : M Context := fun st => Ok (st, st).
Definition put_ctx (st : Context) : M unit := fun _ => Ok (tt, st).

Declare Scope merge_scope.
Delimit Scope merge_scope with merge.
Notation "x <- m ;; k" := (bind m (fun x => k))
  (at level 90, m at level 89, right associativity) : merge_scope.
Notation "m ;;; k" := (bind m (fun _ => k))
  (at level 90, right associativity) : merge_scope.
Open Scope merge_scope.

(** [for x in xs: body x], threading the accumulator [acc]. *)
Fixpoint for_each {A B} (xs : list A) (acc : B) (body : B -> A -> M B) : M B :=
  match xs with
  | [] => ret acc
  | x :: xs' => acc' <- body acc x ;; for_each xs' acc' body
  end.

(** [[f x for x in xs]] with an effectful [f]. *)
Fixpoint map_m {A B} (f : A -> M B) (xs : list A) : M (list B) :=
  match xs with
  | [] => ret []
  | x :: xs' => y <- f x ;; ys <- map_m f xs' ;; ret (y :: ys)
  end.

Definition with_errors (f : list ItemError -> list ItemError) (st : Context) : Context :=
  mkContext (f (errors st)) (_item_id st) (_dataset_map st) (_item_map st)
            (_ann_map st) (dataset_mean_consensus_score st) (cache st).

Definition with_item_id (k : ItemKey) (st : Context) : Context :=
  mkContext (errors st) k (_dataset_map st) (_item_map st)
            (_ann_map st) (dataset_mean_consensus_score st) (cache st).

Definition with_ann_map (f : gmap Z Z -> gmap Z Z) (st : Context) : Context :=
  mkContext (errors st) (_item_id st) (_dataset_map st) (_item_map st)
            (f (_ann_map st)) (dataset_mean_consensus_score st) (cache st).

Definition with_scores (f : gmap Z ScoreSlot -> gmap Z ScoreSlot) (st : Context) : Context :=
  mkContext (errors st) (_item_id st) (_dataset_map st) (_item_map st)
            (_ann_map st) (f (dataset_mean_consensus_score st)) (cache st).

Definition with_cache (f : gmap (Z * Z) Q -> gmap (Z * Z) Q) (st : Context) : Context :=
  mkContext (errors st) (_item_id st) (_dataset_map st) (_item_map st)
            (_ann_map st) (dataset_mean_consensus_score st) (f (cache st)).

(** ** [CachedSimilarityFunction] *)

Module CachedSimilarityFunction.

(** [_sort_key]: the pair of handles in ascending order. *)
Definition _sort_key (key : Z * Z) : Z * Z :=
  if (fst key <=? snd key)%Z then key else (snd key, fst key).

(** [__call__]. [sim_fn] is the wrapped similarity; it may itself read
    the context, call back into the cache, or raise. *)
Definition call (sim_fn : Annotation -> Annotation -> M Q)
    (a_ann b_ann : Annotation) : M Q :=
  let a_ann_id := ann_id a_ann in
  let b_ann_id := ann_id b_ann in
  if decide (a_ann_id = b_ann_id) then ret 1%Q
  else
    let key := _sort_key (a_ann_id, b_ann_id) in
    st <- get_ctx ;;
    match cache st !! key with
    | Some cached_value => ret cached_value
    | None =>
        cached_value <- sim_fn a_ann b_ann ;;
        st' <- get_ctx ;;
        put_ctx (with_cache (fun c => <[key := cached_value]> c) st') ;;;
        ret cached_value
    end.

(** [pop]. *)
Definition pop (key : Z * Z) : M (option Q) :=
  st <- get_ctx ;;
  let k := _sort_key key in
  put_ctx (with_cache (fun c => delete k c) st) ;;;
  ret (cache st !! k).

(** [set]. *)
Definition set (key : Z * Z) (value : Q) : M unit :=
  st <- get_ctx ;;
  put_ctx (with_cache (fun c => <[_sort_key key := value]> c) st).

End CachedSimilarityFunction.


(** ** Helpers for Python built-ins *)

Definition Qltb (x y : Q) : bool := negb (Qle_bool y x).

(** [set.add]. *)
Definition set_add (x : Z) (s : list Z) : list Z :=
  if bool_decide (x ∈ s) then s else s ++ [x].

(** [set.pop()]: removes and returns some element; which one is the
    policy [pick] (an index into the current elements, the first element
    when the index is out of range). *)
Definition set_pop (pick : list Z -> nat) (s : list Z) : option (Z * list Z) :=
  match s with
  | [] => None
  | c0 :: s0 =>
      match s !! pick s with
      | Some c => Some (c, filter (fun x => x <> c) s)
      | None => Some (c0, s0)
      end
  end.

(** [d[k]] on an ordered dictionary. *)
Definition od_item {V} (d : odict Z V) (k : Z) : M V :=
  match od_get d k with
  | Some v => ret v
  | None => raise KeyError
  end.

(** [x / n] with an integer [n]. *)
Definition py_div (x : Q) (n : Z) : M Q :=
  if decide (n = 0) then raise ZeroDivisionError else ret (x / inject_Z n)%Q.

(** [max(0, x)]. *)
Definition max0 (x : Q) : Q := if Qltb 0 x then x else 0%Q.

(** [sum(xs)]. *)
Definition Qsum (xs : list Q) : Q := fold_left Qplus xs 0%Q.

(** [max(xs, key=key)] and [min(xs, key=key)] on a non-empty sequence: the
    first element that attains the extremum. *)
Fixpoint max_by {A} (key : A -> Q) (best : A) (xs : list A) : A :=
  match xs with
  | [] => best
  | x :: xs' => max_by key (if Qltb (key best) (key x) then x else best) xs'
  end.

Fixpoint min_by {A} (key : A -> Q) (best : A) (xs : list A) : A :=
  match xs with
  | [] => best
  | x :: xs' => min_by key (if Qltb (key x) (key best) then x else best) xs'
  end.

(** ** [_ShapeMatcher] *)

Section ShapeMatcher.

(** [_distance_func] of the concrete matcher. *)
Variable sim_fn : Annotation -> Annotation -> M Q.
(** [match_annotations_two_sources] of the concrete matcher; the base
    class returns no pair. *)
Variable match_annotations_two_sources :
  list Annotation -> list Annotation -> M (list (Annotation * Annotation)).
Variables pairwise_dist cluster_dist : Q.
(** The choice [to_visit.pop()] makes. *)
Variable pick : list Z -> nat.

(** [distance]. *)
Definition distance (a b : Annotation) : M Q :=
  CachedSimilarityFunction.call sim_fn a b.

(** [_get_ann_type]. *)
Definition _get_ann_type (t : AnnotationType.t) (item : list Annotation) : list Annotation :=
  filter (fun a =>
            bool_decide (ann_type a = t)
            && negb (truthy (default (VBool false) (attributes a !! "outside"))))
         item.

(** [id_segm = {id(a): (a, id(s)) for s in sources for a in s}]; the
    sources are distinct list objects, so the position of [s] stands for
    [id(s)]. *)
Fixpoint build_id_segm (idx : nat) (sources : list (list Annotation))
    (d : odict Z (Annotation * nat)) : odict Z (Annotation * nat) :=
  match sources with
  | [] => d
  | s :: rest =>
      build_id_segm (S idx) rest
        (fold_left (fun d a => od_set d (ann_id a) (a, idx)) s d)
  end.

Section clusters.
Variable id_segm : odict Z (Annotation * nat).
(** [cluster_dist] after the fallback to [pairwise_dist]. *)
Variable cluster_dist' : Q.

(** [_is_close_enough]. *)
Fixpoint _is_close_enough_loop (b : Annotation) (cluster : list Z) : M bool :=
  match cluster with
  | [] => ret true
  | a_id :: cluster' =>
      a <- od_item id_segm a_id ;;
      d <- distance (fst a) b ;;
      if Qltb d cluster_dist' then ret false
      else _is_close_enough_loop b cluster'
  end.

Definition _is_close_enough (cluster : list Z) (extra_id : Z) : M bool :=
  b <- od_item id_segm extra_id ;;
  _is_close_enough_loop (fst b) cluster.

(** [_has_same_source]. *)
Fixpoint _has_same_source_loop (b : nat) (cluster : list Z) : M bool :=
  match cluster with
  | [] => ret false
  | a_id :: cluster' =>
      a <- od_item id_segm a_id ;;
      if decide (snd a = b) then ret true
      else _has_same_source_loop b cluster'
  end.

Definition _has_same_source (cluster : list Z) (extra_id : Z) : M bool :=
  b <- od_item id_segm extra_id ;;
  _has_same_source_loop (snd b) cluster.

(** The body of [for i in adjacent[c]]: both guards look at [cluster],
    the members admitted so far, and not at [to_visit]. *)
Definition admit_candidate (cluster visited : list Z) (to_visit : list Z) (i : Z)
    : M (list Z) :=
  if bool_decide (i ∈ visited) then ret to_visit
  else
    far <- (if Qltb 0 cluster_dist'
            then close <- _is_close_enough cluster i ;; ret (negb close)
            else ret false) ;;
    if (far : bool) then ret to_visit
    else
      same <- _has_same_source cluster i ;;
      if (same : bool) then ret to_visit
      else ret (set_add i to_visit).

(** [while to_visit: ...]. Every round visits a new annotation, so the
    number of annotations bounds the rounds. *)
Fixpoint grow_cluster (rounds : nat) (adjacent : odict Z (list Z))
    (cluster visited to_visit : list Z) : M (list Z * list Z) :=
  match set_pop pick to_visit with
  | None => ret (cluster, visited)
  | Some (c, to_visit) =>
      match rounds with
      | O => raise Unbounded
      | S rounds' =>
          let cluster := set_add c cluster in
          let visited := set_add c visited in
          adj <- od_item adjacent c ;;
          to_visit <- for_each adj to_visit (admit_candidate cluster visited) ;;
          grow_cluster rounds' adjacent cluster visited to_visit
      end
  end.

(** [for cluster_idx in adjacent: ...]. *)
Fixpoint join_clusters (adjacent : odict Z (list Z)) (keys : list Z)
    (clusters : list (list Annotation)) (visited : list Z)
    : M (list (list Annotation)) :=
  match keys with
  | [] => ret clusters
  | cluster_idx :: keys' =>
      if bool_decide (cluster_idx ∈ visited)
      then join_clusters adjacent keys' clusters visited
      else
        r <- grow_cluster (length id_segm) adjacent [] visited [cluster_idx] ;;
        members <- map_m (fun i => a <- od_item id_segm i ;; ret (fst a)) (fst r) ;;
        join_clusters adjacent keys' (clusters ++ [members]) (snd r)
  end.
End clusters.

(** [adjacent[id(a)].append(id(b))] for every pair of [matches]. *)
Definition add_matches (adjacent : odict Z (list Z))
    (matches : list (Annotation * Annotation)) : M (odict Z (list Z)) :=
  for_each matches adjacent (fun adjacent ab =>
    l <- od_item adjacent (ann_id (fst ab)) ;;
    ret (od_set adjacent (ann_id (fst ab)) (l ++ [ann_id (snd ab)]))).

(** [for a_idx, src_a in enumerate(sources): for src_b in sources[a_idx + 1:]]. *)
Fixpoint match_pairwise (sources : list (list Annotation))
    (adjacent : odict Z (list Z)) : M (odict Z (list Z)) :=
  match sources with
  | [] => ret adjacent
  | src_a :: rest =>
      adjacent <- for_each rest adjacent (fun adjacent src_b =>
        matches <- match_annotations_two_sources src_a src_b ;;
        add_matches adjacent matches) ;;
      match_pairwise rest adjacent
  end.

(** [match_annotations]. *)
Definition match_annotations (sources : list (list Annotation))
    : M (list (list Annotation)) :=
  let cluster_dist' := if Qltb cluster_dist 0 then pairwise_dist else cluster_dist in
  let id_segm := build_id_segm 0 sources [] in
  let adjacent := map (fun e => (fst e, @nil Z)) id_segm in
  adjacent <- match_pairwise sources adjacent ;;
  join_clusters id_segm cluster_dist' adjacent (od_keys adjacent) [] [].

End ShapeMatcher.

(** ** [SkeletonMatcher]

    [_distance_func] hands a pair of skeletons back to [self.distance],
    that is to the cache wrapped around [_distance_func] itself; [depth]
    is the room left on the interpreter's call stack. Anything else goes
    to [KeypointsMatcher.distance] ([keypoints_distance]). *)
Fixpoint skeleton_distance (keypoints_distance : Annotation -> Annotation -> M Q)
    (depth : nat) (a b : Annotation) : M Q :=
  match depth with
  | O => raise RecursionError
  | S depth' =>
      CachedSimilarityFunction.call
        (fun a b =>
           if bool_decide (ann_type a = AnnotationType.skeleton) && bool_decide (ann_type b = AnnotationType.skeleton)
           then skeleton_distance keypoints_distance depth' a b
           else keypoints_distance a b)
        a b
  end.

(** ** The pairwise matchers of the shape types *)

(** What the comparator's [match_segments] returns:
    (matches, mismatches, a_extra, b_extra). *)
Definition SegmentMatches : Type :=
  list (Annotation * Annotation) * list (Annotation * Annotation)
  * list Annotation * list Annotation.

Definition matches_of (r : SegmentMatches) : list (Annotation * Annotation) :=
  fst (fst (fst r)).

Section Matchers.

(** [DistanceComparator.match_segments(t, item_a, item_b, ..., a_objs,
    b_objs, ...)] of the quality reports, with the distance, the label
    matcher and the threshold of the calling matcher; [None] stands for
    an argument left at its default. *)
Variable comparator_match_segments :
  AnnotationType.t -> list Annotation -> list Annotation ->
  option (list Annotation) -> option (list Annotation) -> M SegmentMatches.

(** [_ShapeMatcher.match_annotations_two_sources]. *)
Definition shape_match_annotations_two_sources (item_a item_b : list Annotation)
    : M (list (Annotation * Annotation)) :=
  ret [].

(** [BboxMatcher.match_annotations_two_sources]. *)
Definition bbox_match_annotations_two_sources (item_a item_b : list Annotation)
    : M (list (Annotation * Annotation)) :=
  r <- comparator_match_segments AnnotationType.bbox item_a item_b None None ;;
  ret (matches_of r).

(** [PointsMatcher.match_annotations_two_sources]. *)
Definition points_match_annotations_two_sources (item_a item_b : list Annotation)
    : M (list (Annotation * Annotation)) :=
  let a_points := _get_ann_type AnnotationType.points item_a in
  let b_points := _get_ann_type AnnotationType.points item_b in
  r <- comparator_match_segments AnnotationType.points item_a item_b
         (Some a_points) (Some b_points) ;;
  ret (matches_of r).

(** [LineMatcher.match_annotations_two_sources]. *)
Definition line_match_annotations_two_sources (item_a item_b : list Annotation)
    : M (list (Annotation * Annotation)) :=
  r <- comparator_match_segments AnnotationType.polyline item_a item_b None None ;;
  ret (matches_of r).

End Matchers.

(** [LabelMatcher.match_annotations]: one cluster with all the labels. *)
Definition label_match_annotations (sources : list (list Annotation))
    : list (list Annotation) :=
  [concat sources].

(** ** Context look-ups of [IntersectMerge] *)

Definition gmap_item {K} `{Countable K} {V} (m : gmap K V) (k : K) : M V :=
  match m !! k with
  | Some v => ret v
  | None => raise KeyError
  end.

(** [add_item_error]: the error is built for the item being merged. *)
Definition add_item_error (error : ItemKey -> ItemError) : M unit :=
  st <- get_ctx ;;
  put_ctx (with_errors (fun es => es ++ [error (_item_id st)]) st).

(** [get_ann_source], inherited: [_item_map[_ann_map[ann_id][1]][1]]. *)
Definition get_ann_source (ann_id : Z) : M Z :=
  st <- get_ctx ;;
  item <- gmap_item (_ann_map st) ann_id ;;
  gmap_item (_item_map st) item.

(** [get_dataset_source_id]. *)
Definition get_dataset_source_id (dataset_id : Z) : M nat :=
  st <- get_ctx ;;
  gmap_item (_dataset_map st) dataset_id.

(** [get_ann_dataset_id]. *)
Definition get_ann_dataset_id (ann_id : Z) : M nat :=
  s <- get_ann_source ann_id ;;
  get_dataset_source_id s.

(** [dataset_count]. *)
Definition dataset_count : M Z :=
  st <- get_ctx ;;
  ret (Z.of_nat (size (_dataset_map st))).

(** [get_item_media_dims]: the two look-ups; the size itself only feeds
    the geometry, which stays outside the embedding. *)
Definition get_item_media_dims (ann_id : Z) : M unit :=
  st <- get_ctx ;;
  item <- gmap_item (_ann_map st) ann_id ;;
  _ <- gmap_item (_item_map st) item ;;
  ret tt.

(** [a.attributes.get("score", default)] where a number is expected: a
    [bool] counts as 0 or 1, anything else is a [TypeError] in the
    arithmetic or comparison that follows. *)
Definition score_value (dflt : Q) (a : Annotation) : option Q :=
  match attributes a !! "score" with
  | None => Some dflt
  | Some (VNum q) => Some q
  | Some (VBool b) => Some (if b then 1 else 0)%Q
  | Some _ => None
  end.

Definition score_attr (dflt : Q) (a : Annotation) : M Q :=
  match score_value dflt a with
  | Some q => ret q
  | None => raise TypeError
  end.

(** [dataset_mean_consensus_score.setdefault(dataset_id, []).append(v)]. *)
Definition append_consensus_score (dataset_id : Z) (v : Q) : M unit :=
  st <- get_ctx ;;
  match default (Scores []) (dataset_mean_consensus_score st !! dataset_id) with
  | Scores l =>
      put_ctx (with_scores (fun m => <[dataset_id := Scores (l ++ [v])]> m) st)
  | Mean _ => raise AttributeError
  end.

Definition enumerate {A} (xs : list A) : list (nat * A) :=
  combine (seq 0 (length xs)) xs.

Definition list_item {A} (xs : list A) (i : nat) : M A :=
  match xs !! i with
  | Some x => ret x
  | None => raise IndexError
  end.

(** ** [_ShapeMerger] and [SkeletonMerger] *)

Section ShapeMerger.

(** [self.distance] of the matcher mixed into the merger. *)
Variable distance : Annotation -> Annotation -> M Q.
(** The label-name resolver of the dataset layer. *)
Variable get_src_label_name : Annotation -> option nat -> option string.
Variable get_label_id : option string -> option nat.
Variable quorum : Z.
(** [segment_iou] of the polygon of the cluster's mean box and the
    polygon of a member. *)
Variable mean_box_iou : list Annotation -> Annotation -> Q.

(** The loop of [find_cluster_label] that fills [votes]. *)
Definition tally_shape (votes : ShapeVotes) (s : Annotation) : M ShapeVotes :=
  let label := get_src_label_name s (ann_label s) in
  let state := default (0%Q, 0%Z) (od_get votes label) in
  sc <- score_attr 1 s ;;
  ret (od_set votes label ((fst state + sc)%Q, snd state + 1)).

Definition shape_votes (cluster : list Annotation) : M ShapeVotes :=
  for_each cluster [] tally_shape.

(** [max(votes.items(), key=lambda e: e[1][0])]. *)
Definition winning_vote (votes : ShapeVotes) : M (option string * (Q * Z)) :=
  match votes with
  | [] => raise ValueError
  | e :: es => ret (max_by (fun e => fst (snd e)) e es)
  end.

(** [find_cluster_label]. *)
Definition find_cluster_label (cluster : list Annotation) : M (option nat * Q) :=
  votes <- shape_votes cluster ;;
  w <- winning_vote votes ;;
  let '(label, (score, count)) := w in
  label <- (if count <? quorum
            then add_item_error (fun item =>
                   FailedLabelVotingError item (VotesShape votes) ∅) ;;;
                 ret None
            else ret label) ;;
  n <- dataset_count ;;
  score <- py_div score n ;;
  ret (get_label_id label, score).

(** [_merge_cluster_shape_mean_box_nearest]; [mean_bbox] divides by the
    size of the cluster. *)
Definition _merge_cluster_shape_mean_box_nearest (cluster : list Annotation)
    : M Annotation :=
  match cluster with
  | [] => raise ZeroDivisionError
  | a :: _ =>
      get_item_media_dims (ann_id a) ;;;
      let dist := map (mean_box_iou cluster) cluster in
      match enumerate dist with
      | [] => raise ValueError
      | e :: es => list_item cluster (fst (max_by snd e es))
      end
  end.

(** [sum(max(0, self.distance(shape, s)) for s in cluster) / len(cluster)]. *)
Definition shape_score_of (shape : Annotation) (cluster : list Annotation) : M Q :=
  total <- for_each cluster 0%Q (fun acc s =>
             d <- distance shape s ;; ret (acc + max0 d)%Q) ;;
  py_div total (Z.of_nat (length cluster)).

(** [_ShapeMerger.merge_cluster_shape]. *)
Definition merge_cluster_shape (cluster : list Annotation) : M (Annotation * Q) :=
  shape <- _merge_cluster_shape_mean_box_nearest cluster ;;
  for_each cluster tt (fun _ ann =>
    dataset_id <- get_ann_source (ann_id ann) ;;
    d <- distance ann shape ;;
    append_consensus_score dataset_id (max0 d)) ;;;
  shape_score <- shape_score_of shape cluster ;;
  ret (shape, shape_score).

(** [SkeletonMerger._merge_cluster_shape_nearest]. *)
Definition _merge_cluster_shape_nearest (cluster : list Annotation) : M Annotation :=
  dist <- map_m (fun skeleton1 =>
            skeleton_distance <- for_each cluster 0%Q (fun acc skeleton2 =>
                                   d <- distance skeleton1 skeleton2 ;;
                                   ret (acc + d)%Q) ;;
            py_div skeleton_distance (Z.of_nat (length cluster)))
          cluster ;;
  match enumerate dist with
  | [] => raise ValueError
  | e :: es => list_item cluster (fst (min_by snd e es))
  end.

(** [SkeletonMerger.merge_cluster_shape]. *)
Definition skeleton_merge_cluster_shape (cluster : list Annotation)
    : M (Annotation * Q) :=
  shape <- _merge_cluster_shape_nearest cluster ;;
  shape_score <- shape_score_of shape cluster ;;
  ret (shape, shape_score).

(** [max(cluster, key=lambda a: a.z_order).z_order]. *)
Definition max_z_order (cluster : list Annotation) : M Z :=
  match cluster with
  | [] => raise ValueError
  | a :: rest => ret (fold_left (fun z b => Z.max z (z_order b)) rest (z_order a))
  end.

Section merge_cluster.
(** The [merge_cluster_shape] the merger's class resolves to. *)
Variable merge_cluster_shape_impl : list Annotation -> M (Annotation * Q).

(** [merge_cluster]; the representative is updated in place. *)
Definition merge_cluster (cluster : list Annotation) : M (option Annotation) :=
  r <- find_cluster_label cluster ;;
  match fst r with
  | None => ret None
  | Some l =>
      s <- merge_cluster_shape_impl cluster ;;
      z <- max_z_order cluster ;;
      let shape := fst s in
      ret (Some (mkAnnotation (ann_id shape) (ann_type shape) (Some l)
                   (<["score" := VNum (snd r * snd s)]> (attributes shape)) z))
  end.

(** [merge_clusters]. *)
Definition merge_clusters (clusters : list (list Annotation)) : M (list Annotation) :=
  merged <- map_m merge_cluster clusters ;;
  ret (omap id merged).
End merge_cluster.

End ShapeMerger.

(** ** [LabelMerger] *)

(** [for l in a] over an annotation: annotation objects are plain records
    of fields and define no iteration, so the loop raises. *)
Definition annotation_iter (a : Annotation) : M (list Annotation) :=
  raise TypeError.

(** Modelled from the spec: the constructor [Label] of
    [cvat.apps.engine.models], which is not part of these sources. The
    surviving label is "emitted as an independent merged label annotation"
    carrying the given attributes; it is a new object, whose handle nothing
    reads. *)
Definition Label (label_id : option nat) (attrs : gmap string AttrValue) : Annotation :=
  mkAnnotation 0 AnnotationType.label label_id attrs 0.

Section LabelMerger.

Variable get_src_label_name : Annotation -> option nat -> option string.
Variable get_label_id : option string -> option nat.
Variable quorum : Z.

Definition label_votes (cluster : list Annotation) : LabelVotes :=
  fold_left (fun votes ann =>
               let label := get_src_label_name ann (ann_label ann) in
               od_set votes label (1 + default 0 (od_get votes label)))
            cluster [].

(** The sources of the members among whose elements [label] is missing. *)
Definition non_voting_sources (label : option string) (cluster : list Annotation)
    : M (gset Z) :=
  for_each cluster ∅ (fun sources a =>
    ls <- annotation_iter a ;;
    if bool_decide (label ∈ map (fun l => get_src_label_name l (ann_label l)) ls)
    then ret sources
    else s <- get_ann_source (ann_id a) ;; ret ({[s]} ∪ sources)).

(** [LabelMerger.merge_clusters]. *)
Definition label_merge_clusters (clusters : list (list Annotation)) : M (list Annotation) :=
  if (1 <? length clusters)%nat then raise AssertionError
  else
    match clusters with
    | [] => ret []
    | cluster :: _ =>
        let votes := label_votes cluster in
        for_each votes [] (fun merged lc =>
          if snd lc <? quorum then
            sources <- non_voting_sources (fst lc) cluster ;;
            sources <- map_m get_dataset_source_id (elements sources) ;;
            add_item_error (fun item =>
              FailedLabelVotingError item (VotesLabel votes) (list_to_set sources)) ;;;
            ret merged
          else
            n <- dataset_count ;;
            score <- py_div (inject_Z (snd lc)) n ;;
            ret (merged ++ [Label (get_label_id (fst lc)) {["score" := VNum score]}]))
    end.

End LabelMerger.

(** ** [IntersectMerge]: the orchestrator *)

(** What [merge_items] returns: the first available item wrapped around
    the merged annotations. *)
Record MergedItem : Type := mkMergedItem {
  merged_key : ItemKey;
  merged_annotations : list Annotation;
}.

(** [Dataset.get(item_id, subset=item_subset)]. *)
Definition dataset_get (d : Dataset) (key : ItemKey) : option DatasetItem :=
  List.find (fun item => bool_decide (item_key item = key)) (ds_items d).

(** [match_items], inherited from the dataset library: the keys of all
    datasets, visited in the order of their ids; for each key the items
    that have it, by dataset. *)
Definition id_le (a b : ItemKey) : Prop := String.leb (fst a) (fst b) = true.

#[global] Instance id_le_dec : RelDecision id_le.
Proof. intros a b. unfold id_le. apply _. Defined.

Definition item_ids (datasets : list Dataset) : list ItemKey :=
  merge_sort id_le
             (remove_dups (concat (map (fun d => map item_key (ds_items d)) datasets))).

Definition items_of (datasets : list Dataset) (key : ItemKey) : odict Z DatasetItem :=
  fold_left (fun items d =>
               match dataset_get d key with
               | Some item => od_set items (ds_pyid d) item
               | None => items
               end)
            datasets [].

Definition match_items (datasets : list Dataset)
    : odict ItemKey (odict Z DatasetItem) * gmap Z Z :=
  let matches := map (fun key => (key, items_of datasets key)) (item_ids datasets) in
  let item_map :=
    fold_left (fun m e =>
                 fold_left (fun m di => <[item_pyid (snd di) := fst di]> m) (snd e) m)
              matches ∅ in
  (matches, item_map).

(** [np.mean] of a list: [nan] for the empty list. *)
Definition np_mean (l : list Q) : Float :=
  match l with
  | [] => NaN
  | _ => Fin (Qsum l / inject_Z (Z.of_nat (length l)))
  end.

Definition np_mean_slot (s : ScoreSlot) : ScoreSlot :=
  match s with
  | Scores l => Mean (np_mean l)
  | Mean m => Mean m
  end.

Section IntersectMerge.

(** [merge_annotations], inherited: matches, clusters and merges the
    annotations of one item through the mergers above. *)
Variable merge_annotations : list (list Annotation) -> M (list Annotation).
(** [conf.output_conf_thresh]. *)
Variable output_conf_thresh : Q.
(** The outcome of [_check_groups_definition]. *)
Variable _check_groups_definition : Result unit.

(** [annotation.attributes["source"] = "consensus"]. *)
Definition tag_consensus (a : Annotation) : Annotation :=
  mkAnnotation (ann_id a) (ann_type a) (ann_label a)
               (<["source" := VStr "consensus"]> (attributes a)) (z_order a).

(** The comprehension of [merge_items] that applies the floor. *)
Fixpoint above_floor (anns : list Annotation) : M (list Annotation) :=
  match anns with
  | [] => ret []
  | a :: anns' =>
      score <- score_attr 1 a ;;
      rest <- above_floor anns' ;;
      ret (if Qle_bool output_conf_thresh score then a :: rest else rest)
  end.

(** [merge_items]. *)
Definition merge_items (items : odict Z DatasetItem) : M MergedItem :=
  match items with
  | [] => raise StopIteration
  | (_, first) :: _ =>
      sources <- for_each items [] (fun sources e =>
        st <- get_ctx ;;
        put_ctx (with_ann_map (fun m =>
                   fold_left (fun m a => <[ann_id a := item_pyid (snd e)]> m)
                             (annotations (snd e)) m) st) ;;;
        ret (sources ++ [annotations (snd e)])) ;;
      anns <- merge_annotations sources ;;
      anns <- above_floor anns ;;
      ret (mkMergedItem (item_key first) (map tag_consensus anns))
  end.

(** The body of [for item_id, items in item_matches.items()]. *)
Definition merge_matched (datasets : list Dataset) (merged : odict ItemKey MergedItem)
    (e : ItemKey * odict Z DatasetItem) : M (odict ItemKey MergedItem) :=
  st <- get_ctx ;;
  put_ctx (with_item_id (fst e) st) ;;;
  (if (length (snd e) <? length datasets)%nat then
     let missing_sources : gset Z :=
       list_to_set (map ds_pyid datasets) ∖ list_to_set (od_keys (snd e)) in
     missing_sources <- map_m get_dataset_source_id (elements missing_sources) ;;
     add_item_error (fun item => NoMatchingItemError item (list_to_set missing_sources))
   else ret tt) ;;;
  item <- merge_items (snd e) ;;
  ret (od_set merged (merged_key item) item).

(** The state [__call__] sets up before the first item. *)
Definition init_context (datasets : list Dataset) (item_map : gmap Z Z) (st : Context)
    : Context :=
  mkContext [] (_item_id st)
    (fold_left (fun m id => <[ds_pyid (snd id) := fst id]> m) (enumerate datasets) ∅)
    item_map
    ∅
    (fold_left (fun m d => <[ds_pyid d := Scores []]> m) datasets ∅)
    (cache st).

(** The loop of [__call__] over the matched items. *)
Definition merge_all (datasets : list Dataset)
    (item_matches : odict ItemKey (odict Z DatasetItem)) : M (odict ItemKey MergedItem) :=
  for_each item_matches [] (merge_matched datasets).

(** The last loop of [__call__]: every slot becomes its mean. *)
Definition finalize_scores : M unit :=
  st <- get_ctx ;;
  put_ctx (with_scores (fun m => np_mean_slot <$> m) st).

(** [__call__]. *)
Definition call (datasets : list Dataset) : M (odict ItemKey MergedItem) :=
  st <- get_ctx ;;
  put_ctx (with_errors (fun _ => []) st) ;;;
  match _check_groups_definition with
  | Raise e => raise e
  | Ok _ =>
      let '(item_matches, item_map) := match_items datasets in
      st <- get_ctx ;;
      put_ctx (init_context datasets item_map st) ;;;
      merged <- merge_all datasets item_matches ;;
      finalize_scores ;;;
      ret merged
  end.

End IntersectMerge.

(** * The settings of a consensus task: [cvat/apps/consensus/serializers.py] *)

Module ConsensusSettingsSerializer.

(** What a validation hands back: the validated data, or a
    [serializers.ValidationError] with its message. *)
Inductive Outcome (A : Type) : Type :=
| Valid (a : A)
| ValidationError (detail : string).
Arguments Valid {A} a.
Arguments ValidationError {A} detail.

(** [k.endswith(suffix)]. *)
Definition endswith (k suffix : string) : bool :=
  (String.length suffix <=? String.length k)%nat
  && String.eqb (substring (String.length k - String.length suffix)
                           (String.length suffix) k) suffix.

(** [lo <= v <= hi]. *)
Definition between (lo hi v : Q) : bool := Qle_bool lo v && Qle_bool v hi.

(** The body of the loop of [validate] for one entry of [attrs]: the
    message of the error it raises, if it raises. *)
Definition check (k : string) (v : Q) : option string :=
  if endswith k "_threshold" then
    if negb (between 0 1 v) then Some (String.append k " must be in the range [0; 1]") else None
  else if String.eqb k "quorum" then
    if negb (between 0 10 v) then Some (String.append k " must be in the range [0; 10]") else None
  else if String.eqb k "sigma" then
    if negb (between (1 # 20) (1 # 5) v)
    then Some (String.append k " must be in the range [0.05; 0.2]") else None
  else None.

Section validate.
(** [super().validate], the validation of the framework's base class. *)
Variable super_validate : odict string Q -> Outcome (odict string Q).

(** [for k, v in attrs.items(): ...]. *)
Fixpoint validate_loop (items : list (string * Q)) : option string :=
  match items with
  | [] => None
  | (k, v) :: items' =>
      match check k v with
      | Some detail => Some detail
      | None => validate_loop items'
      end
  end.

(** [validate]; the values of the fields are numbers. *)
Definition validate (attrs : odict string Q) : Outcome (odict string Q) :=
  match validate_loop attrs with
  | Some detail => ValidationError detail
  | None => super_validate attrs
  end.
End validate.

End ConsensusSettingsSerializer.

(** ** [SkeletonMatcher]: mapping the distances back to the skeletons

    [match_annotations_two_sources] compares the skeletons through point
    sets it builds from them, so the cache fills with distances under the
    handles of these point sets; the last loop of the method moves every
    entry of the cache to the handles of the skeletons. [points_map] sends
    the handle of a point set to the handle of its skeleton. *)
Section SkeletonMatcher.
Variable points_map : gmap Z Z.

(** [distances.set(key, dist)] with what [pop] has returned: a stored
    [None] reads as no entry, for [__call__] and for [pop] alike. *)
Definition set_popped (key : Z * Z) (dist : option Q) : M unit :=
  match dist with
  | Some d => CachedSimilarityFunction.set key d
  | None =>
      st <- get_ctx ;;
      put_ctx (with_cache (fun c => delete (CachedSimilarityFunction._sort_key key) c) st)
  end.

(** The body of [for p_a_id, p_b_id in list(distances.keys())]. *)
Definition remap_distance (key : Z * Z) : M unit :=
  dist <- CachedSimilarityFunction.pop key ;;
  a <- gmap_item points_map (fst key) ;;
  b <- gmap_item points_map (snd key) ;;
  set_popped (a, b) dist.

(** The loop over [keys], the keys the cache held when the loop began. *)
Definition remap_distances (keys : list (Z * Z)) : M unit :=
  for_each keys tt (fun _ key => remap_distance key).
End SkeletonMatcher.

(** ** Concrete inputs *)

Definition empty_context : Context :=
  mkContext [] ("", "") ∅ ∅ ∅ ∅ ∅.

Definition shape (t : AnnotationType.t) (id : Z) (l : nat) : Annotation :=
  mkAnnotation id t (Some l) ∅ 0.

(** A similarity given by a table on sorted handle pairs (0 elsewhere). *)
Definition table_sim (tbl : list ((Z * Z) * Q)) (a b : Annotation) : M Q :=
  ret (default 0%Q
         (od_get tbl (CachedSimilarityFunction._sort_key (ann_id a, ann_id b)))).

(** A pairwise matcher given by the table of the pairs it finds. *)
Definition table_matcher (pairs : list (Z * Z)) (src_a src_b : list Annotation)
    : M (list (Annotation * Annotation)) :=
  ret (filter (fun ab => bool_decide ((ann_id (fst ab), ann_id (snd ab)) ∈ pairs))
              (list_prod src_a src_b)).

(** The source (position) an annotation of [sources] belongs to. *)
Definition source_of (sources : list (list Annotation)) (a : Annotation) : option nat :=
  snd <$> od_get (build_id_segm 0 sources []) (ann_id a).

Module BoxesInThreeSources.
(** Boxes on a line: [a0 = [0,10]] in source 0, [b1 = [2,12]] in source
    1, [c2 = [0,10]] and [c2' = [3,13]] in source 2. With threshold 1/2
    the best pairing of sources 0 and 2 is (a0, c2), that of sources 1
    and 2 is (b1, c2'), and a0 pairs with b1. *)
Definition a0 := shape AnnotationType.bbox 10 0.
Definition b1 := shape AnnotationType.bbox 20 0.
Definition c2 := shape AnnotationType.bbox 30 0.
Definition c2' := shape AnnotationType.bbox 31 0.
Definition sources : list (list Annotation) := [[a0]; [b1]; [c2; c2']].
Definition iou : list ((Z * Z) * Q) :=
  [((10, 20), 2 # 3); ((10, 30), 1 # 1); ((10, 31), 7 # 13);
   ((20, 30), 2 # 3); ((20, 31), 9 # 11); ((30, 31), 7 # 13)].
Definition matched : list (Z * Z) := [(10, 20); (10, 30); (20, 31)].
(** [to_visit.pop()] takes the element that entered first. *)
Definition pop_first (s : list Z) : nat := 0%nat.
Definition clusters : Result (list (list Annotation) * Context) :=
  match_annotations (table_sim iou) (table_matcher matched) (1 # 2) (-1 # 1) pop_first
                    sources empty_context.
End BoxesInThreeSources.

Module GroupedPolygons.
(** Source 0 holds the polygon [p]; source 1 holds [q1] and [q2], two
    halves of the same object in one group. [PolygonMatcher] pairs the
    instances and returns the product of their shapes: (p, q1), (p, q2). *)
Definition p := shape AnnotationType.polygon 1 0.
Definition q1 := shape AnnotationType.polygon 2 0.
Definition q2 := shape AnnotationType.polygon 3 0.
Definition sources : list (list Annotation) := [[p]; [q1; q2]].
Definition iou : list ((Z * Z) * Q) :=
  [((1, 2), 1 # 2); ((1, 3), 1 # 2); ((2, 3), 0 # 1)].
Definition matched : list (Z * Z) := [(1, 2); (1, 3)].
Definition clusters (pick : list Z -> nat) : Result (list (list Annotation) * Context) :=
  match_annotations (table_sim iou) (table_matcher matched) (1 # 2) (-1 # 1) pick
                    sources empty_context.
End GroupedPolygons.

Module LooseTriple.
(** One box per source; [a0] overlaps [b1] and [c2] by 3/5 each, while
    [b1] and [c2] overlap by 3/10 only and are not paired. *)
Definition a0 := shape AnnotationType.bbox 10 0.
Definition b1 := shape AnnotationType.bbox 20 0.
Definition c2 := shape AnnotationType.bbox 30 0.
Definition sources : list (list Annotation) := [[a0]; [b1]; [c2]].
Definition iou : list ((Z * Z) * Q) :=
  [((10, 20), 3 # 5); ((10, 30), 3 # 5); ((20, 30), 3 # 10)].
Definition matched : list (Z * Z) := [(10, 20); (10, 30)].
Definition cluster_dist : Q := 1 # 2.
Definition clusters (pick : list Z -> nat) : Result (list (list Annotation) * Context) :=
  match_annotations (table_sim iou) (table_matcher matched) (1 # 2) cluster_dist pick
                    sources empty_context.
End LooseTriple.

(** Two distinct members of [C] come from the same source. *)
Definition shares_source (sources : list (list Annotation)) (C : list Annotation) : Prop :=
  exists m1 m2 s,
    In m1 C /\ In m2 C /\ ann_id m1 <> ann_id m2 /\
    source_of sources m1 = Some s /\ source_of sources m2 = Some s.

(** Two members of [C] are less similar than [threshold], by the cached
    distance read in the state [st] the cluster builder leaves. *)
Definition has_loose_pair (sim_fn : Annotation -> Annotation -> M Q) (threshold : Q)
    (st : Context) (C : list Annotation) : Prop :=
  exists m1 m2 d st',
    In m1 C /\ In m2 C /\
    distance sim_fn m1 m2 st = Ok (d, st') /\ (d < threshold)%Q.

Module FloorExample.
(** One item of one source with a confident and a doubtful annotation;
    the merge of the item hands both back. *)
Definition sure : Annotation :=
  mkAnnotation 1 AnnotationType.bbox (Some 0%nat) {["score" := VNum (9 # 10)]} 0.
Definition doubtful : Annotation :=
  mkAnnotation 2 AnnotationType.bbox (Some 0%nat) {["score" := VNum (1 # 5)]} 0.
Definition item : DatasetItem := mkItem 100 ("frame0", "") [sure; doubtful].
Definition items : odict Z DatasetItem := [(1000, item)].
Definition merge_annotations (sources : list (list Annotation)) : M (list Annotation) :=
  ret (concat sources).
Definition floor : Q := 1 # 2.
End FloorExample.

Module SkeletonTriple.
(** Three skeletons, one per source; [sk1] and [sk2] nearly coincide
    (9/10), [sk3] is far from both (1/5 and 3/10). The matcher has left
    these similarities in the cache. *)
Definition sk1 := shape AnnotationType.skeleton 1 0.
Definition sk2 := shape AnnotationType.skeleton 2 0.
Definition sk3 := shape AnnotationType.skeleton 3 0.
Definition cluster : list Annotation := [sk1; sk2; sk3].
Definition st : Context :=
  with_cache (fun _ => {[ (1, 2) := 9 # 10; (1, 3) := 1 # 5; (2, 3) := 3 # 10 ]})
             empty_context.
Definition keypoints_distance (a b : Annotation) : M Q := ret 0%Q.
End SkeletonTriple.

Module SkeletonPair.
(** Two skeletons, one per source, as the matcher leaves them after the
    one pair of sources: their similarity (9/10) is in the cache. *)
Definition cluster : list Annotation := [SkeletonTriple.sk1; SkeletonTriple.sk2].
Definition st : Context :=
  with_cache (fun _ => {[ (1, 2) := 9 # 10 ]}) empty_context.
End SkeletonPair.

Module VoteExample.
(** Three sources; two boxes are labelled "car" (label 0), one "truck"
    (label 1), each with its confidence. *)
Definition label_names (a : Annotation) (l : option nat) : option string :=
  match l with
  | Some 0%nat => Some "car"
  | Some _ => Some "truck"
  | None => None
  end.
Definition label_ids (name : option string) : option nat :=
  match name with
  | Some "car" => Some 0%nat
  | Some "truck" => Some 1%nat
  | _ => None
  end.
Definition box (id : Z) (l : nat) (score : Q) : Annotation :=
  mkAnnotation id AnnotationType.bbox (Some l) {["score" := VNum score]} 0.
Definition cluster : list Annotation :=
  [box 1 0 (9 # 10); box 2 1 (1 # 2); box 3 0 (4 # 5)].
Definition st : Context :=
  mkContext [] ("frame0", "") {[ 100 := 0%nat; 200 := 1%nat; 300 := 2%nat ]}
            {[ 10 := 100; 20 := 200; 30 := 300 ]}
            {[ 1 := 10; 2 := 20; 3 := 30 ]}
            {[ 100 := Scores []; 200 := Scores []; 300 := Scores [] ]} ∅.
Definition iou : list ((Z * Z) * Q) :=
  [((1, 2), 4 # 5); ((1, 3), 9 # 10); ((2, 3), 7 # 10)].
Definition merge_shape : list Annotation -> M (Annotation * Q) :=
  merge_cluster_shape (distance (table_sim iou)) (fun _ _ => 1%Q).
End VoteExample.

Module LabelVoteExample.
(** Three sources tag the same item: two with "car", one with "truck". *)
Definition tag (id : Z) (l : nat) : Annotation :=
  mkAnnotation id AnnotationType.label (Some l) ∅ 0.
Definition cluster : list Annotation := [tag 1 0; tag 2 0; tag 3 1].
Definition quorum : Z := 3.
End LabelVoteExample.

Module OutsideExample.
(** Two sources with one visible point set each; the first source also
    holds a point set that is marked as outside. The stand-in for the
    comparator pairs every candidate with every candidate. *)
Definition visible (id : Z) : Annotation :=
  mkAnnotation id AnnotationType.points (Some 0%nat) ∅ 0.
Definition hidden (id : Z) : Annotation :=
  mkAnnotation id AnnotationType.points (Some 0%nat) {["outside" := VBool true]} 0.
Definition item_a : list Annotation := [visible 1; hidden 2].
Definition item_b : list Annotation := [visible 3].
Definition pair_all (t : AnnotationType.t) (item_a item_b : list Annotation)
    (a_objs b_objs : option (list Annotation)) : M SegmentMatches :=
  ret (list_prod (default item_a a_objs) (default item_b b_objs), [], [], []).
End OutsideExample.

Module MissingExample.
(** Three sources; frame "a" is in all of them, frame "b" only in the
    first and the last. *)
Definition frame (pyid : Z) (name : string) (ann : Z) : DatasetItem :=
  mkItem pyid (name, "") [shape AnnotationType.bbox ann 0].
Definition datasets : list Dataset :=
  [ mkDataset 100 [frame 1 "a" 11; frame 2 "b" 12];
    mkDataset 200 [frame 3 "a" 21];
    mkDataset 300 [frame 4 "a" 31; frame 5 "b" 32] ].
Definition merge_annotations (sources : list (list Annotation)) : M (list Annotation) :=
  ret (concat sources).
End MissingExample.

Module ScoreExample.
(** Two sources that hold the same frame and no annotation: nothing
    is clustered, so no score is ever accumulated. *)
Definition datasets : list Dataset :=
  [ mkDataset 100 [mkItem 1 ("a", "") []];
    mkDataset 200 [mkItem 2 ("a", "") []] ].
Definition merge_annotations (sources : list (list Annotation)) : M (list Annotation) :=
  ret (concat sources).
(** The same frame with one box per source; the merge of the item scores
    the box of the first source with 1/2. *)
Definition boxed : list Dataset :=
  [ mkDataset 100 [mkItem 1 ("a", "") [shape AnnotationType.bbox 11 0]];
    mkDataset 200 [mkItem 2 ("a", "") [shape AnnotationType.bbox 21 0]] ].
Definition scoring_merge (sources : list (list Annotation)) : M (list Annotation) :=
  append_consensus_score 100 (1 # 2) ;;;
  ret (concat sources).
End ScoreExample.

Module SettingsExample.
(** An update of all four settings, and one whose quorum exceeds the
    number of consensus jobs a task may have. *)
Definition good : odict string Q :=
  [("iou_threshold", 2 # 5); ("agreement_score_threshold", 7 # 10);
   ("quorum", 3 # 1); ("sigma", 1 # 10)].
Definition bad : odict string Q :=
  [("iou_threshold", 2 # 5); ("quorum", 11 # 1); ("sigma", 1 # 1)].
Definition super_validate (attrs : odict string Q)
    : ConsensusSettingsSerializer.Outcome (odict string Q) :=
  ConsensusSettingsSerializer.Valid attrs.
End SettingsExample.
(** * Properties *)

Lemma _sort_key_comm (a b : Z) :
  CachedSimilarityFunction._sort_key (a, b) = CachedSimilarityFunction._sort_key (b, a).
Proof.
  unfold CachedSimilarityFunction._sort_key; simpl.
  destruct (Z.leb_spec a b), (Z.leb_spec b a); try reflexivity; try lia.
  assert (a = b) by lia. subst. reflexivity.
Qed.

(** A call that returns leaves its value under the sorted key. *)
Lemma call_caches sim_fn a b st v st' :
  ann_id a <> ann_id b ->
  CachedSimilarityFunction.call sim_fn a b st = Ok (v, st') ->
  cache st' !! CachedSimilarityFunction._sort_key (ann_id a, ann_id b) = Some v.
Proof.
  intros Hne. unfold CachedSimilarityFunction.call.
  destruct (decide (ann_id a = ann_id b)) as [|_]; [contradiction|].
  unfold bind, get_ctx, put_ctx, ret.
  destruct (cache st !! _) as [c|] eqn:Hc.
  - intros [= <- <-]. exact Hc.
  - destruct (sim_fn a b st) as [[w st1]|e]; [|discriminate].
    intros [= <- <-]. simpl. apply lookup_insert_eq.
Qed.

(** A hit returns the cached value and changes nothing. *)
Lemma call_hit sim_fn a b st v :
  ann_id a <> ann_id b ->
  cache st !! CachedSimilarityFunction._sort_key (ann_id a, ann_id b) = Some v ->
  CachedSimilarityFunction.call sim_fn a b st = Ok (v, st).
Proof.
  intros Hne Hc. unfold CachedSimilarityFunction.call.
  destruct (decide (ann_id a = ann_id b)) as [|_]; [contradiction|].
  unfold bind, get_ctx, ret. rewrite Hc. reflexivity.
Qed.

(** C3. The cached distance is symmetric and reflexive: once
    [distance(a, b)] has returned a value, [distance(b, a)] (and
    [distance(a, b)] again) returns that same value without touching the
    cache, whatever the wrapped similarity is; and [distance(a, a)] is 1
    from every state. *)
Theorem cached_distance_symmetric_reflexive
    (sim_fn : Annotation -> Annotation -> M Q) (a b : Annotation) (st : Context) :
  (forall v st',
      CachedSimilarityFunction.call sim_fn a b st = Ok (v, st') ->
      CachedSimilarityFunction.call sim_fn b a st' = Ok (v, st') /\
      CachedSimilarityFunction.call sim_fn a b st' = Ok (v, st')) /\
  CachedSimilarityFunction.call sim_fn a a st = Ok (1%Q, st).
Proof.
  split.
  - intros v st' Hcall.
    destruct (decide (ann_id a = ann_id b)) as [Heq|Hne].
    + unfold CachedSimilarityFunction.call in *.
      rewrite decide_True in Hcall by exact Heq.
      rewrite decide_True by (symmetry; exact Heq).
      rewrite decide_True by exact Heq.
      unfold ret in *. injection Hcall as <- <-. auto.
    + pose proof (call_caches _ _ _ _ _ _ Hne Hcall) as Hc.
      split.
      * apply call_hit; [congruence|]. rewrite <- _sort_key_comm. exact Hc.
      * apply call_hit; assumption.
  - unfold CachedSimilarityFunction.call.
    rewrite decide_True by reflexivity. reflexivity.
Qed.

Lemma cached_distance_symmetric_reflexive_witness :
  exists v st',
    CachedSimilarityFunction.call (table_sim LooseTriple.iou)
      LooseTriple.a0 LooseTriple.b1 empty_context = Ok (v, st') /\
    CachedSimilarityFunction.call (table_sim LooseTriple.iou)
      LooseTriple.b1 LooseTriple.a0 st' = Ok (v, st') /\
    CachedSimilarityFunction.call (table_sim LooseTriple.iou)
      LooseTriple.a0 LooseTriple.a0 st' = Ok (1%Q, st').
Proof.
  eexists _, _. split; [vm_compute; reflexivity|].
  split.
  - apply (proj1 (cached_distance_symmetric_reflexive (table_sim LooseTriple.iou)
                    LooseTriple.a0 LooseTriple.b1 empty_context)).
    vm_compute; reflexivity.
  - apply (proj2 (cached_distance_symmetric_reflexive (table_sim LooseTriple.iou)
                    LooseTriple.a0 LooseTriple.a0 _)).
Defined.

(** ** The cluster builder *)

(** Python leaves open which element [set.pop()] returns. [all_pops]
    lists every answer [set_pop] can give, and [grow_all], [join_all] and
    [match_annotations_all] the outcomes of the cluster builder over all
    of them; whatever the policy, the outcome of the run is among them. *)
Definition all_pops (s : list Z) : list (Z * list Z) :=
  match s with
  | [] => []
  | c0 :: s0 => (c0, s0) :: map (fun c => (c, filter (fun x => x <> c) s)) s
  end.

Lemma set_pop_in pick s r : set_pop pick s = Some r -> In r (all_pops s).
Proof.
  unfold set_pop, all_pops. destruct s as [|c0 s0]; [discriminate|].
  destruct ((c0 :: s0) !! pick (c0 :: s0)) as [c|] eqn:Hc.
  - intros [= <-]. right. apply in_map_iff. exists c. split; [reflexivity|].
    apply list_elem_of_In. eapply list_elem_of_lookup_2. exact Hc.
  - intros [= <-]. left. reflexivity.
Qed.

Section all_runs.
Variable sim_fn : Annotation -> Annotation -> M Q.
Variable match_annotations_two_sources :
  list Annotation -> list Annotation -> M (list (Annotation * Annotation)).
Variables pairwise_dist cluster_dist : Q.
Variable id_segm : odict Z (Annotation * nat).
Variable cluster_dist' : Q.

Fixpoint grow_all (rounds : nat) (adjacent : odict Z (list Z))
    (cluster visited to_visit : list Z) (st : Context)
    : list (Result ((list Z * list Z) * Context)) :=
  match to_visit with
  | [] => [Ok ((cluster, visited), st)]
  | _ =>
      match rounds with
      | O => [Raise Unbounded]
      | S rounds' =>
          flat_map (fun p =>
              let cluster := set_add (fst p) cluster in
              let visited := set_add (fst p) visited in
              match (adj <- od_item adjacent (fst p) ;;
                     for_each adj (snd p)
                       (admit_candidate sim_fn id_segm cluster_dist' cluster visited)) st
              with
              | Ok (to_visit, st') =>
                  grow_all rounds' adjacent cluster visited to_visit st'
              | Raise e => [Raise e]
              end)
            (all_pops to_visit)
      end
  end.

Lemma grow_cluster_in_all pick rounds adjacent : forall cluster visited to_visit st,
  In (grow_cluster sim_fn pick id_segm cluster_dist' rounds adjacent
        cluster visited to_visit st)
     (grow_all rounds adjacent cluster visited to_visit st).
Proof.
  induction rounds as [|rounds IH]; intros cluster visited to_visit st.
  - simpl. destruct (set_pop pick to_visit) as [[c tv]|] eqn:Hp.
    + destruct to_visit; [discriminate|]. left. reflexivity.
    + destruct to_visit as [|c0 s0]; [left; reflexivity|].
      unfold set_pop in Hp. destruct ((c0 :: s0) !! _); discriminate.
  - simpl. destruct (set_pop pick to_visit) as [[c tv]|] eqn:Hp.
    + destruct to_visit as [|c0 s0]; [discriminate|].
      apply in_flat_map. exists (c, tv). split; [eapply set_pop_in; exact Hp|].
      simpl. unfold bind.
      destruct (od_item adjacent c st) as [[adj st1]|e]; [|left; reflexivity].
      destruct (for_each adj tv _ st1) as [[tv' st']|e]; [apply IH|left; reflexivity].
    + destruct to_visit as [|c0 s0]; [left; reflexivity|].
      unfold set_pop in Hp. destruct ((c0 :: s0) !! _); discriminate.
Qed.

Fixpoint join_all (adjacent : odict Z (list Z)) (keys : list Z)
    (clusters : list (list Annotation)) (visited : list Z) (st : Context)
    : list (Result (list (list Annotation) * Context)) :=
  match keys with
  | [] => [Ok (clusters, st)]
  | cluster_idx :: keys' =>
      if bool_decide (cluster_idx ∈ visited)
      then join_all adjacent keys' clusters visited st
      else
        flat_map (fun r =>
            match r with
            | Ok (cv, st1) =>
                match map_m (fun i => a <- od_item id_segm i ;; ret (fst a)) (fst cv) st1
                with
                | Ok (members, st2) =>
                    join_all adjacent keys' (clusters ++ [members]) (snd cv) st2
                | Raise e => [Raise e]
                end
            | Raise e => [Raise e]
            end)
          (grow_all (length id_segm) adjacent [] visited [cluster_idx] st)
  end.

Lemma join_clusters_in_all pick adjacent keys : forall clusters visited st,
  In (join_clusters sim_fn pick id_segm cluster_dist' adjacent keys clusters visited st)
     (join_all adjacent keys clusters visited st).
Proof.
  induction keys as [|k keys IH]; intros clusters visited st; simpl.
  - left. reflexivity.
  - destruct (bool_decide (k ∈ visited)); [apply IH|].
    apply in_flat_map.
    exists (grow_cluster sim_fn pick id_segm cluster_dist' (length id_segm)
              adjacent [] visited [k] st).
    split; [apply grow_cluster_in_all|].
    unfold bind at 1.
    destruct (grow_cluster _ _ _ _ _ _ _ _ _ st) as [[cv st1]|e];
      [|left; reflexivity].
    unfold bind at 1.
    destruct (map_m _ (fst cv) st1) as [[members st2]|e]; [|left; reflexivity].
    apply IH.
Qed.
End all_runs.

Definition match_annotations_all (sim_fn : Annotation -> Annotation -> M Q)
    (match_annotations_two_sources :
       list Annotation -> list Annotation -> M (list (Annotation * Annotation)))
    (pairwise_dist cluster_dist : Q) (sources : list (list Annotation)) (st : Context)
    : list (Result (list (list Annotation) * Context)) :=
  let cluster_dist' := if Qltb cluster_dist 0 then pairwise_dist else cluster_dist in
  let id_segm := build_id_segm 0 sources [] in
  let adjacent := map (fun e => (fst e, @nil Z)) id_segm in
  match match_pairwise match_annotations_two_sources sources adjacent st with
  | Ok (adjacent, st1) =>
      join_all sim_fn id_segm cluster_dist' adjacent (od_keys adjacent) [] [] st1
  | Raise e => [Raise e]
  end.

Lemma match_annotations_in_all sim_fn m2s pairwise_dist cluster_dist pick sources st :
  In (match_annotations sim_fn m2s pairwise_dist cluster_dist pick sources st)
     (match_annotations_all sim_fn m2s pairwise_dist cluster_dist sources st).
Proof.
  unfold match_annotations, match_annotations_all. unfold bind at 1.
  destruct (match_pairwise m2s sources _ st) as [[adjacent st1]|e];
    [|left; reflexivity].
  apply join_clusters_in_all.
Qed.

(** Boolean forms of the two violations, to evaluate them on all runs. *)
Definition shares_sourceb (sources : list (list Annotation)) (C : list Annotation) : bool :=
  existsb (fun m1 =>
    existsb (fun m2 =>
      negb (ann_id m1 =? ann_id m2) &&
      match source_of sources m1, source_of sources m2 with
      | Some s1, Some s2 => (s1 =? s2)%nat
      | _, _ => false
      end) C) C.

Lemma shares_sourceb_sound sources C :
  shares_sourceb sources C = true -> shares_source sources C.
Proof.
  unfold shares_sourceb, shares_source. intros H.
  apply existsb_exists in H as (m1 & H1 & H).
  apply existsb_exists in H as (m2 & H2 & H).
  apply andb_true_iff in H as [Hne Hs].
  destruct (source_of sources m1) as [s1|] eqn:E1; [|discriminate].
  destruct (source_of sources m2) as [s2|] eqn:E2; [|discriminate].
  apply Nat.eqb_eq in Hs. subst s2.
  exists m1, m2, s1. repeat split; try assumption.
  intros Heq. rewrite Heq, Z.eqb_refl in Hne. discriminate.
Qed.

Definition has_loose_pairb (sim_fn : Annotation -> Annotation -> M Q) (threshold : Q)
    (st : Context) (C : list Annotation) : bool :=
  existsb (fun m1 =>
    existsb (fun m2 =>
      match distance sim_fn m1 m2 st with
      | Ok (d, _) => Qltb d threshold
      | Raise _ => false
      end) C) C.

Lemma Qltb_lt (x y : Q) : Qltb x y = true -> (x < y)%Q.
Proof.
  unfold Qltb. intros H. apply negb_true_iff in H.
  apply Qnot_le_lt. intros Hle. apply Qle_bool_iff in Hle. congruence.
Qed.

Lemma has_loose_pairb_sound sim_fn threshold st C :
  has_loose_pairb sim_fn threshold st C = true -> has_loose_pair sim_fn threshold st C.
Proof.
  unfold has_loose_pairb, has_loose_pair. intros H.
  apply existsb_exists in H as (m1 & H1 & H).
  apply existsb_exists in H as (m2 & H2 & H).
  destruct (distance sim_fn m1 m2 st) as [[d st']|] eqn:Hd; [|discriminate].
  exists m1, m2, d, st'. repeat split; try assumption. apply Qltb_lt. exact H.
Qed.

(** Every outcome of [runs] is a list of clusters one of which passes [bad]. *)
Definition all_runs_have (bad : Context -> list Annotation -> bool)
    (runs : list (Result (list (list Annotation) * Context))) : bool :=
  forallb (fun r =>
             match r with
             | Ok (clusters, st') => existsb (bad st') clusters
             | Raise _ => false
             end) runs.

Lemma all_runs_have_sound bad runs r :
  all_runs_have bad runs = true -> In r runs ->
  exists clusters st', r = Ok (clusters, st') /\
    exists C, In C clusters /\ bad st' C = true.
Proof.
  unfold all_runs_have. intros H Hr. rewrite forallb_forall in H.
  specialize (H r Hr). destruct r as [[clusters st']|]; [|discriminate].
  apply existsb_exists in H as (C & HC & Hb). eauto 8.
Qed.

(** C1 fails on the code. The guard [_has_same_source] compares a
    candidate with the members already in [cluster], not with the
    candidates waiting in [to_visit]. (i) When a polygon of source 0 is
    matched with two grouped polygons of source 1, both enter the cluster,
    whatever [to_visit.pop()] picks. (ii) With one-to-one matchings of
    boxes over three sources, the cluster of [a0] takes both boxes of
    source 2 when [pop] returns [b1] before [c2]. *)
Theorem match_annotations_joins_same_source :
  (forall pick, exists clusters st',
      GroupedPolygons.clusters pick = Ok (clusters, st') /\
      exists C, In C clusters /\ shares_source GroupedPolygons.sources C) /\
  (exists st',
      BoxesInThreeSources.clusters =
        Ok ([[BoxesInThreeSources.a0; BoxesInThreeSources.b1;
              BoxesInThreeSources.c2; BoxesInThreeSources.c2']], st') /\
      shares_source BoxesInThreeSources.sources
        [BoxesInThreeSources.a0; BoxesInThreeSources.b1;
         BoxesInThreeSources.c2; BoxesInThreeSources.c2']).
Proof.
  split.
  - intros pick.
    destruct (all_runs_have_sound
                (fun _ => shares_sourceb GroupedPolygons.sources)
                (match_annotations_all (table_sim GroupedPolygons.iou)
                   (table_matcher GroupedPolygons.matched) (1 # 2) (-1 # 1)
                   GroupedPolygons.sources empty_context)
                (GroupedPolygons.clusters pick))
      as (clusters & st' & Hr & C & HC & Hb).
    + vm_compute. reflexivity.
    + apply match_annotations_in_all.
    + exists clusters, st'. split; [exact Hr|].
      exists C. split; [exact HC|]. apply shares_sourceb_sound. exact Hb.
  - eexists. split; [vm_compute; reflexivity|].
    apply shares_sourceb_sound. vm_compute. reflexivity.
Qed.

(** C2 fails on the code. The guard [_is_close_enough] compares a
    candidate with the members already in [cluster] only. With
    [cluster_dist = 1/2], a box [a0] that overlaps [b1] and [c2] by 3/5
    pulls both into its cluster although [b1] and [c2] overlap by 3/10,
    whatever [to_visit.pop()] picks. *)
Theorem match_annotations_keeps_loose_pair :
  (0 < LooseTriple.cluster_dist)%Q /\
  forall pick, exists clusters st',
    LooseTriple.clusters pick = Ok (clusters, st') /\
    exists C, In C clusters /\
      has_loose_pair (table_sim LooseTriple.iou) LooseTriple.cluster_dist st' C.
Proof.
  split; [reflexivity|].
  intros pick.
  destruct (all_runs_have_sound
              (has_loose_pairb (table_sim LooseTriple.iou) LooseTriple.cluster_dist)
              (match_annotations_all (table_sim LooseTriple.iou)
                 (table_matcher LooseTriple.matched) (1 # 2) LooseTriple.cluster_dist
                 LooseTriple.sources empty_context)
              (LooseTriple.clusters pick))
    as (clusters & st' & Hr & C & HC & Hb).
  - vm_compute. reflexivity.
  - apply match_annotations_in_all.
  - exists clusters, st'. split; [exact Hr|].
    exists C. split; [exact HC|]. apply has_loose_pairb_sound. exact Hb.
Qed.

(** ** The confidence floor of [merge_items] *)

Section merge_items_facts.
Variable merge_annotations : list (list Annotation) -> M (list Annotation).
Variable output_conf_thresh : Q.

Lemma score_attr_ok dflt a st q st' :
  score_attr dflt a st = Ok (q, st') -> st' = st /\ score_value dflt a = Some q.
Proof.
  unfold score_attr. destruct (score_value dflt a); [|discriminate].
  unfold ret. intros [= <- <-]. auto.
Qed.

(** The annotations that pass the floor, as a pure filter. *)
Definition passes_floor (a : Annotation) : bool :=
  match score_value 1 a with
  | Some q => Qle_bool output_conf_thresh q
  | None => false
  end.

Lemma above_floor_ok anns : forall st kept st',
  above_floor output_conf_thresh anns st = Ok (kept, st') ->
  st' = st /\ kept = List.filter passes_floor anns /\
  Forall (fun a => is_Some (score_value 1 a)) anns.
Proof.
  induction anns as [|a anns IH]; simpl; intros st kept st'.
  - unfold ret. intros [= <- <-]. auto.
  - unfold bind.
    destruct (score_attr 1 a st) as [[q st1]|] eqn:Hs; [|discriminate].
    apply score_attr_ok in Hs as [-> Hq].
    destruct (above_floor output_conf_thresh anns st) as [[rest st2]|] eqn:Hr;
      [|discriminate].
    apply IH in Hr as (-> & -> & Hall).
    unfold ret. intros [= <- <-].
    split; [reflexivity|]. split.
    + simpl. replace (passes_floor a) with (Qle_bool output_conf_thresh q)
        by (unfold passes_floor; rewrite Hq; reflexivity).
      reflexivity.
    + constructor; [rewrite Hq; eauto | exact Hall].
Qed.

Lemma merge_items_ok items st item st' :
  merge_items merge_annotations output_conf_thresh items st = Ok (item, st') ->
  exists sources st1 anns,
    merge_annotations sources st1 = Ok (anns, st') /\
    sources = map (fun e => annotations (snd e)) items /\
    Forall (fun a => is_Some (score_value 1 a)) anns /\
    merged_annotations item = map tag_consensus (List.filter passes_floor anns).
Proof.
  unfold merge_items. destruct items as [|[k first] items]; [discriminate|].
  unfold bind at 1.
  destruct (for_each _ _ _ st) as [[sources st1]|] eqn:Hsrc; [|discriminate].
  unfold bind at 1.
  destruct (merge_annotations sources st1) as [[anns st2]|] eqn:Hma; [|discriminate].
  unfold bind at 1.
  destruct (above_floor output_conf_thresh anns st2) as [[kept st3]|] eqn:Hfl;
    [|discriminate].
  apply above_floor_ok in Hfl as (-> & -> & Hall).
  unfold ret. intros [= <- <-].
  exists sources, st1, anns. repeat split; try assumption.
  clear Hma. revert Hsrc. generalize ((k, first) :: items) as l.
  assert (Hgen : forall (l : list (Z * DatasetItem)) acc st0,
             for_each l acc
               (fun sources e =>
                  st <- get_ctx ;;
                  put_ctx (with_ann_map (fun m =>
                     fold_left (fun m a => <[ann_id a := item_pyid (snd e)]> m)
                               (annotations (snd e)) m) st) ;;;
                  ret (sources ++ [annotations (snd e)])) st0 = Ok (sources, st1) ->
             sources = acc ++ map (fun e => annotations (snd e)) l).
  { induction l as [|e l IH]; simpl; intros acc st0.
    - unfold ret. intros [= <- <-]. rewrite app_nil_r. reflexivity.
    - unfold bind at 1. simpl. intros H. apply IH in H. rewrite H.
      rewrite <- app_assoc. reflexivity. }
  intros l H. apply Hgen in H. exact H.
Qed.
End merge_items_facts.

Lemma score_value_tag dflt a : score_value dflt (tag_consensus a) = score_value dflt a.
Proof.
  unfold score_value, tag_consensus; simpl.
  rewrite lookup_insert_ne by discriminate. reflexivity.
Qed.

Lemma tag_consensus_source a :
  attributes (tag_consensus a) !! "source" = Some (VStr "consensus").
Proof. unfold tag_consensus; simpl. apply lookup_insert_eq. Qed.

(** C7. Of the annotations the merge of an item produces, [merge_items]
    returns exactly those whose score (1 when the annotation has none) is
    at least [output_conf_thresh]: an annotation below the floor is not in
    the returned item, an annotation at or above it is, and every returned
    annotation carries the attribute [source = "consensus"]. *)
Theorem merge_items_applies_floor
    (merge_annotations : list (list Annotation) -> M (list Annotation))
    (output_conf_thresh : Q) (items : odict Z DatasetItem)
    (st : Context) (item : MergedItem) (st' : Context) :
  merge_items merge_annotations output_conf_thresh items st = Ok (item, st') ->
  exists sources st1 anns,
    merge_annotations sources st1 = Ok (anns, st') /\
    (forall a q, In a anns -> score_value 1 a = Some q ->
                 (q < output_conf_thresh)%Q ->
                 ~ In (tag_consensus a) (merged_annotations item)) /\
    (forall a q, In a anns -> score_value 1 a = Some q ->
                 (output_conf_thresh <= q)%Q ->
                 In (tag_consensus a) (merged_annotations item)) /\
    (forall r, In r (merged_annotations item) ->
               attributes r !! "source" = Some (VStr "consensus") /\
               exists a q, In a anns /\ r = tag_consensus a /\
                           score_value 1 a = Some q /\ (output_conf_thresh <= q)%Q).
Proof.
  intros H. apply merge_items_ok in H as (sources & st1 & anns & Hma & _ & Hnum & Hres).
  exists sources, st1, anns. split; [exact Hma|].
  assert (Hkept : forall r, In r (merged_annotations item) ->
            exists a q, In a anns /\ r = tag_consensus a /\
                        score_value 1 a = Some q /\ (output_conf_thresh <= q)%Q).
  { intros r Hr. rewrite Hres in Hr. apply in_map_iff in Hr as (a & <- & Ha).
    apply filter_In in Ha as [Ha Hp]. unfold passes_floor in Hp.
    destruct (score_value 1 a) as [q|] eqn:Hq; [|discriminate].
    exists a, q. repeat split; try assumption. apply Qle_bool_iff. exact Hp. }
  split; [|split].
  - intros a q Ha Hq Hlt Hin. apply Hkept in Hin as (a' & q' & _ & Heq & Hq' & Hle).
    assert (Hs : score_value 1 a = score_value 1 a')
      by (rewrite <- (score_value_tag 1 a), Heq; apply score_value_tag).
    rewrite Hq, Hq' in Hs. injection Hs as ->.
    apply (Qlt_not_le _ _ Hlt). exact Hle.
  - intros a q Ha Hq Hle. rewrite Hres. apply in_map. apply filter_In.
    split; [exact Ha|]. unfold passes_floor. rewrite Hq. apply Qle_bool_iff. exact Hle.
  - intros r Hr. destruct (Hkept r Hr) as (a & q & Ha & -> & Hq & Hle).
    split; [apply tag_consensus_source|]. eauto 8.
Qed.

Lemma merge_items_applies_floor_witness :
  exists item st',
    merge_items FloorExample.merge_annotations FloorExample.floor FloorExample.items
                empty_context = Ok (item, st') /\
    merged_annotations item = [tag_consensus FloorExample.sure] /\
    exists sources st1 anns,
      FloorExample.merge_annotations sources st1 = Ok (anns, st') /\
      (forall a q, In a anns -> score_value 1 a = Some q ->
                   (q < FloorExample.floor)%Q ->
                   ~ In (tag_consensus a) (merged_annotations item)) /\
      (forall a q, In a anns -> score_value 1 a = Some q ->
                   (FloorExample.floor <= q)%Q ->
                   In (tag_consensus a) (merged_annotations item)) /\
      (forall r, In r (merged_annotations item) ->
                 attributes r !! "source" = Some (VStr "consensus") /\
                 exists a q, In a anns /\ r = tag_consensus a /\
                             score_value 1 a = Some q /\ (FloorExample.floor <= q)%Q).
Proof.
  eexists _, _. split; [reflexivity|]. split; [reflexivity|].
  apply (merge_items_applies_floor FloorExample.merge_annotations FloorExample.floor
           FloorExample.items empty_context).
  reflexivity.
Defined.

(** ** The representative of a skeleton cluster *)

(** What the cached distance answers in state [st] without computing
    anything: 1 on one and the same annotation, the cached value of the
    sorted pair otherwise. *)
Definition cached_similarity (st : Context) (a b : Annotation) : option Q :=
  if decide (ann_id a = ann_id b) then Some 1%Q
  else cache st !! CachedSimilarityFunction._sort_key (ann_id a, ann_id b).

Definition sim_at (st : Context) (a b : Annotation) : Q :=
  default 0%Q (cached_similarity st a b).

Definition all_known (st : Context) (cluster : list Annotation) : Prop :=
  forall a b, In a cluster -> In b cluster -> is_Some (cached_similarity st a b).

(** The average distance from the member at position [i] to the other
    members of the cluster. *)
Definition others_sum (d : Annotation -> Annotation -> Q)
    (cluster : list Annotation) (i : nat) : Q :=
  match cluster !! i with
  | Some a => Qsum (map (d a) (delete i cluster))
  | None => 0%Q
  end.

Definition avg_others (d : Annotation -> Annotation -> Q)
    (cluster : list Annotation) (i : nat) : Q :=
  (others_sum d cluster i / inject_Z (Z.of_nat (length cluster - 1)))%Q.

Definition is_skeleton (a : Annotation) : Prop := ann_type a = AnnotationType.skeleton.

Lemma skeleton_distance_cached kd depth a b st :
  is_skeleton a -> is_skeleton b ->
  skeleton_distance kd (S depth) a b st =
    match cached_similarity st a b with
    | Some v => Ok (v, st)
    | None => Raise RecursionError
    end.
Proof.
  unfold is_skeleton. intros Ha Hb. induction depth as [|depth IH].
  - simpl. unfold CachedSimilarityFunction.call, cached_similarity.
    destruct (decide (ann_id a = ann_id b)); [reflexivity|].
    unfold bind, get_ctx, ret. simpl.
    destruct (cache st !! _); [reflexivity|].
    rewrite !bool_decide_eq_true_2 by assumption. reflexivity.
  - change (skeleton_distance kd (S (S depth)) a b st) with
      (CachedSimilarityFunction.call
         (fun a b =>
            if bool_decide (ann_type a = AnnotationType.skeleton)
               && bool_decide (ann_type b = AnnotationType.skeleton)
            then skeleton_distance kd (S depth) a b
            else kd a b) a b st).
    unfold CachedSimilarityFunction.call at 1.
    unfold cached_similarity.
    destruct (decide (ann_id a = ann_id b)) as [|Hne]; [reflexivity|].
    unfold bind, get_ctx, ret. cbv beta iota.
    destruct (cache st !! _) eqn:Hc; [reflexivity|].
    rewrite !bool_decide_eq_true_2 by assumption.
    change (true && true) with true. cbv iota.
    rewrite IH. unfold cached_similarity.
    rewrite decide_False by exact Hne. rewrite Hc. reflexivity.
Qed.

Lemma fold_left_Qplus_acc (l : list Q) (acc : Q) :
  (fold_left Qplus l acc == acc + Qsum l)%Q.
Proof.
  unfold Qsum. revert acc. induction l as [|x l IH]; intros acc; simpl.
  - ring.
  - rewrite IH. rewrite (IH (0 + x)%Q). ring.
Qed.

Lemma Qsum_cons (x : Q) (l : list Q) : (Qsum (x :: l) == x + Qsum l)%Q.
Proof. unfold Qsum at 1. simpl. rewrite fold_left_Qplus_acc. ring. Qed.

Lemma Qsum_map_delete {A} (f : A -> Q) (l : list A) (i : nat) (x : A) :
  l !! i = Some x ->
  (Qsum (map f l) == f x + Qsum (map f (delete i l)))%Q.
Proof.
  revert i. induction l as [|y l IH]; intros i Hi; [discriminate|].
  destruct i as [|i]; simpl in *.
  - injection Hi as ->. apply Qsum_cons.
  - rewrite !Qsum_cons. rewrite (IH i Hi). ring.
Qed.

Lemma min_by_spec {A} (key : A -> Q) (xs : list A) : forall best,
  In (min_by key best xs) (best :: xs) /\
  forall x, In x (best :: xs) -> (key (min_by key best xs) <= key x)%Q.
Proof.
  induction xs as [|y xs IH]; intros best; simpl.
  - split; [auto|]. intros x [<-|[]]. apply Qle_refl.
  - destruct (IH (if Qltb (key y) (key best) then y else best)) as [Hin Hle].
    split.
    + destruct Hin as [Heq|Hin]; [|auto].
      rewrite <- Heq. destruct (Qltb (key y) (key best)); auto.
    + intros x Hx.
      assert (Hstep : (key (if Qltb (key y) (key best) then y else best) <= key best)%Q /\
                      (key (if Qltb (key y) (key best) then y else best) <= key y)%Q).
      { unfold Qltb. destruct (Qle_bool (key best) (key y)) eqn:Hb; simpl.
        - apply Qle_bool_iff in Hb. split; [apply Qle_refl|exact Hb].
        - split; [|apply Qle_refl].
          destruct (Qlt_le_dec (key y) (key best)) as [Hlt|Hge].
          + apply Qlt_le_weak. exact Hlt.
          + apply Qle_bool_iff in Hge. congruence. }
      destruct Hstep as [Hb Hy].
      destruct Hx as [<-|[<-|Hx]].
      * eapply Qle_trans; [apply Hle; left; reflexivity|exact Hb].
      * eapply Qle_trans; [apply Hle; left; reflexivity|exact Hy].
      * apply Hle. right. exact Hx.
Qed.

Lemma in_enumerate {A} (l : list A) (j : nat) (v : A) :
  In (j, v) (enumerate l) <-> l !! j = Some v.
Proof.
  unfold enumerate.
  assert (H : forall s, In (j, v) (combine (seq s (length l)) l) <->
                        (s <= j)%nat /\ l !! (j - s)%nat = Some v).
  { induction l as [|x l IH]; intros s; simpl.
    - split; [tauto|]. intros [_ H]. discriminate.
    - rewrite IH. split.
      + intros [[= <- <-]|[Hs Hl]].
        * split; [lia|]. rewrite Nat.sub_diag. reflexivity.
        * split; [lia|]. replace (j - s)%nat with (S (j - S s)) by lia. exact Hl.
      + intros [Hs Hl]. destruct (decide (j = s)) as [->|Hne].
        * rewrite Nat.sub_diag in Hl. simpl in Hl. injection Hl as ->. auto.
        * right. split; [lia|].
          replace (j - s)%nat with (S (j - S s)) in Hl by lia. exact Hl. }
  rewrite H. rewrite Nat.sub_0_r. split; [tauto|]. intros; split; [lia|assumption].
Qed.

Section nearest_skeleton.
Variable D : Annotation -> Annotation -> M Q.
Variable st : Context.
Variable cluster : list Annotation.
Hypothesis D_cached : forall a b, In a cluster -> In b cluster ->
  D a b st = match cached_similarity st a b with
             | Some v => Ok (v, st)
             | None => Raise RecursionError
             end.

(** A loop that adds up something of the distances from [a]. *)
Variable h : Q -> Q -> Q.

Let row_body (a : Annotation) := fun (acc : Q) (b : Annotation) =>
  d <- D a b ;; ret (h acc d).

Lemma row_known a l acc :
  In a cluster -> incl l cluster ->
  Forall (fun b => is_Some (cached_similarity st a b)) l ->
  for_each l acc (row_body a) st =
    Ok (fold_left (fun acc b => h acc (sim_at st a b)) l acc, st).
Proof.
  intros Ha. revert acc. induction l as [|b l IH]; intros acc Hl Hk; simpl.
  - reflexivity.
  - inversion Hk as [|? ? [v Hv] Hk']; subst.
    unfold bind at 1, row_body at 1. unfold bind at 1.
    rewrite (D_cached a b Ha (Hl b (or_introl eq_refl))), Hv. unfold ret.
    rewrite IH; [|intros x Hx; apply Hl; right; exact Hx|exact Hk'].
    replace (sim_at st a b) with v by (unfold sim_at; rewrite Hv; reflexivity).
    reflexivity.
Qed.

Lemma row_returns a l acc r st' :
  In a cluster -> incl l cluster ->
  for_each l acc (row_body a) st = Ok (r, st') ->
  Forall (fun b => is_Some (cached_similarity st a b)) l.
Proof.
  intros Ha. revert acc. induction l as [|b l IH]; intros acc Hl; simpl.
  - constructor.
  - unfold bind at 1, row_body at 1. unfold bind at 1.
    rewrite (D_cached a b Ha (Hl b (or_introl eq_refl))).
    destruct (cached_similarity st a b) as [v|] eqn:Hv; [|discriminate].
    unfold ret. intros H. constructor; [eauto|].
    eapply IH; [|exact H]. intros x Hx; apply Hl; right; exact Hx.
Qed.

(** What the loop over the members followed by the division by the size
    of the cluster computes for the member [a]. *)
Definition dist_of (a : Annotation) : Q :=
  (fold_left (fun acc b => h acc (sim_at st a b)) cluster 0%Q
   / inject_Z (Z.of_nat (length cluster)))%Q.

Let dist_body := fun skeleton1 =>
  skeleton_distance <- for_each cluster 0%Q (row_body skeleton1) ;;
  py_div skeleton_distance (Z.of_nat (length cluster)).

Lemma dist_known a :
  In a cluster -> all_known st cluster -> dist_body a st = Ok (dist_of a, st).
Proof.
  intros Ha Hk. unfold dist_body, bind.
  rewrite (row_known a cluster 0%Q Ha (incl_refl _))
    by (apply List.Forall_forall; intros b Hb; apply Hk; assumption).
  unfold py_div. destruct (decide (Z.of_nat (length cluster) = 0)) as [Hz|_].
  { destruct cluster; [destruct Ha|discriminate]. }
  reflexivity.
Qed.

Lemma dist_returns a r st' :
  In a cluster -> dist_body a st = Ok (r, st') ->
  st' = st /\ forall b, In b cluster -> is_Some (cached_similarity st a b).
Proof.
  intros Ha. unfold dist_body, bind.
  destruct (for_each cluster 0%Q (row_body a) st) as [[x st1]|] eqn:Hrow;
    [|discriminate].
  pose proof (row_returns a cluster 0%Q x st1 Ha (incl_refl _) Hrow) as Hk.
  rewrite (row_known a cluster 0%Q Ha (incl_refl _) Hk) in Hrow.
  injection Hrow as <- <-.
  unfold py_div. destruct (decide _); [discriminate|].
  unfold ret. intros [= <- <-]. split; [reflexivity|].
  rewrite List.Forall_forall in Hk. exact Hk.
Qed.

Lemma dists_known l :
  incl l cluster -> all_known st cluster ->
  map_m dist_body l st = Ok (map dist_of l, st).
Proof.
  intros Hl Hk. induction l as [|a l IH]; simpl; [reflexivity|].
  unfold bind at 1.
  rewrite dist_known by (try apply Hl; try left; auto).
  unfold bind at 1.
  rewrite IH by (intros x Hx; apply Hl; right; exact Hx).
  reflexivity.
Qed.

Lemma dists_return l ds st' :
  incl l cluster ->
  map_m dist_body l st = Ok (ds, st') ->
  forall a b, In a l -> In b cluster -> is_Some (cached_similarity st a b).
Proof.
  revert ds st'. induction l as [|a l IH]; intros ds st' Hl; simpl.
  - intros _ ? ? [].
  - assert (Ha : In a cluster) by (apply Hl; left; reflexivity).
    unfold bind at 1.
    destruct (dist_body a st) as [[r st1]|] eqn:Hd; [|discriminate].
    apply dist_returns in Hd as [-> Hk]; [|exact Ha].
    unfold bind at 1.
    destruct (map_m dist_body l st) as [[ds' st2]|] eqn:Hrest; [|discriminate].
    intros _ x b [<-|Hx] Hb.
    + apply Hk. exact Hb.
    + eapply (IH ds' st2); [intros y Hy; apply Hl; right; exact Hy|reflexivity| |];
        assumption.
Qed.
End nearest_skeleton.

Lemma fold_plus_map {A} (f : A -> Q) (l : list A) (acc : Q) :
  fold_left (fun acc b => acc + f b)%Q l acc = fold_left Qplus (map f l) acc.
Proof. revert acc. induction l as [|x l IH]; intros acc; simpl; [reflexivity|apply IH]. Qed.

Lemma sim_at_refl st a : sim_at st a a = 1%Q.
Proof. unfold sim_at, cached_similarity. rewrite decide_True by reflexivity. reflexivity. Qed.

Lemma dist_of_others st cluster i a :
  cluster !! i = Some a ->
  (dist_of st cluster Qplus a ==
   (1 + others_sum (sim_at st) cluster i) / inject_Z (Z.of_nat (length cluster)))%Q.
Proof.
  intros Hi. unfold dist_of, others_sum. rewrite Hi.
  rewrite fold_plus_map. change (fold_left Qplus ?l 0%Q) with (Qsum l).
  rewrite (Qsum_map_delete (sim_at st a) cluster i a Hi), sim_at_refl.
  reflexivity.
Qed.

Lemma inject_nat_nonneg (k : nat) : (0 <= inject_Z (Z.of_nat k))%Q.
Proof. unfold Qle; simpl. lia. Qed.

Lemma avg_others_le (n : nat) (x y : Q) :
  (0 < n)%nat ->
  ((1 + x) / inject_Z (Z.of_nat n) <= (1 + y) / inject_Z (Z.of_nat n))%Q ->
  (x / inject_Z (Z.of_nat (n - 1)) <= y / inject_Z (Z.of_nat (n - 1)))%Q.
Proof.
  intros Hn H.
  assert (Hpos : (0 < / inject_Z (Z.of_nat n))%Q).
  { apply Qinv_lt_0_compat. unfold Qlt; simpl. lia. }
  unfold Qdiv in H. apply (proj1 (Qmult_le_r _ _ _ Hpos)) in H.
  assert (Hxy : (x <= y)%Q).
  { apply (Qplus_le_r x y 1). exact H. }
  unfold Qdiv. apply Qmult_le_compat_r; [exact Hxy|].
  apply Qinv_le_0_compat. apply inject_nat_nonneg.
Qed.


Lemma skeleton_triple_known : all_known SkeletonTriple.st SkeletonTriple.cluster.
Proof.
  intros a b Ha Hb. simpl in Ha, Hb.
  destruct Ha as [<-|[<-|[<-|[]]]]; destruct Hb as [<-|[<-|[<-|[]]]];
    vm_compute; eauto.
Defined.

Lemma skeleton_triple_skeletons : Forall is_skeleton SkeletonTriple.cluster.
Proof. repeat constructor. Defined.

Lemma skeleton_pair_known : all_known SkeletonPair.st SkeletonPair.cluster.
Proof.
  intros a b Ha Hb. simpl in Ha, Hb.
  destruct Ha as [<-|[<-|[]]]; destruct Hb as [<-|[<-|[]]];
    vm_compute; eauto.
Defined.


(** ** The label vote of a shaped cluster *)

Lemma od_get_set {K V} `{EqDecision K} (d : odict K V) (k k' : K) (v : V) :
  od_get (od_set d k v) k' = if decide (k = k') then Some v else od_get d k'.
Proof.
  induction d as [|[k0 v0] d IH]; simpl.
  - destruct (decide (k = k')); reflexivity.
  - destruct (decide (k0 = k)) as [->|Hne]; simpl.
    + destruct (decide (k = k')); reflexivity.
    + destruct (decide (k0 = k')) as [->|Hne'].
      * rewrite decide_False by congruence. reflexivity.
      * exact IH.
Qed.

Lemma od_keys_set {K V} `{EqDecision K} (d : odict K V) (k : K) (v : V) :
  od_keys (od_set d k v) =
    if bool_decide (k ∈ od_keys d) then od_keys d else od_keys d ++ [k].
Proof.
  unfold od_keys. induction d as [|[k0 v0] d IH]; simpl.
  - reflexivity.
  - destruct (decide (k0 = k)) as [->|Hne]; simpl.
    + rewrite bool_decide_eq_true_2 by (left). reflexivity.
    + rewrite IH. destruct (bool_decide (k ∈ map fst d)) eqn:Hb.
      * rewrite bool_decide_eq_true_2; [reflexivity|].
        right. apply bool_decide_eq_true_1 in Hb. exact Hb.
      * rewrite bool_decide_eq_false_2; [reflexivity|].
        apply bool_decide_eq_false_1 in Hb. intros Hin.
        apply elem_of_cons in Hin as [->|Hin]; [congruence|contradiction].
Qed.

Lemma od_keys_set_NoDup {K V} `{EqDecision K} (d : odict K V) (k : K) (v : V) :
  NoDup (od_keys d) -> NoDup (od_keys (od_set d k v)).
Proof.
  intros Hd. rewrite od_keys_set. destruct (bool_decide (k ∈ od_keys d)) eqn:Hb.
  - exact Hd.
  - apply bool_decide_eq_false_1 in Hb. apply NoDup_app. split; [exact Hd|].
    split; [|apply NoDup_singleton].
    intros x Hx Hx'. apply list_elem_of_singleton in Hx'. subst. contradiction.
Qed.

Lemma max_by_split {A} (key : A -> Q) (xs : list A) : forall best pre mid,
  (forall x, In x pre -> (key x < key best)%Q) ->
  (forall x, In x mid -> (key x <= key best)%Q) ->
  exists before after,
    pre ++ best :: mid ++ xs = before ++ max_by key best xs :: after /\
    (forall x, In x before -> (key x < key (max_by key best xs))%Q) /\
    (forall x, In x after -> (key x <= key (max_by key best xs))%Q).
Proof.
  induction xs as [|y xs IH]; intros best pre mid Hpre Hmid; simpl.
  - exists pre, mid. rewrite app_nil_r. auto.
  - destruct (Qltb (key best) (key y)) eqn:Hb.
    + apply Qltb_lt in Hb.
      destruct (IH y (pre ++ best :: mid) []) as (before & after & Heq & H1 & H2).
      * intros x Hx. apply in_app_or in Hx as [Hx|[<-|Hx]].
        -- eapply Qlt_trans; [apply Hpre; exact Hx|exact Hb].
        -- exact Hb.
        -- eapply Qle_lt_trans; [apply Hmid; exact Hx|exact Hb].
      * intros x [].
      * exists before, after. split; [|auto].
        rewrite <- Heq. simpl. rewrite <- app_assoc. reflexivity.
    + assert (Hy : (key y <= key best)%Q).
      { unfold Qltb in Hb. apply negb_false_iff in Hb. apply Qle_bool_iff. exact Hb. }
      destruct (IH best pre (mid ++ [y])) as (before & after & Heq & H1 & H2).
      * exact Hpre.
      * intros x Hx. apply in_app_or in Hx as [Hx|[<-|[]]]; auto.
      * exists before, after. split; [|auto].
        rewrite <- Heq. rewrite <- app_assoc. reflexivity.
Qed.

Section shape_vote.
Variable get_src_label_name : Annotation -> option nat -> option string.

(** The members of a cluster that vote for the label [l], and the
    confidence each member brings. *)
Definition voters (l : option string) (cluster : list Annotation) : list Annotation :=
  List.filter (fun s => bool_decide (get_src_label_name s (ann_label s) = l)) cluster.

Definition confidence (s : Annotation) : Q := default 0%Q (score_value 1 s).

Definition vote_of (votes : ShapeVotes) (l : option string) : Q * Z :=
  default (0%Q, 0%Z) (od_get votes l).

Lemma tally_shape_ok votes s st v st' :
  tally_shape get_src_label_name votes s st = Ok (v, st') ->
  st' = st /\
  v = od_set votes (get_src_label_name s (ann_label s))
        ((fst (vote_of votes (get_src_label_name s (ann_label s))) + confidence s)%Q,
         snd (vote_of votes (get_src_label_name s (ann_label s))) + 1).
Proof.
  unfold tally_shape, bind, score_attr, confidence, vote_of.
  destruct (score_value 1 s) as [q|]; [|discriminate].
  unfold ret. intros [= <- <-]. auto.
Qed.

Lemma shape_votes_spec cluster : forall votes0 st votes st',
  for_each cluster votes0 (tally_shape get_src_label_name) st = Ok (votes, st') ->
  st' = st /\
  (NoDup (od_keys votes0) -> NoDup (od_keys votes)) /\
  forall l,
    (fst (vote_of votes l) ==
       fst (vote_of votes0 l) + Qsum (map confidence (voters l cluster)))%Q /\
    snd (vote_of votes l) =
      snd (vote_of votes0 l) + Z.of_nat (length (voters l cluster)) /\
    (is_Some (od_get votes l) <->
       is_Some (od_get votes0 l) \/ voters l cluster <> []).
Proof.
  induction cluster as [|s cluster IH]; intros votes0 st votes st'; simpl.
  - unfold ret. intros [= <- <-]. split; [reflexivity|]. split; [auto|].
    intros l. unfold Qsum; simpl. split; [ring|]. split; [lia|].
    split; [auto|]. intros [H|H]; [exact H|congruence].
  - unfold bind at 1.
    destruct (tally_shape get_src_label_name votes0 s st) as [[v1 st1]|] eqn:Ht;
      [|discriminate].
    apply tally_shape_ok in Ht as [-> ->].
    intros H. apply IH in H as (-> & Hnd & Hl).
    split; [reflexivity|]. split.
    { intros H0. apply Hnd. apply od_keys_set_NoDup. exact H0. }
    intros l. destruct (Hl l) as (Hs & Hc & Hk). clear Hl.
    unfold voters; simpl. fold (voters l cluster).
    unfold vote_of in Hs, Hc at 2. rewrite od_get_set in Hs, Hc, Hk.
    destruct (decide (get_src_label_name s (ann_label s) = l)) as [Heq|Hne].
    + rewrite bool_decide_eq_true_2 by exact Heq. simpl in *.
      rewrite Heq in Hs, Hc. fold (vote_of votes0 l) in Hs, Hc.
      split; [rewrite Hs, Qsum_cons; ring|]. split; [lia|].
      rewrite Hk. split; [intros _; right; discriminate|intros _; left; eauto].
    + rewrite bool_decide_eq_false_2 by exact Hne.
      fold (vote_of votes0 l) in Hs, Hc.
      split; [exact Hs|]. split; [exact Hc|]. exact Hk.
Qed.
End shape_vote.

Lemma od_get_In {K V} `{EqDecision K} (d : odict K V) (k : K) (v : V) :
  NoDup (od_keys d) -> In (k, v) d -> od_get d k = Some v.
Proof.
  unfold od_keys. induction d as [|[k0 v0] d IH]; simpl; [intros _ []|].
  intros Hnd [Heq|Hin].
  - injection Heq as -> ->. rewrite decide_True by reflexivity. reflexivity.
  - apply NoDup_cons in Hnd as [Hk0 Hnd].
    destruct (decide (k0 = k)) as [->|_]; [|auto].
    exfalso. apply Hk0. apply list_elem_of_In.
    apply in_map_iff. exists (k, v). auto.
Qed.



(** ** The label vote of a label-only cluster *)

Section label_vote.
Variable get_src_label_name : Annotation -> option nat -> option string.
Variable get_label_id : option string -> option nat.
Variable quorum : Z.

Lemma non_voting_sources_raises l cluster st :
  cluster <> [] ->
  non_voting_sources get_src_label_name l cluster st = Raise TypeError.
Proof.
  destruct cluster as [|a cluster]; [congruence|]. intros _. reflexivity.
Qed.

Lemma label_votes_loop_raises cluster st (vs : LabelVotes) : forall merged,
  cluster <> [] ->
  (0 < size (_dataset_map st))%nat ->
  (exists l c, In (l, c) vs /\ c < quorum) ->
  for_each vs merged (fun merged lc =>
    if snd lc <? quorum then
      sources <- non_voting_sources get_src_label_name (fst lc) cluster ;;
      sources <- map_m get_dataset_source_id (elements sources) ;;
      add_item_error (fun item =>
        FailedLabelVotingError item (VotesLabel (label_votes get_src_label_name cluster))
                               (list_to_set sources)) ;;;
      ret merged
    else
      n <- dataset_count ;;
      score <- py_div (inject_Z (snd lc)) n ;;
      ret (merged ++ [Label (get_label_id (fst lc)) {["score" := VNum score]}])) st
  = Raise TypeError.
Proof.
  intros merged Hne Hn. revert merged.
  induction vs as [|[l0 c0] vs IH]; intros merged (l & c & Hin & Hlt).
  - destruct Hin.
  - cbn [for_each fst snd]. unfold bind at 1.
    destruct (c0 <? quorum) eqn:Hc0.
    + unfold bind at 1. rewrite non_voting_sources_raises by exact Hne. reflexivity.
    + unfold dataset_count, py_div, bind, get_ctx, ret.
      destruct (decide (Z.of_nat (size (_dataset_map st)) = 0)); [lia|].
      apply IH. destruct Hin as [Heq|Hin].
      * injection Heq as -> ->. apply Z.ltb_ge in Hc0. lia.
      * eauto.
Qed.
End label_vote.

(** C6 fails on the code. As soon as one label of a label-only cluster has
    fewer votes than the quorum, [LabelMerger.merge_clusters] does not drop
    the label and record a [FailedLabelVotingError]: collecting the sources
    that did not vote iterates over a cluster member ([for l in a]), which
    raises [TypeError], and the merge ends there. *)
Theorem label_vote_below_quorum_raises
    (get_src_label_name : Annotation -> option nat -> option string)
    (get_label_id : option string -> option nat) (quorum : Z)
    (cluster : list Annotation) (st : Context) (l : option string) (c : Z) :
  In (l, c) (label_votes get_src_label_name cluster) ->
  c < quorum ->
  (0 < size (_dataset_map st))%nat ->
  label_merge_clusters get_src_label_name get_label_id quorum [cluster] st =
    Raise TypeError.
Proof.
  intros Hin Hlt Hn. unfold label_merge_clusters.
  cbn [length Nat.ltb Nat.leb].
  apply label_votes_loop_raises; [|exact Hn|eauto].
  intros ->. destruct Hin.
Qed.

Lemma label_vote_below_quorum_raises_witness :
  label_merge_clusters VoteExample.label_names VoteExample.label_ids
    LabelVoteExample.quorum [LabelVoteExample.cluster] VoteExample.st =
  Raise TypeError.
Proof.
  apply (label_vote_below_quorum_raises VoteExample.label_names VoteExample.label_ids
           LabelVoteExample.quorum LabelVoteExample.cluster VoteExample.st
           (Some "car") 2).
  - vm_compute. auto.
  - reflexivity.
  - vm_compute. lia.
Defined.

(** ** Annotations marked as outside *)

Definition is_outside (a : Annotation) : bool :=
  truthy (default (VBool false) (attributes a !! "outside")).

Lemma _get_ann_type_spec t item a :
  In a (_get_ann_type t item) <-> In a item /\ ann_type a = t /\ is_outside a = false.
Proof.
  unfold _get_ann_type, is_outside. rewrite <- !list_elem_of_In.
  rewrite list_elem_of_filter. rewrite andb_True, bool_decide_spec.
  rewrite negb_True. split.
  - intros [[Ht Ho] Hin]. repeat split; try assumption.
    destruct (truthy _); [exfalso; apply Ho; exact I|reflexivity].
  - intros (Hin & Ht & Ho). repeat split; try assumption. rewrite Ho. auto.
Qed.



(** ** Items that some sources lack *)

(** The datasets that hold an item with the key, and the indices of those
    that do not. *)
Definition present (key : ItemKey) (d : Dataset) : bool :=
  bool_decide (is_Some (dataset_get d key)).

Definition absent_indices (datasets : list Dataset) (key : ItemKey) : gset nat :=
  list_to_set
    (map fst (List.filter (fun e => negb (present key (snd e))) (enumerate datasets))).

(** The [NoMatchingItemError]s of an error list, in order. *)
Definition missing_of (es : list ItemError) : list (ItemKey * gset nat) :=
  omap (fun e => match e with
                 | NoMatchingItemError k s => Some (k, s)
                 | _ => None
                 end) es.

(** [_dataset_map] as [__call__] builds it. *)
Definition index_map (datasets : list Dataset) : gmap Z nat :=
  fold_left (fun m id => <[ds_pyid (snd id) := fst id]> m) (enumerate datasets) ∅.

Lemma index_map_lookup datasets x i :
  NoDup (map ds_pyid datasets) ->
  index_map datasets !! x = Some i <->
  exists d, datasets !! i = Some d /\ ds_pyid d = x.
Proof.
  unfold index_map, enumerate. intros Hnd.
  assert (Hgen : forall (l : list Dataset) s (m : gmap Z nat),
             NoDup (map ds_pyid l) ->
             (forall d, In d l -> m !! ds_pyid d = None) ->
             fold_left (fun m id => <[ds_pyid (snd id) := fst id]> m)
                       (combine (seq s (length l)) l) m !! x = Some i <->
             m !! x = Some i \/
             exists d, l !! (i - s)%nat = Some d /\ (s <= i)%nat /\ ds_pyid d = x).
  { induction l as [|d0 l IH]; intros s m Hl Hm; simpl.
    - split; [auto|]. intros [H|(d & H & _)]; [exact H|discriminate].
    - apply NoDup_cons in Hl as [Hd0 Hl].
      rewrite IH; [|exact Hl|].
      + rewrite lookup_insert. split.
        * intros [H|(d & Hd & Hs & Hx)].
          -- destruct (decide (ds_pyid d0 = x)) as [Heq|Hne].
             ++ injection H as <-. right. exists d0.
                rewrite Nat.sub_diag. auto.
             ++ left. exact H.
          -- right. exists d. replace (i - s)%nat with (S (i - S s)) by lia.
             simpl. repeat split; [exact Hd|lia|exact Hx].
        * intros [H|(d & Hd & Hs & Hx)].
          -- left. destruct (decide (ds_pyid d0 = x)) as [Heq|Hne]; [|exact H].
             rewrite <- Heq, (Hm d0 (or_introl eq_refl)) in H. discriminate.
          -- destruct (decide (i = s)) as [->|Hne].
             ++ rewrite Nat.sub_diag in Hd. simpl in Hd. injection Hd as <-.
                left. rewrite decide_True by exact Hx. reflexivity.
             ++ right. exists d.
                replace (i - s)%nat with (S (i - S s)) in Hd by lia. simpl in Hd.
                repeat split; [exact Hd|lia|exact Hx].
      + intros d Hd. rewrite lookup_insert_ne; [apply Hm; right; exact Hd|].
        intros Heq. apply Hd0. rewrite Heq. apply list_elem_of_In.
        apply in_map. exact Hd. }
  rewrite (Hgen datasets 0%nat ∅ Hnd) by (intros; apply lookup_empty).
  rewrite lookup_empty, Nat.sub_0_r. split.
  - intros [H|(d & Hd & _ & Hx)]; [discriminate|eauto].
  - intros (d & Hd & Hx). right. exists d. repeat split; [exact Hd|lia|exact Hx].
Qed.

Lemma map_m_lookup (dm : gmap Z nat) (xs : list Z) (st : Context) :
  _dataset_map st = dm ->
  (forall x, In x xs -> is_Some (dm !! x)) ->
  exists idxs,
    map_m get_dataset_source_id xs st = Ok (idxs, st) /\
    Forall2 (fun x i => dm !! x = Some i) xs idxs.
Proof.
  intros Hdm. induction xs as [|x xs IH]; intros Hall; simpl.
  - exists []. split; [reflexivity|constructor].
  - destruct (Hall x (or_introl eq_refl)) as [i Hi].
    destruct IH as (idxs & Hrun & Hf); [intros y Hy; apply Hall; right; exact Hy|].
    exists (i :: idxs). split; [|constructor; assumption].
    assert (Hget : get_dataset_source_id x st = Ok (i, st)).
    { unfold get_dataset_source_id, bind, get_ctx, gmap_item.
      rewrite Hdm, Hi. reflexivity. }
    unfold bind. rewrite Hget, Hrun. reflexivity.
Qed.

Lemma dataset_get_key d key item :
  dataset_get d key = Some item -> item_key item = key.
Proof.
  unfold dataset_get. intros H. apply find_some in H as [_ H].
  apply bool_decide_eq_true_1 in H. exact H.
Qed.

Lemma od_set_In {K V} `{EqDecision K} (d : odict K V) (k : K) (v : V) e :
  In e (od_set d k v) -> e = (k, v) \/ In e d.
Proof.
  induction d as [|[k0 v0] d IH]; simpl.
  - intros [<-|[]]. auto.
  - destruct (decide (k0 = k)) as [->|Hne]; simpl.
    + intros [<-|H]; auto.
    + intros [<-|H]; [auto|]. destruct (IH H); auto.
Qed.

Lemma items_of_key datasets key e :
  In e (items_of datasets key) -> item_key (snd e) = key.
Proof.
  unfold items_of.
  assert (Hgen : forall (l : list Dataset) acc,
             (forall e, In e acc -> item_key (snd e) = key) ->
             forall e,
               In e (fold_left (fun items d =>
                                  match dataset_get d key with
                                  | Some item => od_set items (ds_pyid d) item
                                  | None => items
                                  end) l acc) ->
               item_key (snd e) = key).
  { induction l as [|d l IH]; intros acc Hacc; simpl; [exact Hacc|].
    apply IH. destruct (dataset_get d key) as [item|] eqn:Hg; [|exact Hacc].
    intros e' He'. apply od_set_In in He' as [->|He']; [|auto].
    simpl. apply dataset_get_key in Hg. exact Hg. }
  apply Hgen. intros e' [].
Qed.

Lemma items_of_keys datasets key :
  NoDup (map ds_pyid datasets) ->
  od_keys (items_of datasets key) = map ds_pyid (List.filter (present key) datasets).
Proof.
  unfold items_of.
  assert (Hgen : forall (l : list Dataset) acc,
             NoDup (map ds_pyid l) ->
             (forall d, In d l -> ~ In (ds_pyid d) (od_keys acc)) ->
             od_keys (fold_left (fun items d =>
                                   match dataset_get d key with
                                   | Some item => od_set items (ds_pyid d) item
                                   | None => items
                                   end) l acc) =
             od_keys acc ++ map ds_pyid (List.filter (present key) l)).
  { induction l as [|d l IH]; intros acc Hnd Hacc; simpl.
    - rewrite app_nil_r. reflexivity.
    - apply NoDup_cons in Hnd as [Hd Hnd].
      assert (Hfresh : ~ In (ds_pyid d) (map ds_pyid l)).
      { intros H. apply Hd. apply list_elem_of_In. exact H. }
      destruct (dataset_get d key) as [item|] eqn:Hg.
      + replace (present key d) with true
          by (unfold present; rewrite Hg; symmetry; apply bool_decide_eq_true_2; eauto).
        simpl.
        rewrite IH; [|exact Hnd|].
        * rewrite od_keys_set, bool_decide_eq_false_2.
          -- rewrite <- app_assoc. reflexivity.
          -- intros H. apply list_elem_of_In in H.
             exact (Hacc d (or_introl eq_refl) H).
        * intros d' Hd'. rewrite od_keys_set, bool_decide_eq_false_2.
          -- intros H. apply in_app_or in H as [H|[H|[]]].
             ++ exact (Hacc d' (or_intror Hd') H).
             ++ apply Hfresh. rewrite H. apply in_map. exact Hd'.
          -- intros H. apply list_elem_of_In in H.
             exact (Hacc d (or_introl eq_refl) H).
      + replace (present key d) with false
          by (unfold present; rewrite Hg; symmetry; apply bool_decide_eq_false_2;
              intros [x Hx]; discriminate).
        simpl.
        apply IH; [exact Hnd|]. intros d' Hd'. apply Hacc. right. exact Hd'. }
  intros Hnd. rewrite Hgen; [reflexivity|exact Hnd|]. intros d _ [].
Qed.

Lemma absent_indices_spec datasets key i :
  i ∈ absent_indices datasets key <->
  exists d, datasets !! i = Some d /\ dataset_get d key = None.
Proof.
  unfold absent_indices. rewrite elem_of_list_to_set, list_elem_of_In, in_map_iff.
  split.
  - intros ([j d] & <- & H). apply filter_In in H as [Hin Hp].
    apply in_enumerate in Hin. exists d. split; [exact Hin|].
    simpl in Hp. unfold present in Hp. apply negb_true_iff in Hp.
    apply bool_decide_eq_false_1 in Hp.
    destruct (dataset_get d key); [exfalso; apply Hp; eauto|reflexivity].
  - intros (d & Hd & Hg). exists (i, d). split; [reflexivity|].
    apply filter_In. split; [apply in_enumerate; exact Hd|].
    simpl. unfold present. rewrite Hg. apply negb_true_iff.
    apply bool_decide_eq_false_2. intros [x Hx]. discriminate.
Qed.

(** The sources [__call__] reports for an item: the positions of the
    datasets that lack it. *)
Lemma missing_sources_indices datasets key (idxs : list nat) :
  NoDup (map ds_pyid datasets) ->
  Forall2 (fun x i => index_map datasets !! x = Some i)
          (elements (list_to_set (map ds_pyid datasets)
                       ∖ list_to_set (od_keys (items_of datasets key)) : gset Z))
          idxs ->
  list_to_set idxs = absent_indices datasets key.
Proof.
  intros Hnd Hf. rewrite (items_of_keys _ _ Hnd) in Hf.
  apply set_eq. intros i. rewrite absent_indices_spec, elem_of_list_to_set.
  split.
  - intros Hi. apply list_elem_of_lookup in Hi as [n Hn].
    destruct (Forall2_lookup_r _ _ _ _ _ Hf Hn) as (x & Hx & Hxi).
    apply list_elem_of_lookup_2, elem_of_elements, elem_of_difference in Hx
      as [_ Hx].
    apply (index_map_lookup _ _ _ Hnd) in Hxi as (d & Hd & <-).
    exists d. split; [exact Hd|].
    destruct (dataset_get d key) as [item|] eqn:Hg; [|reflexivity].
    exfalso. apply Hx. apply elem_of_list_to_set, list_elem_of_In, in_map.
    apply filter_In. split.
    + apply list_elem_of_In. eapply list_elem_of_lookup_2. exact Hd.
    + unfold present. rewrite Hg. apply bool_decide_eq_true_2. eauto.
  - intros (d & Hd & Hg).
    assert (Hx : ds_pyid d ∈ elements
                   (list_to_set (map ds_pyid datasets)
                      ∖ list_to_set (map ds_pyid (List.filter (present key) datasets))
                    : gset Z)).
    { apply elem_of_elements, elem_of_difference. split.
      - apply elem_of_list_to_set, list_elem_of_In, in_map, list_elem_of_In.
        eapply list_elem_of_lookup_2. exact Hd.
      - rewrite elem_of_list_to_set, list_elem_of_In, in_map_iff.
        intros (d' & Heq & Hd'). apply filter_In in Hd' as [Hin Hp].
        apply list_elem_of_In, list_elem_of_lookup in Hin as [j Hj].
        assert (Hij : index_map datasets !! ds_pyid d = Some j).
        { apply index_map_lookup; [exact Hnd|]. exists d'. auto. }
        assert (Hii : index_map datasets !! ds_pyid d = Some i).
        { apply index_map_lookup; [exact Hnd|]. exists d. auto. }
        rewrite Hij in Hii. injection Hii as ->. rewrite Hj in Hd.
        injection Hd as ->. unfold present in Hp. rewrite Hg in Hp.
        apply bool_decide_eq_true_1 in Hp. destruct Hp as [x Hx]. discriminate. }
    apply list_elem_of_lookup in Hx as [n Hn].
    destruct (Forall2_lookup_l _ _ _ _ _ Hf Hn) as (j & Hj & Hxj).
    assert (Hii : index_map datasets !! ds_pyid d = Some i).
    { apply index_map_lookup; [exact Hnd|]. exists d. auto. }
    rewrite Hii in Hxj. injection Hxj as <-.
    eapply list_elem_of_lookup_2. exact Hj.
Qed.

Lemma filter_present_length key (l : list Dataset) :
  (length (List.filter (present key) l)
   + length (List.filter (fun d => negb (present key d)) l) = length l)%nat.
Proof.
  induction l as [|d l IH]; simpl; [reflexivity|].
  destruct (present key d); simpl; lia.
Qed.

Lemma absent_indices_size datasets key :
  size (absent_indices datasets key) =
  (length datasets - length (List.filter (present key) datasets))%nat.
Proof.
  unfold absent_indices, enumerate.
  assert (Hgen : forall (l : list Dataset) s,
             let idxs := map fst (List.filter (fun e => negb (present key (snd e)))
                                              (combine (seq s (length l)) l)) in
             NoDup idxs /\ (forall i, In i idxs -> (s <= i)%nat) /\
             length idxs = length (List.filter (fun d => negb (present key d)) l)).
  { induction l as [|d l IH]; intros s; simpl.
    - split; [constructor|]. split; [intros i []|reflexivity].
    - destruct (IH (S s)) as (Hnd & Hge & Hlen).
      destruct (present key d); simpl.
      + split; [exact Hnd|]. split; [|exact Hlen].
        intros i Hi. apply Hge in Hi. lia.
      + split; [|split].
        * apply NoDup_cons. split; [|exact Hnd].
          intros H. apply list_elem_of_In, Hge in H. lia.
        * intros i [<-|Hi]; [lia|]. apply Hge in Hi. lia.
        * rewrite Hlen. reflexivity. }
  destruct (Hgen datasets 0%nat) as (Hnd & _ & Hlen).
  rewrite size_list_to_set by exact Hnd. rewrite Hlen.
  pose proof (filter_present_length key datasets). lia.
Qed.

Lemma missing_of_app es es' :
  missing_of (es ++ es') = missing_of es ++ missing_of es'.
Proof. unfold missing_of. apply omap_app. Qed.

(** What a whole run reports for a list of keys. *)
Definition expected_missing (datasets : list Dataset) (keys : list ItemKey)
    : list (ItemKey * gset nat) :=
  omap (fun key =>
          if (length (items_of datasets key) <? length datasets)%nat
          then Some (key, absent_indices datasets key)
          else None) keys.

Lemma expected_missing_cons datasets k keys :
  expected_missing datasets (k :: keys) =
  (if (length (items_of datasets k) <? length datasets)%nat
   then [(k, absent_indices datasets k)] else [])
  ++ expected_missing datasets keys.
Proof.
  unfold expected_missing. simpl. destruct (_ <? _)%nat; reflexivity.
Qed.

Lemma expected_missing_filter datasets key keys :
  NoDup keys -> In key keys ->
  (length (items_of datasets key) < length datasets)%nat ->
  List.filter (fun e => bool_decide (fst e = key)) (expected_missing datasets keys) =
  [(key, absent_indices datasets key)].
Proof.
  intros Hnd Hin Hlt.
  assert (Hout : forall ks, ~ In key ks ->
             List.filter (fun e : ItemKey * gset nat => bool_decide (fst e = key))
                         (expected_missing datasets ks) = []).
  { induction ks as [|k ks IH]; intros Hk; [reflexivity|].
    rewrite expected_missing_cons, List.filter_app, IH
      by (intros H; apply Hk; right; exact H).
    rewrite app_nil_r. destruct (_ <? _)%nat; [|reflexivity].
    cbn [List.filter fst].
    rewrite bool_decide_eq_false_2 by (intros ->; apply Hk; left; reflexivity).
    reflexivity. }
  induction keys as [|k keys IH]; [destruct Hin|].
  apply NoDup_cons in Hnd as [Hk Hnd].
  rewrite expected_missing_cons, List.filter_app.
  destruct (decide (k = key)) as [->|Hne].
  - apply Nat.ltb_lt in Hlt. rewrite Hlt. cbn [List.filter fst].
    rewrite bool_decide_eq_true_2 by reflexivity.
    rewrite Hout; [reflexivity|]. intros H. apply Hk, list_elem_of_In. exact H.
  - destruct Hin as [->|Hin]; [contradiction|].
    rewrite IH by assumption.
    destruct (_ <? _)%nat; [|reflexivity].
    cbn [List.filter fst]. rewrite bool_decide_eq_false_2 by exact Hne. reflexivity.
Qed.

Lemma item_ids_NoDup datasets : NoDup (item_ids datasets).
Proof.
  unfold item_ids. rewrite merge_sort_Permutation. apply NoDup_remove_dups.
Qed.

Section missing_sources.
Variable merge_annotations : list (list Annotation) -> M (list Annotation).
Variable output_conf_thresh : Q.
Variable datasets : list Dataset.
Hypothesis datasets_distinct : NoDup (map ds_pyid datasets).
Hypothesis merge_annotations_frame : forall srcs s anns s',
  merge_annotations srcs s = Ok (anns, s') ->
  _dataset_map s' = _dataset_map s /\ missing_of (errors s') = missing_of (errors s).

Lemma merge_items_frame items st item st' :
  merge_items merge_annotations output_conf_thresh items st = Ok (item, st') ->
  _dataset_map st' = _dataset_map st /\
  missing_of (errors st') = missing_of (errors st) /\
  exists e rest, items = e :: rest /\ merged_key item = item_key (snd e).
Proof.
  unfold merge_items. destruct items as [|[k first] items]; [discriminate|].
  unfold bind at 1.
  destruct (for_each _ _ _ st) as [[sources st1]|] eqn:Hsrc; [|discriminate].
  unfold bind at 1.
  destruct (merge_annotations sources st1) as [[anns st2]|] eqn:Hma; [|discriminate].
  unfold bind at 1.
  destruct (above_floor output_conf_thresh anns st2) as [[kept st3]|] eqn:Hfl;
    [|discriminate].
  apply above_floor_ok in Hfl as (-> & -> & _).
  unfold ret. intros [= <- <-].
  apply merge_annotations_frame in Hma as [Hdm Herr].
  assert (Hloop : _dataset_map st1 = _dataset_map st /\ errors st1 = errors st).
  { revert Hsrc. generalize ((k, first) :: items) as l.
    assert (Hgen : forall (l : list (Z * DatasetItem)) acc st0,
               for_each l acc
                 (fun sources e =>
                    st <- get_ctx ;;
                    put_ctx (with_ann_map (fun m =>
                       fold_left (fun m a => <[ann_id a := item_pyid (snd e)]> m)
                                 (annotations (snd e)) m) st) ;;;
                    ret (sources ++ [annotations (snd e)])) st0 = Ok (sources, st1) ->
               _dataset_map st1 = _dataset_map st0 /\ errors st1 = errors st0).
    { induction l as [|e l IH]; simpl; intros acc st0.
      - unfold ret. intros [= _ <-]. auto.
      - unfold bind at 1. simpl. intros H. apply IH in H as [H1 H2].
        split; [exact H1|exact H2]. }
    intros l H. apply Hgen in H. exact H. }
  destruct Hloop as [Hdm1 Herr1].
  split; [congruence|]. split; [congruence|].
  exists (k, first), items. auto.
Qed.

Lemma merge_matched_step merged key st merged' st' :
  _dataset_map st = index_map datasets ->
  merge_matched merge_annotations output_conf_thresh datasets merged
                (key, items_of datasets key) st = Ok (merged', st') ->
  _dataset_map st' = index_map datasets /\
  missing_of (errors st') =
    missing_of (errors st)
    ++ (if (length (items_of datasets key) <? length datasets)%nat
        then [(key, absent_indices datasets key)] else []) /\
  exists st1 item,
    merge_items merge_annotations output_conf_thresh (items_of datasets key) st1
      = Ok (item, st') /\
    merged' = od_set merged key item.
Proof.
  intros Hdm. unfold merge_matched. cbn [fst snd].
  unfold bind at 1. unfold get_ctx at 1. unfold bind at 1. unfold put_ctx at 1.
  unfold bind at 1.
  set (st2 := with_item_id key st).
  assert (Hdm2 : _dataset_map st2 = index_map datasets) by exact Hdm.
  assert (Hreport : exists st3,
             (if (length (items_of datasets key) <? length datasets)%nat
              then
                missing_sources <-
                  map_m get_dataset_source_id
                    (elements (list_to_set (map ds_pyid datasets)
                                 ∖ list_to_set (od_keys (items_of datasets key))
                               : gset Z)) ;;
                add_item_error (fun item =>
                  NoMatchingItemError item (list_to_set missing_sources))
              else ret tt)%merge st2 = Ok (tt, st3) /\
             _dataset_map st3 = index_map datasets /\
             missing_of (errors st3) =
               missing_of (errors st)
               ++ (if (length (items_of datasets key) <? length datasets)%nat
                   then [(key, absent_indices datasets key)] else [])).
  { destruct (_ <? _)%nat.
    - destruct (map_m_lookup (index_map datasets)
                  (elements (list_to_set (map ds_pyid datasets)
                               ∖ list_to_set (od_keys (items_of datasets key))
                             : gset Z)) st2 Hdm2) as (idxs & Hrun & Hf).
      { intros x Hx. apply list_elem_of_In, elem_of_elements, elem_of_difference in Hx
          as [Hx _].
        apply elem_of_list_to_set, list_elem_of_In, in_map_iff in Hx as (d & <- & Hd).
        apply list_elem_of_In, list_elem_of_lookup in Hd as [i Hi].
        exists i. apply index_map_lookup; [exact datasets_distinct|]. eauto. }
      eexists. split; [|split].
      + unfold bind. rewrite Hrun. unfold add_item_error, bind, get_ctx, put_ctx.
        reflexivity.
      + exact Hdm2.
      + cbn [with_errors errors]. rewrite missing_of_app. simpl.
        rewrite (missing_sources_indices _ _ _ datasets_distinct Hf). reflexivity.
    - exists st2. split; [reflexivity|]. split; [exact Hdm2|].
      rewrite app_nil_r. reflexivity. }
  destruct Hreport as (st3 & -> & Hdm3 & Herr3).
  unfold bind at 1.
  destruct (merge_items _ _ _ st3) as [[item st4]|] eqn:Hmi; [|discriminate].
  unfold ret. intros [= <- <-].
  pose proof Hmi as Hfr.
  apply merge_items_frame in Hfr as (Hdm4 & Herr4 & e & rest & Hitems & Hkey).
  split; [congruence|]. split; [congruence|].
  exists st3, item. split; [exact Hmi|].
  rewrite Hkey, (items_of_key datasets key e); [reflexivity|].
  rewrite Hitems. left. reflexivity.
Qed.

Lemma merge_all_loop keys : forall merged st merged' st',
  NoDup keys ->
  _dataset_map st = index_map datasets ->
  for_each (map (fun key => (key, items_of datasets key)) keys) merged
           (merge_matched merge_annotations output_conf_thresh datasets) st
    = Ok (merged', st') ->
  _dataset_map st' = index_map datasets /\
  missing_of (errors st') = missing_of (errors st) ++ expected_missing datasets keys /\
  (forall key, In key keys ->
     exists st1 st2 item,
       merge_items merge_annotations output_conf_thresh (items_of datasets key) st1
         = Ok (item, st2) /\
       od_get merged' key = Some item) /\
  (forall key, ~ In key keys -> od_get merged' key = od_get merged key).
Proof.
  induction keys as [|k keys IH]; intros merged st merged' st' Hnd Hdm;
    cbn [map for_each].
  - unfold ret. intros [= <- <-].
    change (expected_missing datasets []) with (@nil (ItemKey * gset nat)).
    rewrite app_nil_r.
    repeat split; [exact Hdm|intros key []].
  - apply NoDup_cons in Hnd as [Hk Hnd].
    unfold bind.
    destruct (merge_matched _ _ _ _ _ st) as [[merged1 st1]|] eqn:Hstep; [|discriminate].
    intros Hrest.
    apply (merge_matched_step _ _ _ _ _ Hdm) in Hstep
      as (Hdm1 & Herr1 & sti & item & Hmi & ->).
    apply (IH _ _ _ _ Hnd Hdm1) in Hrest as (Hdm' & Herr' & Hin & Hout).
    split; [exact Hdm'|]. split; [|split].
    + rewrite Herr', Herr1, <- app_assoc, expected_missing_cons. reflexivity.
    + intros key [<-|Hkey]; [|apply Hin; exact Hkey].
      exists sti, st1, item. split; [exact Hmi|].
      rewrite Hout by (intros H; apply Hk, list_elem_of_In; exact H).
      rewrite od_get_set, decide_True by reflexivity. reflexivity.
    + intros key Hkey. rewrite Hout by (intros H; apply Hkey; right; exact H).
      rewrite od_get_set, decide_False; [reflexivity|].
      intros ->. apply Hkey. left. reflexivity.
Qed.

Lemma call_reports _check_groups_definition st0 merged st :
  call merge_annotations output_conf_thresh _check_groups_definition datasets st0
    = Ok (merged, st) ->
  missing_of (errors st) = expected_missing datasets (item_ids datasets) /\
  forall key, In key (item_ids datasets) ->
    exists st1 st2 item,
      merge_items merge_annotations output_conf_thresh (items_of datasets key) st1
        = Ok (item, st2) /\
      od_get merged key = Some item.
Proof.
  unfold call. unfold bind at 1. unfold get_ctx at 1. unfold bind at 1.
  unfold put_ctx at 1. destruct _check_groups_definition as [[]|e]; [|discriminate].
  unfold match_items. unfold bind at 1. unfold get_ctx at 1. unfold bind at 1.
  unfold put_ctx at 1. unfold bind at 1. unfold merge_all.
  match goal with
  | |- context [for_each _ _ _ ?s] => set (st1 := s)
  end.
  destruct (for_each _ _ _ st1) as [[merged1 st2]|] eqn:Hloop; [|discriminate].
  unfold bind, finalize_scores, bind, get_ctx, put_ctx, ret. intros [= <- <-].
  apply merge_all_loop in Hloop as (_ & Herr & Hin & _);
    [|apply item_ids_NoDup|reflexivity].
  split; [exact Herr|exact Hin].
Qed.

End missing_sources.

(** C8. In a run of [__call__] over sources that are distinct objects,
    an item that is held by only [k] of the [N] sources, [k < N], gets
    exactly one [NoMatchingItemError]; the sources it names are the
    positions of the [N - k] datasets that lack the item; and the run still
    merges the item: the result holds under its key what [merge_items]
    returns for the items of the sources that have it (one per such source,
    in the order of the sources). The merge of the annotations is assumed
    to leave the source indices alone and to record no error of this kind
    itself. *)
Theorem missing_sources_reported
    (merge_annotations : list (list Annotation) -> M (list Annotation))
    (output_conf_thresh : Q) (_check_groups_definition : Result unit)
    (datasets : list Dataset) (st0 st : Context)
    (merged : odict ItemKey MergedItem) (key : ItemKey) :
  NoDup (map ds_pyid datasets) ->
  (forall srcs s anns s',
     merge_annotations srcs s = Ok (anns, s') ->
     _dataset_map s' = _dataset_map s /\ missing_of (errors s') = missing_of (errors s)) ->
  call merge_annotations output_conf_thresh _check_groups_definition datasets st0
    = Ok (merged, st) ->
  In key (item_ids datasets) ->
  (length (List.filter (present key) datasets) < length datasets)%nat ->
  List.filter (fun e => bool_decide (fst e = key)) (missing_of (errors st))
    = [(key, absent_indices datasets key)] /\
  size (absent_indices datasets key)
    = (length datasets - length (List.filter (present key) datasets))%nat /\
  (forall i, i ∈ absent_indices datasets key <->
             exists d, datasets !! i = Some d /\ dataset_get d key = None) /\
  od_keys (items_of datasets key) = map ds_pyid (List.filter (present key) datasets) /\
  exists st1 st2 item,
    merge_items merge_annotations output_conf_thresh (items_of datasets key) st1
      = Ok (item, st2) /\
    od_get merged key = Some item.
Proof.
  intros Hnd Hframe Hcall Hkey Hlt.
  pose proof (items_of_keys datasets key Hnd) as Hkeys.
  assert (Hlen : length (items_of datasets key)
                 = length (List.filter (present key) datasets)).
  { rewrite <- (length_map ds_pyid), <- Hkeys. unfold od_keys.
    rewrite length_map. reflexivity. }
  destruct (call_reports _ _ _ Hnd Hframe _ _ _ _ Hcall) as [Herr Hmerged].
  split; [|split; [|split; [|split]]].
  - rewrite Herr. apply expected_missing_filter;
      [apply item_ids_NoDup|exact Hkey|rewrite Hlen; exact Hlt].
  - apply absent_indices_size.
  - intros i. apply absent_indices_spec.
  - exact Hkeys.
  - apply Hmerged. exact Hkey.
Qed.

Lemma missing_sources_reported_witness :
  exists merged st,
    call MissingExample.merge_annotations 0 (Ok tt) MissingExample.datasets empty_context
      = Ok (merged, st) /\
    List.filter (fun e => bool_decide (fst e = ("b", ""))) (missing_of (errors st))
      = [(("b", ""), absent_indices MissingExample.datasets ("b", ""))] /\
    size (absent_indices MissingExample.datasets ("b", "")) = 1%nat.
Proof.
  eexists. eexists. split; [vm_compute; reflexivity|].
  refine (let H := missing_sources_reported MissingExample.merge_annotations 0 (Ok tt)
                     MissingExample.datasets empty_context _ _ ("b", "") _ _ _ _ _ in
          conj (proj1 H) (proj1 (proj2 H))).
  - apply (bool_decide_unpack _). vm_compute. exact I.
  - intros srcs s anns s'. unfold MissingExample.merge_annotations, ret.
    intros [= _ <-]. auto.
  - vm_compute. reflexivity.
  - vm_compute. auto.
  - vm_compute. lia.
Defined.

(** ** The per-source scores *)

Definition in_unit (q : Q) : Prop := (0 <= q /\ q <= 1)%Q.

(** Every source has a running list of scores between 0 and 1. *)
Definition scores_ok (datasets : list Dataset) (st : Context) : Prop :=
  forall d, In d datasets ->
    exists l, dataset_mean_consensus_score st !! ds_pyid d = Some (Scores l) /\
              Forall in_unit l.

(** The result as the specification words it: a score between 0 and 1
    under every source index [0..n-1]. *)
Definition score_map_as_specified (n : nat) (m : gmap Z ScoreSlot) : Prop :=
  forall i, (i < n)%nat ->
    exists q, m !! Z.of_nat i = Some (Mean (Fin q)) /\ in_unit q.

Lemma Qsum_bounds (l : list Q) :
  Forall in_unit l -> (0 <= Qsum l /\ Qsum l <= inject_Z (Z.of_nat (length l)))%Q.
Proof.
  induction 1 as [|x l [Hx0 Hx1] _ [IH0 IH1]].
  - split; unfold Qsum, Qle; simpl; lia.
  - rewrite Qsum_cons. split.
    + rewrite <- (Qplus_0_l 0). apply Qplus_le_compat; assumption.
    + change (length (x :: l)) with (S (length l)).
      rewrite Nat2Z.inj_succ. unfold Z.succ. rewrite inject_Z_plus, Qplus_comm.
      apply Qplus_le_compat; assumption.
Qed.

Lemma np_mean_in_unit (l : list Q) :
  Forall in_unit l -> l <> [] ->
  exists q, np_mean l = Fin q /\
            (q == Qsum l / inject_Z (Z.of_nat (length l)))%Q /\ in_unit q.
Proof.
  intros Hl Hne. destruct l as [|x l]; [contradiction|].
  eexists. split; [reflexivity|]. split; [reflexivity|].
  destruct (Qsum_bounds _ Hl) as [H0 H1].
  assert (Hpos : (0 < inject_Z (Z.of_nat (length (x :: l))))%Q).
  { unfold Qlt; simpl. lia. }
  split.
  - apply Qle_shift_div_l; [exact Hpos|]. rewrite Qmult_0_l. exact H0.
  - apply Qle_shift_div_r; [exact Hpos|]. rewrite Qmult_1_l. exact H1.
Qed.

Lemma map_m_source_ids_state xs : forall st r st',
  map_m get_dataset_source_id xs st = Ok (r, st') -> st' = st.
Proof.
  induction xs as [|x xs IH]; intros st r st'; simpl.
  - unfold ret. intros [= _ <-]. reflexivity.
  - unfold bind at 1. unfold get_dataset_source_id at 1.
    unfold bind at 1, get_ctx at 1, gmap_item.
    destruct (_dataset_map st !! x) as [i|]; [|discriminate].
    unfold ret at 1. unfold bind at 1.
    destruct (map_m get_dataset_source_id xs st) as [[r' st1]|] eqn:Hr; [|discriminate].
    apply IH in Hr as ->. unfold ret. intros [= _ <-]. reflexivity.
Qed.

Section per_source_scores.
Variable merge_annotations : list (list Annotation) -> M (list Annotation).
Variable output_conf_thresh : Q.
Variable datasets : list Dataset.
Hypothesis merge_annotations_scores : forall srcs s anns s',
  scores_ok datasets s -> merge_annotations srcs s = Ok (anns, s') ->
  scores_ok datasets s'.

Lemma merge_items_scores items st item st' :
  scores_ok datasets st ->
  merge_items merge_annotations output_conf_thresh items st = Ok (item, st') ->
  scores_ok datasets st'.
Proof.
  intros Hok. unfold merge_items. destruct items as [|[k first] items]; [discriminate|].
  unfold bind at 1.
  destruct (for_each _ _ _ st) as [[sources st1]|] eqn:Hsrc; [|discriminate].
  unfold bind at 1.
  destruct (merge_annotations sources st1) as [[anns st2]|] eqn:Hma; [|discriminate].
  unfold bind at 1.
  destruct (above_floor output_conf_thresh anns st2) as [[kept st3]|] eqn:Hfl;
    [|discriminate].
  apply above_floor_ok in Hfl as (-> & -> & _).
  unfold ret. intros [= _ <-].
  apply (merge_annotations_scores _ _ _ _) in Hma; [exact Hma|].
  revert Hok Hsrc. generalize ((k, first) :: items) as l.
  assert (Hgen : forall (l : list (Z * DatasetItem)) acc st0,
             scores_ok datasets st0 ->
             for_each l acc
               (fun sources e =>
                  st <- get_ctx ;;
                  put_ctx (with_ann_map (fun m =>
                     fold_left (fun m a => <[ann_id a := item_pyid (snd e)]> m)
                               (annotations (snd e)) m) st) ;;;
                  ret (sources ++ [annotations (snd e)])) st0 = Ok (sources, st1) ->
             scores_ok datasets st1).
  { induction l as [|e l IH]; simpl; intros acc st0 Hst0.
    - unfold ret. intros [= _ <-]. exact Hst0.
    - unfold bind at 1. simpl. intros H. apply IH in H; [exact H|exact Hst0]. }
  intros l Hok H. apply Hgen in H; [exact H|exact Hok].
Qed.

Lemma merge_matched_scores merged e st merged' st' :
  scores_ok datasets st ->
  merge_matched merge_annotations output_conf_thresh datasets merged e st
    = Ok (merged', st') ->
  scores_ok datasets st'.
Proof.
  intros Hok. unfold merge_matched.
  unfold bind at 1. unfold get_ctx at 1. unfold bind at 1. unfold put_ctx at 1.
  unfold bind at 1.
  set (st2 := with_item_id (fst e) st).
  assert (Hok2 : scores_ok datasets st2) by exact Hok.
  match goal with
  | |- context [match ?m st2 with _ => _ end] => destruct (m st2) as [[[] st3]|] eqn:Hrep
  end; [|discriminate].
  assert (Hok3 : scores_ok datasets st3).
  { destruct (_ <? _)%nat.
    - revert Hrep. unfold bind at 1.
      destruct (map_m _ _ st2) as [[idxs st2']|] eqn:Hm; [|discriminate].
      apply map_m_source_ids_state in Hm as ->.
      unfold add_item_error, bind, get_ctx, put_ctx. intros [= <-]. exact Hok2.
    - revert Hrep. unfold ret. intros [= <-]. exact Hok2. }
  unfold bind at 1.
  destruct (merge_items _ _ _ st3) as [[item st4]|] eqn:Hmi; [|discriminate].
  unfold ret. intros [= _ <-].
  eapply merge_items_scores; [exact Hok3|exact Hmi].
Qed.

Lemma merge_all_scores item_matches : forall merged st merged' st',
  scores_ok datasets st ->
  for_each item_matches merged
           (merge_matched merge_annotations output_conf_thresh datasets) st
    = Ok (merged', st') ->
  scores_ok datasets st'.
Proof.
  induction item_matches as [|e l IH]; intros merged st merged' st' Hok; simpl.
  - unfold ret. intros [= _ <-]. exact Hok.
  - unfold bind.
    destruct (merge_matched _ _ _ _ _ st) as [[merged1 st1]|] eqn:Hstep; [|discriminate].
    apply (merge_matched_scores _ _ _ _ _ Hok) in Hstep. apply IH. exact Hstep.
Qed.

Lemma init_context_scores item_map st :
  scores_ok datasets (init_context datasets item_map st).
Proof.
  unfold scores_ok, init_context. cbn [dataset_mean_consensus_score].
  assert (Hgen : forall (l : list Dataset) (m : gmap Z ScoreSlot) d,
             In d l \/ m !! ds_pyid d = Some (Scores []) ->
             fold_left (fun m d => <[ds_pyid d := Scores []]> m) l m !! ds_pyid d
             = Some (Scores [])).
  { induction l as [|d0 l IH]; intros m d; simpl.
    - intros [[]|H]. exact H.
    - intros [[->|H]|H]; apply IH.
      + right. apply lookup_insert_eq.
      + left. exact H.
      + right. destruct (decide (ds_pyid d0 = ds_pyid d)) as [->|Hne].
        * apply lookup_insert_eq.
        * rewrite lookup_insert_ne by exact Hne. exact H. }
  intros d Hd. exists []. split; [|constructor]. apply Hgen. left. exact Hd.
Qed.

End per_source_scores.

(** C9. After [__call__] the per-source score of every source is stored
    under the identity of its dataset object (the key the index map
    translates to the source's position), and not under the position; it
    is the value [np.mean] gives for the list the source has accumulated
    once the loop over all items has ended: the arithmetic mean, between
    0 and 1, when the list is not empty, and [nan] when the source has
    contributed to no shaped cluster. The merge of the annotations is
    assumed to keep every running list a list of scores between 0 and 1,
    which is what [merge_cluster_shape] appends. *)
Theorem per_source_mean_score
    (merge_annotations : list (list Annotation) -> M (list Annotation))
    (output_conf_thresh : Q) (_check_groups_definition : Result unit)
    (datasets : list Dataset) (st0 st : Context)
    (merged : odict ItemKey MergedItem) :
  (forall srcs s anns s',
     scores_ok datasets s -> merge_annotations srcs s = Ok (anns, s') ->
     scores_ok datasets s') ->
  call merge_annotations output_conf_thresh _check_groups_definition datasets st0
    = Ok (merged, st) ->
  exists st_loop,
    merge_all merge_annotations output_conf_thresh datasets (fst (match_items datasets))
      (init_context datasets (snd (match_items datasets))
                    (with_errors (fun _ => []) st0))
      = Ok (merged, st_loop) /\
    dataset_mean_consensus_score st
      = np_mean_slot <$> dataset_mean_consensus_score st_loop /\
    forall d, In d datasets ->
      exists l,
        dataset_mean_consensus_score st_loop !! ds_pyid d = Some (Scores l) /\
        dataset_mean_consensus_score st !! ds_pyid d = Some (Mean (np_mean l)) /\
        (l = [] -> np_mean l = NaN) /\
        (l <> [] ->
         exists q, np_mean l = Fin q /\
                   (q == Qsum l / inject_Z (Z.of_nat (length l)))%Q /\ in_unit q).
Proof.
  intros Hframe. unfold call. unfold bind at 1. unfold get_ctx at 1. unfold bind at 1.
  unfold put_ctx at 1. destruct _check_groups_definition as [[]|e]; [|discriminate].
  destruct (match_items datasets) as [item_matches item_map] eqn:Hmatch.
  unfold bind at 1. unfold get_ctx at 1. unfold bind at 1.
  unfold put_ctx at 1. unfold bind at 1. cbn [fst snd].
  destruct (merge_all _ _ _ _ _) as [[merged1 st2]|] eqn:Hloop; [|discriminate].
  unfold bind, finalize_scores, bind, get_ctx, put_ctx, ret. intros [= <- <-].
  exists st2. split; [reflexivity|]. split; [reflexivity|].
  pose proof (merge_all_scores _ _ _ Hframe _ _ _ _ _
                (init_context_scores _ _ _) Hloop) as Hok.
  intros d Hd. destruct (Hok d Hd) as (l & Hl & Hunit).
  exists l. split; [exact Hl|]. split; [|split].
  - cbn [with_scores dataset_mean_consensus_score].
    rewrite lookup_fmap, Hl. reflexivity.
  - intros ->. reflexivity.
  - intros Hne. apply np_mean_in_unit; assumption.
Qed.

Lemma append_consensus_score_ok datasets k v st st' :
  scores_ok datasets st -> in_unit v ->
  append_consensus_score k v st = Ok (tt, st') ->
  scores_ok datasets st'.
Proof.
  intros Hok Hv. unfold append_consensus_score, bind, get_ctx.
  destruct (default (Scores []) (dataset_mean_consensus_score st !! k))
    as [l|m] eqn:Hslot; [|discriminate].
  unfold put_ctx. intros [= <-] d Hd.
  cbn [with_scores dataset_mean_consensus_score].
  destruct (Hok d Hd) as (l' & Hl' & Hunit).
  destruct (decide (k = ds_pyid d)) as [->|Hne].
  - rewrite lookup_insert_eq. rewrite Hl' in Hslot. simpl in Hslot.
    injection Hslot as <-. exists (l' ++ [v]). split; [reflexivity|].
    apply Forall_app. split; [exact Hunit|]. constructor; [exact Hv|constructor].
  - rewrite lookup_insert_ne by exact Hne. eauto.
Qed.

Lemma per_source_mean_score_witness :
  exists merged st,
    call ScoreExample.scoring_merge 0 (Ok tt) ScoreExample.boxed empty_context
      = Ok (merged, st) /\
    exists st_loop,
      dataset_mean_consensus_score st
        = np_mean_slot <$> dataset_mean_consensus_score st_loop /\
      forall d, In d ScoreExample.boxed ->
        exists l,
          dataset_mean_consensus_score st_loop !! ds_pyid d = Some (Scores l) /\
          dataset_mean_consensus_score st !! ds_pyid d = Some (Mean (np_mean l)) /\
          (l = [] -> np_mean l = NaN) /\
          (l <> [] ->
           exists q, np_mean l = Fin q /\
                     (q == Qsum l / inject_Z (Z.of_nat (length l)))%Q /\ in_unit q).
Proof.
  eexists. eexists. split; [vm_compute; reflexivity|].
  edestruct (per_source_mean_score ScoreExample.scoring_merge 0 (Ok tt)
               ScoreExample.boxed empty_context) as (st_loop & _ & H).
  - intros srcs s anns s' Hok. unfold ScoreExample.scoring_merge, bind.
    destruct (append_consensus_score 100 (1 # 2) s) as [[[] s1]|] eqn:Happ;
      [|discriminate].
    unfold ret. intros [= _ <-].
    eapply append_consensus_score_ok; [exact Hok| |exact Happ].
    split; unfold Qle; simpl; lia.
  - vm_compute. reflexivity.
  - exists st_loop. exact H.
Defined.

(** C9, as worded: on two sources without annotations the result has no
    entry under the source index 0, and the entry of the first source,
    under the identity of its dataset, is [nan]. *)
Lemma per_source_score_not_by_index :
  exists merged st,
    call ScoreExample.merge_annotations 0 (Ok tt) ScoreExample.datasets empty_context
      = Ok (merged, st) /\
    dataset_mean_consensus_score st !! 0 = None /\
    dataset_mean_consensus_score st !! 100 = Some (Mean NaN) /\
    ~ score_map_as_specified 2 (dataset_mean_consensus_score st).
Proof.
  eexists. eexists. split; [vm_compute; reflexivity|].
  split; [vm_compute; reflexivity|]. split; [vm_compute; reflexivity|].
  intros H. destruct (H 0%nat) as (q & Hq & _); [lia|].
  vm_compute in Hq. discriminate.
Qed.

(** * Further properties of the code *)

(** ** The reports of missing sources are sound *)

Lemma expected_missing_In datasets keys key srcs :
  In (key, srcs) (expected_missing datasets keys) ->
  In key keys /\
  (length (items_of datasets key) < length datasets)%nat /\
  srcs = absent_indices datasets key.
Proof.
  induction keys as [|k keys IH]; [intros []|].
  rewrite expected_missing_cons. intros H. apply in_app_or in H as [H|H].
  - destruct (_ <? _)%nat eqn:Hlt; [|destruct H].
    destruct H as [[= <- <-]|[]]. apply Nat.ltb_lt in Hlt.
    split; [left; reflexivity|]. split; [exact Hlt|reflexivity].
  - destruct (IH H) as (Hin & Hlt & Hs). split; [right; exact Hin|]. auto.
Qed.

(** X1. Every [NoMatchingItemError] a run of [__call__] records is
    justified: it names an item of the run, the sources listed are exactly
    the positions of the datasets that do not hold the item, and there is
    at least one such source. In particular an item held by every source
    is never reported. *)
Theorem missing_sources_reports_are_sound
    (merge_annotations : list (list Annotation) -> M (list Annotation))
    (output_conf_thresh : Q) (_check_groups_definition : Result unit)
    (datasets : list Dataset) (st0 st : Context)
    (merged : odict ItemKey MergedItem) (key : ItemKey) (srcs : gset nat) :
  NoDup (map ds_pyid datasets) ->
  (forall srcs s anns s',
     merge_annotations srcs s = Ok (anns, s') ->
     _dataset_map s' = _dataset_map s /\ missing_of (errors s') = missing_of (errors s)) ->
  call merge_annotations output_conf_thresh _check_groups_definition datasets st0
    = Ok (merged, st) ->
  In (NoMatchingItemError key srcs) (errors st) ->
  In key (item_ids datasets) /\
  (forall i, i ∈ srcs <->
             exists d, datasets !! i = Some d /\ dataset_get d key = None) /\
  (exists i d, i ∈ srcs /\ datasets !! i = Some d /\ dataset_get d key = None).
Proof.
  intros Hnd Hframe Hcall Herr.
  destruct (call_reports _ _ _ Hnd Hframe _ _ _ _ Hcall) as [Hrep _].
  assert (Hin : In (key, srcs) (missing_of (errors st))).
  { unfold missing_of. apply list_elem_of_In, list_elem_of_omap.
    exists (NoMatchingItemError key srcs). split; [|reflexivity].
    apply list_elem_of_In. exact Herr. }
  rewrite Hrep in Hin. apply expected_missing_In in Hin as (Hkey & Hlt & ->).
  split; [exact Hkey|]. split; [intros i; apply absent_indices_spec|].
  assert (Hsize : (0 < size (absent_indices datasets key))%nat).
  { rewrite absent_indices_size.
    assert (Hlen : length (items_of datasets key)
                   = length (List.filter (present key) datasets)).
    { rewrite <- (length_map ds_pyid), <- (items_of_keys _ _ Hnd). unfold od_keys.
      rewrite length_map. reflexivity. }
    lia. }
  apply size_pos_elem_of in Hsize as [i Hi].
  pose proof Hi as Hd. apply absent_indices_spec in Hd as (d & Hd & Hg).
  exists i, d. auto.
Qed.

Lemma missing_sources_reports_are_sound_witness :
  exists merged st srcs,
    call MissingExample.merge_annotations 0 (Ok tt) MissingExample.datasets empty_context
      = Ok (merged, st) /\
    In (NoMatchingItemError ("b", "") srcs) (errors st) /\
    (forall i, i ∈ srcs <->
       exists d, MissingExample.datasets !! i = Some d /\ dataset_get d ("b", "") = None).
Proof.
  eexists. eexists. eexists.
  split; [vm_compute; reflexivity|]. split; [left; reflexivity|].
  refine (proj1 (proj2 (missing_sources_reports_are_sound
                          MissingExample.merge_annotations 0 (Ok tt)
                          MissingExample.datasets empty_context _ _ ("b", "") _
                          _ _ _ _))).
  - apply (bool_decide_unpack _). vm_compute. exact I.
  - intros srcs s anns s'. unfold MissingExample.merge_annotations, ret.
    intros [= _ <-]. auto.
  - vm_compute. reflexivity.
  - left. reflexivity.
Defined.

(** ** Skeletons that were never compared *)

(** X2. [SkeletonMatcher._distance_func] hands two skeletons back to the
    cached [distance]; for two distinct skeletons whose pair is not in the
    cache this never produces a similarity: whatever room the call stack
    has, the call ends in [RecursionError], and the keypoint similarity is
    never consulted. *)
Theorem skeleton_distance_uncached_never_returns
    (keypoints_distance : Annotation -> Annotation -> M Q)
    (depth : nat) (a b : Annotation) (st : Context) :
  ann_type a = AnnotationType.skeleton ->
  ann_type b = AnnotationType.skeleton ->
  ann_id a <> ann_id b ->
  cache st !! CachedSimilarityFunction._sort_key (ann_id a, ann_id b) = None ->
  skeleton_distance keypoints_distance depth a b st = Raise RecursionError.
Proof.
  intros Ha Hb Hne Hmiss. induction depth as [|depth IH]; [reflexivity|].
  cbn [skeleton_distance]. unfold CachedSimilarityFunction.call.
  rewrite decide_False by exact Hne.
  unfold bind at 1. unfold get_ctx at 1. rewrite Hmiss.
  rewrite !bool_decide_eq_true_2 by assumption. cbn [andb].
  unfold bind at 1. rewrite IH. reflexivity.
Qed.

Lemma skeleton_distance_uncached_never_returns_witness :
  skeleton_distance SkeletonTriple.keypoints_distance 1000
                    SkeletonTriple.sk1 SkeletonTriple.sk2 empty_context
  = Raise RecursionError.
Proof.
  apply skeleton_distance_uncached_never_returns;
    [reflexivity|reflexivity|discriminate|reflexivity].
Defined.

(** ** The cache under [set], [__call__] and [pop] *)

(** X3. A similarity stored with [set] under a pair of handles is what
    [__call__] returns for the two annotations in either order, without
    consulting the wrapped similarity and without changing the cache; and
    [pop] with the handles in either order hands the stored value back and
    removes the entry, so that the next [__call__] asks the wrapped
    similarity again. *)
Theorem cache_set_call_pop
    (sim_fn : Annotation -> Annotation -> M Q) (a b : Annotation) (v : Q)
    (st : Context) :
  ann_id a <> ann_id b ->
  let key := CachedSimilarityFunction._sort_key (ann_id a, ann_id b) in
  let stored := with_cache (fun c => <[key := v]> c) st in
  CachedSimilarityFunction.set (ann_id b, ann_id a) v st = Ok (tt, stored) /\
  CachedSimilarityFunction.call sim_fn a b stored = Ok (v, stored) /\
  CachedSimilarityFunction.call sim_fn b a stored = Ok (v, stored) /\
  (exists st',
     CachedSimilarityFunction.pop (ann_id b, ann_id a) stored = Ok (Some v, st') /\
     cache st' = delete key (cache st) /\
     CachedSimilarityFunction.call sim_fn a b st'
     = (cached_value <- sim_fn a b ;;
        st'' <- get_ctx ;;
        put_ctx (with_cache (fun c => <[key := cached_value]> c) st'') ;;;
        ret cached_value)%merge st').
Proof.
  intros Hne key stored.
  assert (Hkey : CachedSimilarityFunction._sort_key (ann_id b, ann_id a) = key)
    by apply _sort_key_comm.
  assert (Hget : cache stored !! key = Some v).
  { unfold stored. cbn [with_cache cache]. apply lookup_insert_eq. }
  split; [|split; [|split]].
  - unfold CachedSimilarityFunction.set, bind, get_ctx, put_ctx. rewrite Hkey.
    reflexivity.
  - unfold CachedSimilarityFunction.call. rewrite decide_False by exact Hne.
    unfold bind, get_ctx. fold key. rewrite Hget. reflexivity.
  - unfold CachedSimilarityFunction.call. rewrite decide_False by congruence.
    unfold bind, get_ctx. rewrite Hkey, Hget. reflexivity.
  - eexists. split; [|split].
    + unfold CachedSimilarityFunction.pop, bind, get_ctx, put_ctx, ret.
      rewrite Hkey, Hget. reflexivity.
    + unfold stored. cbn [with_cache cache]. apply delete_insert_eq.
    + unfold CachedSimilarityFunction.call. rewrite decide_False by exact Hne.
      fold key. unfold bind at 1. unfold get_ctx at 1.
      cbn [with_cache cache]. rewrite lookup_delete_eq. reflexivity.
Qed.

Lemma cache_set_call_pop_witness :
  CachedSimilarityFunction.call (fun _ _ => raise ValueError)
    SkeletonTriple.sk2 SkeletonTriple.sk1
    (with_cache (fun c => <[(1, 2) := 3 # 4]> c) empty_context)
  = Ok (3 # 4, with_cache (fun c => <[(1, 2) := 3 # 4]> c) empty_context).
Proof.
  refine (proj1 (proj2 (cache_set_call_pop (fun _ _ => raise ValueError)
                          SkeletonTriple.sk2 SkeletonTriple.sk1 (3 # 4)
                          empty_context _))).
  discriminate.
Defined.

(** ** Validation of the consensus settings *)

(** The range [validate] imposes on the value of a key. *)
Definition in_range (k : string) (v : Q) : Prop :=
  if ConsensusSettingsSerializer.endswith k "_threshold" then (0 <= v /\ v <= 1)%Q
  else if String.eqb k "quorum" then (0 <= v /\ v <= 10)%Q
  else if String.eqb k "sigma" then ((1 # 20) <= v /\ v <= (1 # 5))%Q
  else True.

Lemma between_spec lo hi v :
  ConsensusSettingsSerializer.between lo hi v = true <-> (lo <= v /\ v <= hi)%Q.
Proof.
  unfold ConsensusSettingsSerializer.between.
  rewrite andb_true_iff, !Qle_bool_iff. reflexivity.
Qed.

Lemma check_None k v :
  ConsensusSettingsSerializer.check k v = None <-> in_range k v.
Proof.
  unfold ConsensusSettingsSerializer.check, in_range.
  destruct (ConsensusSettingsSerializer.endswith k "_threshold").
  - rewrite <- between_spec.
    destruct (ConsensusSettingsSerializer.between 0 1 v); simpl; split;
      intros; congruence.
  - destruct (String.eqb k "quorum").
    + rewrite <- between_spec.
      destruct (ConsensusSettingsSerializer.between 0 10 v); simpl; split;
        intros; congruence.
    + destruct (String.eqb k "sigma"); [|tauto].
      rewrite <- between_spec.
      destruct (ConsensusSettingsSerializer.between (1 # 20) (1 # 5) v); simpl; split;
        intros; congruence.
Qed.

Lemma validate_loop_None items :
  ConsensusSettingsSerializer.validate_loop items = None <->
  forall k v, In (k, v) items -> in_range k v.
Proof.
  induction items as [|[k v] items IH]; simpl.
  - split; [intros _ k v []|reflexivity].
  - destruct (ConsensusSettingsSerializer.check k v) as [detail|] eqn:Hc.
    + split; [discriminate|]. intros H. exfalso.
      assert (Hr : in_range k v) by (apply H; left; reflexivity).
      apply check_None in Hr. congruence.
    + rewrite IH. apply check_None in Hc. split.
      * intros H k' v' [[= <- <-]|Hin]; [exact Hc|apply H; exact Hin].
      * intros H k' v' Hin. apply H. right. exact Hin.
Qed.

(** X4. [ConsensusSettingsSerializer.validate] accepts exactly the
    updates that are in range: when it returns data, the data is what the
    base validation returns for the unchanged [attrs], and every threshold
    given lies in [0, 1], a quorum in [0, 10] and a sigma in [0.05, 0.2];
    when all values given are in range, [validate] is the base validation
    of the unchanged [attrs]; and when some value is out of range, the
    error is about the first such key and the base validation is not
    consulted. *)
Theorem validate_accepts_exactly_in_range
    (super_validate : odict string Q ->
                      ConsensusSettingsSerializer.Outcome (odict string Q))
    (attrs : odict string Q) :
  (forall out,
     ConsensusSettingsSerializer.validate super_validate attrs
       = ConsensusSettingsSerializer.Valid out ->
     super_validate attrs = ConsensusSettingsSerializer.Valid out /\
     (forall v, In ("iou_threshold", v) attrs -> (0 <= v /\ v <= 1)%Q) /\
     (forall v, In ("agreement_score_threshold", v) attrs -> (0 <= v /\ v <= 1)%Q) /\
     (forall v, In ("quorum", v) attrs -> (0 <= v /\ v <= 10)%Q) /\
     (forall v, In ("sigma", v) attrs -> ((1 # 20) <= v /\ v <= (1 # 5))%Q)) /\
  ((forall k v, In (k, v) attrs -> in_range k v) ->
   ConsensusSettingsSerializer.validate super_validate attrs = super_validate attrs) /\
  (forall pre k v post,
     attrs = pre ++ (k, v) :: post ->
     (forall k' v', In (k', v') pre -> in_range k' v') ->
     ~ in_range k v ->
     exists range,
       ConsensusSettingsSerializer.validate super_validate attrs
       = ConsensusSettingsSerializer.ValidationError
           (String.append k (String.append " must be in the range " range))).
Proof.
  split; [|split].
  - intros out. unfold ConsensusSettingsSerializer.validate.
    destruct (ConsensusSettingsSerializer.validate_loop attrs) eqn:Hloop; [discriminate|].
    intros Hsuper. split; [exact Hsuper|].
    pose proof (proj1 (validate_loop_None attrs) Hloop) as Hall.
    split; [|split; [|split]]; intros v Hin; exact (Hall _ _ Hin).
  - intros Hall. unfold ConsensusSettingsSerializer.validate.
    rewrite (proj2 (validate_loop_None attrs) Hall). reflexivity.
  - intros pre k v post -> Hpre Hbad.
    unfold ConsensusSettingsSerializer.validate.
    assert (Hloop : ConsensusSettingsSerializer.validate_loop (pre ++ (k, v) :: post)
                    = ConsensusSettingsSerializer.check k v).
    { induction pre as [|[k0 v0] pre IH]; simpl.
      - destruct (ConsensusSettingsSerializer.check k v) eqn:Hc; [reflexivity|].
        exfalso. apply Hbad, check_None. exact Hc.
      - rewrite (proj2 (check_None k0 v0)) by (apply Hpre; left; reflexivity).
        apply IH. intros k' v' Hin. apply Hpre. right. exact Hin. }
    rewrite Hloop. unfold ConsensusSettingsSerializer.check.
    unfold in_range in Hbad.
    destruct (ConsensusSettingsSerializer.endswith k "_threshold").
    + rewrite <- between_spec in Hbad.
      destruct (ConsensusSettingsSerializer.between 0 1 v); [contradiction|].
      exists "[0; 1]". reflexivity.
    + destruct (String.eqb k "quorum").
      * rewrite <- between_spec in Hbad.
        destruct (ConsensusSettingsSerializer.between 0 10 v); [contradiction|].
        exists "[0; 10]". reflexivity.
      * destruct (String.eqb k "sigma"); [|contradiction].
        rewrite <- between_spec in Hbad.
        destruct (ConsensusSettingsSerializer.between (1 # 20) (1 # 5) v);
          [contradiction|].
        exists "[0.05; 0.2]". reflexivity.
Qed.

Lemma validate_accepts_exactly_in_range_witness :
  ConsensusSettingsSerializer.validate SettingsExample.super_validate SettingsExample.good
  = ConsensusSettingsSerializer.Valid SettingsExample.good /\
  exists range,
    ConsensusSettingsSerializer.validate SettingsExample.super_validate SettingsExample.bad
    = ConsensusSettingsSerializer.ValidationError
        (String.append "quorum" (String.append " must be in the range " range)).
Proof.
  split.
  - apply (proj1 (proj2 (validate_accepts_exactly_in_range
                           SettingsExample.super_validate SettingsExample.good))).
    intros k v Hin. simpl in Hin.
    destruct Hin as [[= <- <-]|[[= <- <-]|[[= <- <-]|[[= <- <-]|[]]]]];
      vm_compute; split; discriminate.
  - apply (proj2 (proj2 (validate_accepts_exactly_in_range
                           SettingsExample.super_validate SettingsExample.bad))
             [("iou_threshold", 2 # 5)] "quorum" (11 # 1) [("sigma", 1 # 1)]).
    + reflexivity.
    + intros k v [[= <- <-]|[]]. vm_compute. split; discriminate.
    + vm_compute. intros [_ H]. apply H. reflexivity.
Defined.

(** ** The scores [merge_cluster_shape] accumulates *)

(** The dataset an annotation belongs to, through the two indexes. *)
Definition source_of_ann (st : Context) (a : Annotation) : option Z :=
  match _ann_map st !! ann_id a with
  | Some item => _item_map st !! item
  | None => None
  end.

(** No similarity in the cache exceeds 1. *)
Definition cache_bounded (st : Context) : Prop :=
  forall k v, cache st !! k = Some v -> (v <= 1)%Q.

(** Two states with the same indexes. *)
Definition same_indexes (s s' : Context) : Prop :=
  _ann_map s' = _ann_map s /\ _item_map s' = _item_map s.

Lemma max0_in_unit d : (d <= 1)%Q -> in_unit (max0 d).
Proof.
  intros Hd. unfold max0, in_unit, Qltb.
  destruct (Qle_bool d 0) eqn:Hle; simpl.
  - split; [apply Qle_refl|unfold Qle; simpl; lia].
  - split; [|exact Hd].
    destruct (Qlt_le_dec 0 d) as [Hlt|Hge]; [apply Qlt_le_weak; exact Hlt|].
    apply Qle_bool_iff in Hge. congruence.
Qed.

Lemma get_ann_source_ok a st k st' :
  get_ann_source (ann_id a) st = Ok (k, st') ->
  st' = st /\ source_of_ann st a = Some k.
Proof.
  unfold get_ann_source, source_of_ann, bind, get_ctx, gmap_item.
  destruct (_ann_map st !! ann_id a) as [item|]; [|discriminate].
  unfold ret. destruct (_item_map st !! item) as [k'|]; [|discriminate].
  intros [= <- <-]. auto.
Qed.

Section accumulated_scores.
Variable sim_fn : Annotation -> Annotation -> M Q.
Hypothesis sim_fn_bounded : forall a b s d s',
  sim_fn a b s = Ok (d, s') -> (d <= 1)%Q /\ s' = s.

Lemma distance_bounded a b s d s' :
  cache_bounded s ->
  distance sim_fn a b s = Ok (d, s') ->
  (d <= 1)%Q /\ cache_bounded s' /\ same_indexes s s' /\
  dataset_mean_consensus_score s' = dataset_mean_consensus_score s.
Proof.
  intros Hc. unfold distance, CachedSimilarityFunction.call.
  destruct (decide (ann_id a = ann_id b)) as [_|_].
  - unfold ret. intros [= <- <-].
    split; [unfold Qle; simpl; lia|]. repeat split. exact Hc.
  - unfold bind at 1. unfold get_ctx at 1.
    destruct (cache s !! _) as [v|] eqn:Hv.
    + unfold ret. intros [= <- <-]. split; [exact (Hc _ _ Hv)|]. repeat split. exact Hc.
    + unfold bind at 1.
      destruct (sim_fn a b s) as [[w s1]|] eqn:Hs; [|discriminate].
      apply sim_fn_bounded in Hs as [Hw ->].
      unfold bind, get_ctx, put_ctx, ret. intros [= <- <-].
      split; [exact Hw|]. split; [|repeat split].
      intros k v. cbn [with_cache cache].
      destruct (decide (CachedSimilarityFunction._sort_key (ann_id a, ann_id b) = k))
        as [->|Hne].
      * rewrite lookup_insert_eq. intros [= <-]. exact Hw.
      * rewrite lookup_insert_ne by exact Hne. apply Hc.
Qed.

(** The members of [cluster] that come from the dataset [k]. *)
Definition members_of (st : Context) (k : Z) (cluster : list Annotation)
    : list Annotation :=
  List.filter (fun a => bool_decide (source_of_ann st a = Some k)) cluster.

Lemma append_loop shape cluster : forall st st',
  cache_bounded st ->
  for_each cluster tt (fun _ ann =>
    dataset_id <- get_ann_source (ann_id ann) ;;
    d <- distance sim_fn ann shape ;;
    append_consensus_score dataset_id (max0 d)) st = Ok (tt, st') ->
  cache_bounded st' /\ same_indexes st st' /\
  forall k l,
    dataset_mean_consensus_score st !! k = Some (Scores l) ->
    exists extra,
      dataset_mean_consensus_score st' !! k = Some (Scores (l ++ extra)) /\
      Forall in_unit extra /\
      length extra = length (members_of st k cluster).
Proof.
  induction cluster as [|a cluster IH]; intros st st' Hc; cbn [for_each].
  - unfold ret. intros [= <-]. split; [exact Hc|]. split; [split; reflexivity|].
    intros k l Hl. exists []. rewrite app_nil_r. repeat split; [exact Hl|constructor].
  - unfold bind at 1. unfold bind at 1.
    destruct (get_ann_source (ann_id a) st) as [[k0 s0]|] eqn:Hsrc; [|discriminate].
    apply get_ann_source_ok in Hsrc as [-> Hk0].
    unfold bind at 1.
    destruct (distance sim_fn a shape st) as [[d s1]|] eqn:Hd; [|discriminate].
    apply (distance_bounded _ _ _ _ _ Hc) in Hd as (Hd1 & Hc1 & [Ha1 Hi1] & Hs1).
    destruct (append_consensus_score k0 (max0 d) s1) as [[[] s2]|] eqn:Happ;
      [|discriminate].
    intros Hrest.
    assert (Happ' : exists l0,
               default (Scores []) (dataset_mean_consensus_score s1 !! k0) = Scores l0 /\
               s2 = with_scores (fun m => <[k0 := Scores (l0 ++ [max0 d])]> m) s1).
    { revert Happ. unfold append_consensus_score, bind, get_ctx.
      destruct (default (Scores []) (dataset_mean_consensus_score s1 !! k0))
        as [l0|m]; [|discriminate].
      unfold put_ctx. intros [= <-]. exists l0. auto. }
    destruct Happ' as (l0 & Hl0 & ->).
    apply IH in Hrest as (Hc2 & [Ha2 Hi2] & Hext); [|exact Hc1].
    cbn [with_scores _ann_map _item_map] in Ha2, Hi2.
    split; [exact Hc2|]. split; [split; congruence|].
    intros k l Hl.
    assert (Hsame : forall b, source_of_ann
                      (with_scores (fun m => <[k0 := Scores (l0 ++ [max0 d])]> m) s1) b
                    = source_of_ann st b).
    { intros b. unfold source_of_ann. cbn [with_scores _ann_map _item_map].
      rewrite Ha1, Hi1. reflexivity. }
    assert (Hmem : members_of
                     (with_scores (fun m => <[k0 := Scores (l0 ++ [max0 d])]> m) s1)
                     k cluster = members_of st k cluster).
    { unfold members_of. apply filter_ext. intros b. rewrite Hsame. reflexivity. }
    unfold members_of at 1. cbn [List.filter]. fold (members_of st k cluster).
    rewrite Hk0.
    destruct (decide (k0 = k)) as [->|Hne].
    + rewrite bool_decide_eq_true_2 by reflexivity.
      rewrite Hs1, Hl in Hl0. simpl in Hl0. injection Hl0 as <-.
      destruct (Hext k (l ++ [max0 d])) as (extra & He & Hu & Hlen).
      { cbn [with_scores dataset_mean_consensus_score]. apply lookup_insert_eq. }
      exists (max0 d :: extra). rewrite <- app_assoc in He.
      split; [exact He|]. split.
      * constructor; [apply max0_in_unit; exact Hd1|exact Hu].
      * simpl. rewrite Hlen, Hmem. reflexivity.
    + rewrite bool_decide_eq_false_2 by congruence.
      destruct (Hext k l) as (extra & He & Hu & Hlen).
      { cbn [with_scores dataset_mean_consensus_score].
        rewrite lookup_insert_ne by exact Hne. rewrite Hs1. exact Hl. }
      exists extra. split; [exact He|]. split; [exact Hu|].
      rewrite Hlen, Hmem. reflexivity.
Qed.

Lemma score_loop shape cluster : forall acc st total st',
  cache_bounded st ->
  for_each cluster acc (fun acc s =>
    d <- distance sim_fn shape s ;; ret (acc + max0 d)%Q) st = Ok (total, st') ->
  cache_bounded st' /\ same_indexes st st' /\
  dataset_mean_consensus_score st' = dataset_mean_consensus_score st /\
  (acc <= total /\ total <= acc + inject_Z (Z.of_nat (length cluster)))%Q.
Proof.
  induction cluster as [|s cluster IH]; intros acc st total st' Hc; cbn [for_each].
  - unfold ret. intros [= <- <-]. split; [exact Hc|]. split; [split; reflexivity|].
    split; [reflexivity|]. simpl. split; [apply Qle_refl|].
    rewrite Qplus_0_r. apply Qle_refl.
  - unfold bind at 1. unfold bind at 1.
    destruct (distance sim_fn shape s st) as [[d s1]|] eqn:Hd; [|discriminate].
    apply (distance_bounded _ _ _ _ _ Hc) in Hd as (Hd1 & Hc1 & [Ha1 Hi1] & Hs1).
    unfold ret at 1. intros Hrest.
    apply IH in Hrest as (Hc2 & [Ha2 Hi2] & Hs2 & Hlo & Hhi); [|exact Hc1].
    split; [exact Hc2|]. split; [split; congruence|]. split; [congruence|].
    destruct (max0_in_unit d Hd1) as [H0 H1].
    change (length (s :: cluster)) with (S (length cluster)).
    rewrite Nat2Z.inj_succ. unfold Z.succ. rewrite inject_Z_plus.
    split.
    + eapply Qle_trans; [|exact Hlo].
      rewrite <- (Qplus_0_r acc) at 1. apply Qplus_le_compat; [apply Qle_refl|exact H0].
    + eapply Qle_trans; [exact Hhi|].
      assert (E : (acc + (inject_Z (Z.of_nat (length cluster)) + inject_Z 1)
                   == acc + 1 + inject_Z (Z.of_nat (length cluster)))%Q) by ring.
      rewrite E.
      apply Qplus_le_compat; [|apply Qle_refl].
      apply Qplus_le_compat; [apply Qle_refl|exact H1].
Qed.

End accumulated_scores.

(** X5. [_ShapeMerger.merge_cluster_shape], for a similarity that reads
    the context without changing it and never exceeds 1, over a cache
    that holds no value above 1: the representative it returns is a member
    of the cluster; the score it returns lies between 0 and 1; and the
    running list of every source is extended by exactly one score per
    member of the cluster that comes from this source, each between 0 and
    1, while the indexes of the context stay as they are. So every running
    list stays a list of scores in [0, 1]. *)
Theorem merge_cluster_shape_accumulates
    (sim_fn : Annotation -> Annotation -> M Q)
    (mean_box_iou : list Annotation -> Annotation -> Q)
    (cluster : list Annotation) (st st' : Context)
    (shape : Annotation) (shape_score : Q) :
  (forall a b s d s', sim_fn a b s = Ok (d, s') -> (d <= 1)%Q /\ s' = s) ->
  cache_bounded st ->
  merge_cluster_shape (distance sim_fn) mean_box_iou cluster st
    = Ok ((shape, shape_score), st') ->
  In shape cluster /\
  in_unit shape_score /\
  cache_bounded st' /\
  same_indexes st st' /\
  (forall k l,
     dataset_mean_consensus_score st !! k = Some (Scores l) ->
     exists extra,
       dataset_mean_consensus_score st' !! k = Some (Scores (l ++ extra)) /\
       Forall in_unit extra /\
       length extra = length (members_of st k cluster)) /\
  (forall datasets, scores_ok datasets st -> scores_ok datasets st').
Proof.
  intros Hsim Hc. unfold merge_cluster_shape.
  unfold bind at 1.
  destruct (_merge_cluster_shape_mean_box_nearest mean_box_iou cluster st)
    as [[shape0 s0]|] eqn:Hrep; [|discriminate].
  assert (Hrep' : s0 = st /\ In shape0 cluster).
  { revert Hrep. unfold _merge_cluster_shape_mean_box_nearest.
    destruct cluster as [|a cluster']; [discriminate|].
    unfold bind at 1.
    destruct (get_item_media_dims (ann_id a) st) as [[[] s]|] eqn:Hdims; [|discriminate].
    assert (s = st) as ->.
    { revert Hdims. unfold get_item_media_dims, bind, get_ctx, gmap_item.
      destruct (_ann_map st !! ann_id a) as [item|]; [|discriminate].
      unfold ret. destruct (_item_map st !! item); [|discriminate].
      intros [= <-]. reflexivity. }
    destruct (enumerate _) as [|e es]; [discriminate|].
    unfold list_item.
    destruct ((a :: cluster') !! _) as [x|] eqn:Hx; [|discriminate].
    unfold ret. intros [= <- <-]. split; [reflexivity|].
    apply list_elem_of_In. eapply list_elem_of_lookup_2. exact Hx. }
  destruct Hrep' as [-> Hin].
  unfold bind at 1.
  destruct (for_each cluster tt _ st) as [[[] s1]|] eqn:Happ; [|discriminate].
  apply (append_loop _ Hsim _ _ _ _ Hc) in Happ as (Hc1 & [Ha1 Hi1] & Hext).
  unfold bind at 1. unfold shape_score_of. unfold bind at 1.
  destruct (for_each cluster 0%Q _ s1) as [[total s2]|] eqn:Hsum; [|discriminate].
  apply (score_loop _ Hsim _ _ _ _ _ _ Hc1) in Hsum
    as (Hc2 & [Ha2 Hi2] & Hs2 & Hlo & Hhi).
  unfold py_div.
  destruct (decide (Z.of_nat (length cluster) = 0)) as [|Hn]; [discriminate|].
  unfold ret. intros [= <- <- <-].
  split; [exact Hin|]. split; [|split; [exact Hc2|split; [split; congruence|split]]].
  - assert (Hpos : (0 < inject_Z (Z.of_nat (length cluster)))%Q).
    { unfold Qlt; simpl. lia. }
    split.
    + apply Qle_shift_div_l; [exact Hpos|]. rewrite Qmult_0_l. exact Hlo.
    + apply Qle_shift_div_r; [exact Hpos|]. rewrite Qmult_1_l.
      rewrite Qplus_0_l in Hhi. exact Hhi.
  - intros k l Hl. destruct (Hext k l Hl) as (extra & He & Hu & Hlen).
    exists extra. rewrite Hs2. auto.
  - intros datasets Hok d Hd. destruct (Hok d Hd) as (l & Hl & Hu).
    destruct (Hext _ l Hl) as (extra & He & Hue & _).
    exists (l ++ extra). rewrite Hs2. split; [exact He|].
    apply Forall_app. auto.
Qed.

Lemma merge_cluster_shape_accumulates_witness :
  exists shape shape_score st',
    merge_cluster_shape (distance (fun _ _ => ret (4 # 5))) (fun _ _ => 1%Q)
                        VoteExample.cluster VoteExample.st
      = Ok ((shape, shape_score), st') /\
    In shape VoteExample.cluster /\ in_unit shape_score.
Proof.
  eexists. eexists. eexists. split; [vm_compute; reflexivity|].
  refine (let H := merge_cluster_shape_accumulates (fun _ _ => ret (4 # 5))
                     (fun _ _ => 1%Q) VoteExample.cluster VoteExample.st _ _ _ _ _ _ in
          conj (proj1 H) (proj1 (proj2 H))).
  - intros a b s d s'. unfold ret. intros [= <- <-].
    split; [unfold Qle; simpl; lia|reflexivity].
  - intros k v Hk. vm_compute in Hk. discriminate.
  - vm_compute. reflexivity.
Defined.

(** ** The indexes of the context while an item is merged *)

Lemma od_set_fresh {K V} `{EqDecision K} (d : odict K V) (k : K) (v : V) :
  ~ In k (od_keys d) -> od_set d k v = d ++ [(k, v)].
Proof.
  unfold od_keys. induction d as [|[k0 v0] d IH]; simpl; [reflexivity|].
  intros Hk. destruct (decide (k0 = k)) as [->|Hne]; [exfalso; auto|].
  rewrite IH by auto. reflexivity.
Qed.

(** With distinct dataset objects, the items matched under a key are
    those the datasets hold under it, in the order of the datasets. *)
Lemma items_of_eq datasets key :
  NoDup (map ds_pyid datasets) ->
  items_of datasets key
  = omap (fun d => match dataset_get d key with
                   | Some item => Some (ds_pyid d, item)
                   | None => None
                   end) datasets.
Proof.
  unfold items_of.
  assert (Hgen : forall (l : list Dataset) acc,
             NoDup (map ds_pyid l) ->
             (forall d, In d l -> ~ In (ds_pyid d) (od_keys acc)) ->
             fold_left (fun items d =>
                          match dataset_get d key with
                          | Some item => od_set items (ds_pyid d) item
                          | None => items
                          end) l acc
             = acc ++ omap (fun d => match dataset_get d key with
                                     | Some item => Some (ds_pyid d, item)
                                     | None => None
                                     end) l).
  { induction l as [|d l IH]; intros acc Hnd Hacc.
    - simpl. rewrite app_nil_r. reflexivity.
    - apply NoDup_cons in Hnd as [Hd Hnd].
      assert (Hfresh : ~ In (ds_pyid d) (map ds_pyid l)).
      { intros H. apply Hd. apply list_elem_of_In. exact H. }
      cbn [fold_left omap list_omap].
      destruct (dataset_get d key) as [item|] eqn:Hg.
      + rewrite od_set_fresh by (apply Hacc; left; reflexivity).
        rewrite IH; [rewrite <- app_assoc; reflexivity|exact Hnd|].
        intros d' Hd'. unfold od_keys. rewrite map_app. intros H.
        apply in_app_or in H as [H|[H|[]]].
        * exact (Hacc d' (or_intror Hd') H).
        * apply Hfresh. simpl in H. rewrite H. apply in_map. exact Hd'.
      + apply IH; [exact Hnd|]. intros d' Hd'. apply Hacc. right. exact Hd'. }
  intros Hnd. rewrite Hgen; [reflexivity|exact Hnd|]. intros d _ [].
Qed.

Lemma fold_insert_lookup {A V} (key : A -> Z) (val : A -> V) (W : list A) :
  forall (m : gmap Z V) k v,
    (forall e, In e W -> key e = k -> val e = v) ->
    (exists e, In e W /\ key e = k) \/ m !! k = Some v ->
    fold_left (fun m e => <[key e := val e]> m) W m !! k = Some v.
Proof.
  induction W as [|e W IH]; intros m k v Hcons Hsrc; simpl.
  - destruct Hsrc as [(e & [] & _)|H]. exact H.
  - apply IH; [intros e' He'; apply Hcons; right; exact He'|].
    destruct (decide (key e = k)) as [Hk|Hk].
    + right. rewrite Hk, (Hcons e (or_introl eq_refl) Hk). apply lookup_insert_eq.
    + destruct Hsrc as [(e' & [<-|He'] & Hk')|H].
      * contradiction.
      * left. eauto.
      * right. rewrite lookup_insert_ne by exact Hk. exact H.
Qed.

(** An object that occurs once among the parts of a list of owners has
    one owner. *)
Lemma concat_owner {X Y} (f : Y -> Z) (g : X -> list Y) (ls : list X) d1 d2 x y :
  NoDup (map f (concat (map g ls))) ->
  In d1 ls -> In d2 ls -> In x (g d1) -> In y (g d2) -> f x = f y -> d1 = d2.
Proof.
  induction ls as [|d ls IH]; [intros _ []|].
  simpl. rewrite map_app. intros Hnd H1 H2 Hx Hy Hxy.
  apply NoDup_app in Hnd as (_ & Hdisj & Hnd).
  assert (Hhead : forall z, In z (g d) -> list_elem_of (f z) (map f (g d))).
  { intros z Hz. apply list_elem_of_In, in_map. exact Hz. }
  assert (Htail : forall d' z, In d' ls -> In z (g d') ->
                    list_elem_of (f z) (map f (concat (map g ls)))).
  { intros d' z Hd' Hz. apply list_elem_of_In, in_map, in_concat.
    exists (g d'). split; [apply in_map; exact Hd'|exact Hz]. }
  destruct H1 as [<-|H1], H2 as [<-|H2].
  - reflexivity.
  - exfalso. apply (Hdisj (f x)); [apply Hhead; exact Hx|].
    rewrite Hxy. eapply Htail; eassumption.
  - exfalso. apply (Hdisj (f y)); [apply Hhead; exact Hy|].
    rewrite <- Hxy. eapply Htail; eassumption.
  - eapply IH; eassumption.
Qed.

Lemma dataset_get_In d key item :
  dataset_get d key = Some item -> In item (ds_items d).
Proof. unfold dataset_get. intros H. apply find_some in H as [H _]. exact H. Qed.

Lemma item_ids_In datasets d key item :
  In d datasets -> dataset_get d key = Some item -> In key (item_ids datasets).
Proof.
  intros Hd Hg. unfold item_ids. apply list_elem_of_In.
  rewrite merge_sort_Permutation. apply elem_of_remove_dups, list_elem_of_In.
  apply in_concat. exists (map item_key (ds_items d)). split.
  - apply (in_map (fun d => map item_key (ds_items d))). exact Hd.
  - rewrite <- (dataset_get_key _ _ _ Hg). apply in_map.
    eapply dataset_get_In. exact Hg.
Qed.

Section cross_references.
Variable datasets : list Dataset.
Hypothesis datasets_distinct : NoDup (map ds_pyid datasets).
Hypothesis items_distinct : NoDup (map item_pyid (concat (map ds_items datasets))).
Hypothesis annotations_distinct :
  NoDup (map ann_id (concat (map annotations (concat (map ds_items datasets))))).

Lemma items_of_In key e :
  In e (items_of datasets key) <->
  exists d, In d datasets /\ dataset_get d key = Some (snd e) /\ fst e = ds_pyid d.
Proof.
  rewrite (items_of_eq _ _ datasets_distinct), <- list_elem_of_In, list_elem_of_omap.
  split.
  - intros (d & Hd & He). apply list_elem_of_In in Hd.
    destruct (dataset_get d key) as [item|] eqn:Hg; [|discriminate].
    injection He as <-. exists d. auto.
  - intros (d & Hd & Hg & Hk). exists d. split; [apply list_elem_of_In; exact Hd|].
    rewrite Hg. destruct e as [k it]. simpl in *. subst. reflexivity.
Qed.

(** [item_map] of [match_items] sends every matched item to its dataset. *)
Lemma item_map_lookup d key item :
  In d datasets -> dataset_get d key = Some item ->
  snd (match_items datasets) !! item_pyid item = Some (ds_pyid d).
Proof.
  intros Hd Hg. unfold match_items. cbn [snd].
  pose proof (item_ids_In _ _ _ _ Hd Hg) as Hkey.
  assert (Hgen : forall (keys : list ItemKey) (m : gmap Z Z),
             In key keys \/ m !! item_pyid item = Some (ds_pyid d) ->
             fold_left (fun m (e : ItemKey * odict Z DatasetItem) =>
                          fold_left (fun m di => <[item_pyid (snd di) := fst di]> m)
                                    (snd e) m)
                       (map (fun key => (key, items_of datasets key)) keys) m
               !! item_pyid item = Some (ds_pyid d)).
  { induction keys as [|k keys IH]; intros m Hsrc; cbn [map fold_left].
    - destruct Hsrc as [[]|H]. exact H.
    - cbn [snd]. apply IH.
      assert (Hcons : forall e, In e (items_of datasets k) ->
                        item_pyid (snd e) = item_pyid item -> fst e = ds_pyid d).
      { intros e He Hpy. apply items_of_In in He as (d' & Hd' & Hg' & ->).
        f_equal. eapply (concat_owner item_pyid ds_items datasets);
          [exact items_distinct|exact Hd'|exact Hd| | |exact Hpy].
        - eapply dataset_get_In. exact Hg'.
        - eapply dataset_get_In. exact Hg. }
      destruct (decide (k = key)) as [->|Hne].
      + right. apply (fold_insert_lookup (fun di => item_pyid (snd di)) fst);
          [exact Hcons|].
        left. exists (ds_pyid d, item). split; [|reflexivity].
        apply items_of_In. exists d. auto.
      + destruct Hsrc as [[Heq|Hin]|H]; [contradiction|left; exact Hin|].
        right. apply (fold_insert_lookup (fun di => item_pyid (snd di)) fst);
          [exact Hcons|right; exact H]. }
  apply Hgen. left. exact Hkey.
Qed.

(** [_ann_map] after the first loop of [merge_items] sends every
    annotation of the matched items to its item. *)
Lemma ann_map_lookup key e a :
  In e (items_of datasets key) -> In a (annotations (snd e)) ->
  forall m : gmap Z Z,
    fold_left (fun m (e : Z * DatasetItem) =>
                 fold_left (fun m a => <[ann_id a := item_pyid (snd e)]> m)
                           (annotations (snd e)) m)
              (items_of datasets key) m
      !! ann_id a = Some (item_pyid (snd e)).
Proof.
  intros He Ha.
  assert (Hall : forall e', In e' (items_of datasets key) ->
                   In (snd e') (concat (map ds_items datasets))).
  { intros e' He'. apply items_of_In in He' as (d' & Hd' & Hg' & _).
    apply in_concat. exists (ds_items d'). split; [apply in_map; exact Hd'|].
    eapply dataset_get_In. exact Hg'. }
  assert (Hgen : forall (l : list (Z * DatasetItem)) (m : gmap Z Z),
             (forall e', In e' l -> In e' (items_of datasets key)) ->
             In e l \/ m !! ann_id a = Some (item_pyid (snd e)) ->
             fold_left (fun m (e : Z * DatasetItem) =>
                          fold_left (fun m a => <[ann_id a := item_pyid (snd e)]> m)
                                    (annotations (snd e)) m) l m
               !! ann_id a = Some (item_pyid (snd e))).
  { induction l as [|e0 l IH]; intros m Hsub Hsrc; cbn [fold_left].
    - destruct Hsrc as [[]|H]. exact H.
    - apply IH; [intros e' He'; apply Hsub; right; exact He'|].
      assert (Hcons : forall a', In a' (annotations (snd e0)) ->
                        ann_id a' = ann_id a ->
                        item_pyid (snd e0) = item_pyid (snd e)).
      { intros a' Ha' Hid. f_equal.
        eapply (concat_owner ann_id annotations (concat (map ds_items datasets)));
          [exact annotations_distinct| | |exact Ha'|exact Ha|exact Hid].
        - apply Hall, Hsub. left. reflexivity.
        - apply Hall. exact He. }
      destruct Hsrc as [[->|Hin]|H].
      + right. apply (fold_insert_lookup ann_id (fun _ => item_pyid (snd e)));
          [intros; reflexivity|].
        left. exists a. auto.
      + left. exact Hin.
      + right. apply (fold_insert_lookup ann_id (fun _ => item_pyid (snd e0)));
          [exact Hcons|right; exact H]. }
  intros m. apply Hgen; [auto|left; exact He].
Qed.

End cross_references.

Lemma register_annotations_loop (l : list (Z * DatasetItem)) :
  forall acc st,
    for_each l acc
      (fun sources e =>
         st <- get_ctx ;;
         put_ctx (with_ann_map (fun m =>
            fold_left (fun m a => <[ann_id a := item_pyid (snd e)]> m)
                      (annotations (snd e)) m) st) ;;;
         ret (sources ++ [annotations (snd e)])) st
    = Ok (acc ++ map (fun e => annotations (snd e)) l,
          with_ann_map (fun m =>
            fold_left (fun m (e : Z * DatasetItem) =>
                         fold_left (fun m a => <[ann_id a := item_pyid (snd e)]> m)
                                   (annotations (snd e)) m) l m) st).
Proof.
  induction l as [|e l IH]; intros acc st; cbn [for_each].
  - unfold ret. rewrite app_nil_r. destruct st; reflexivity.
  - unfold bind at 1. unfold bind at 1. unfold get_ctx at 1. unfold bind at 1.
    unfold put_ctx at 1. unfold ret at 1. rewrite IH.
    cbn [map fold_left]. rewrite <- app_assoc. reflexivity.
Qed.

(** X6. While [merge_items] merges the items matched under a key, the
    indexes of the context resolve every annotation of these items to its
    source: in the state in which [merge_annotations] is called,
    [get_ann_dataset_id(id(a))] returns the position of the dataset whose
    item holds [a], for every annotation [a] of every matched item, and
    the sources handed over are the annotation lists of these items in the
    order of the datasets. Datasets, items and annotations are distinct
    objects, and the context is as [__call__] sets it up. *)
Theorem merge_items_resolves_sources
    (merge_annotations : list (list Annotation) -> M (list Annotation))
    (output_conf_thresh : Q) (datasets : list Dataset) (key : ItemKey)
    (st st' : Context) (item : MergedItem) :
  NoDup (map ds_pyid datasets) ->
  NoDup (map item_pyid (concat (map ds_items datasets))) ->
  NoDup (map ann_id (concat (map annotations (concat (map ds_items datasets))))) ->
  _item_map st = snd (match_items datasets) ->
  _dataset_map st = index_map datasets ->
  merge_items merge_annotations output_conf_thresh (items_of datasets key) st
    = Ok (item, st') ->
  exists st1 anns,
    merge_annotations
      (omap (fun d => match dataset_get d key with
                      | Some it => Some (annotations it)
                      | None => None
                      end) datasets) st1 = Ok (anns, st') /\
    forall i d it a,
      datasets !! i = Some d -> dataset_get d key = Some it -> In a (annotations it) ->
      get_ann_dataset_id (ann_id a) st1 = Ok (i, st1).
Proof.
  intros Hds Hitems Hanns Him Hdm. unfold merge_items.
  destruct (items_of datasets key) as [|[k0 first] rest] eqn:Hgroup; [discriminate|].
  rewrite <- Hgroup. unfold bind at 1. rewrite register_annotations_loop.
  set (st1 := with_ann_map _ st).
  unfold bind at 1.
  destruct (merge_annotations _ st1) as [[anns st2]|] eqn:Hma; [|discriminate].
  unfold bind at 1.
  destruct (above_floor output_conf_thresh anns st2) as [[kept st3]|] eqn:Hfl;
    [|discriminate].
  apply above_floor_ok in Hfl as (-> & -> & _).
  unfold ret. intros [= _ <-].
  exists st1, anns. split.
  - rewrite <- Hma. f_equal.
    rewrite (items_of_eq _ _ Hds). cbn [app].
    clear. induction datasets as [|d l IH]; [reflexivity|].
    cbn [omap list_omap]. destruct (dataset_get d key); cbn [map]; rewrite IH; reflexivity.
  - intros i d it a Hi Hg Ha.
    assert (Hd : In d datasets).
    { apply list_elem_of_In. eapply list_elem_of_lookup_2. exact Hi. }
    assert (He : In (ds_pyid d, it) (items_of datasets key)).
    { apply (items_of_In _ Hds). exists d. auto. }
    unfold get_ann_dataset_id, get_ann_source, get_dataset_source_id.
    unfold bind, get_ctx, gmap_item.
    assert (H1 : _ann_map st1 !! ann_id a = Some (item_pyid it)).
    { unfold st1. cbn [with_ann_map _ann_map].
      apply (ann_map_lookup _ Hds Hanns key (ds_pyid d, it) a He Ha). }
    assert (H2 : _item_map st1 !! item_pyid it = Some (ds_pyid d)).
    { unfold st1. cbn [with_ann_map _item_map]. rewrite Him.
      apply (item_map_lookup _ Hds Hitems d key it Hd Hg). }
    assert (H3 : _dataset_map st1 !! ds_pyid d = Some i).
    { unfold st1. cbn [with_ann_map _dataset_map]. rewrite Hdm.
      apply index_map_lookup; [exact Hds|]. eauto. }
    rewrite H1. unfold ret at 1. rewrite H2. unfold ret at 1. rewrite H3. reflexivity.
Qed.

Lemma merge_items_resolves_sources_witness :
  exists st1,
    get_ann_dataset_id 32 st1 = Ok (2%nat, st1) /\
    get_ann_dataset_id 12 st1 = Ok (0%nat, st1).
Proof.
  destruct (merge_items MissingExample.merge_annotations 0
              (items_of MissingExample.datasets ("b", ""))
              (init_context MissingExample.datasets
                            (snd (match_items MissingExample.datasets)) empty_context))
    as [[item st']|e] eqn:Hrun; [|vm_compute in Hrun; discriminate].
  assert (Hds : NoDup (map ds_pyid MissingExample.datasets))
    by (apply (bool_decide_unpack _); vm_compute; exact I).
  assert (Hitems : NoDup (map item_pyid (concat (map ds_items MissingExample.datasets))))
    by (apply (bool_decide_unpack _); vm_compute; exact I).
  assert (Hanns : NoDup (map ann_id (concat (map annotations
                           (concat (map ds_items MissingExample.datasets))))))
    by (apply (bool_decide_unpack _); vm_compute; exact I).
  destruct (merge_items_resolves_sources MissingExample.merge_annotations 0
              MissingExample.datasets ("b", "")
              (init_context MissingExample.datasets
                            (snd (match_items MissingExample.datasets)) empty_context)
              st' item Hds Hitems Hanns eq_refl eq_refl Hrun)
    as (st1 & anns & _ & Href).
  exists st1. split.
  - eapply (Href 2%nat _ (MissingExample.frame 5 "b" 32)
                  (shape AnnotationType.bbox 32 0));
      [reflexivity|reflexivity|left; reflexivity].
  - eapply (Href 0%nat _ (MissingExample.frame 2 "b" 12)
                  (shape AnnotationType.bbox 12 0));
      [reflexivity|reflexivity|left; reflexivity].
Defined.

(** ** The cluster builder terminates and partitions the annotations *)

Lemma od_get_Some_In {K V} `{EqDecision K} (d : odict K V) (k : K) (v : V) :
  od_get d k = Some v -> In (k, v) d.
Proof.
  induction d as [|[k0 v0] d IH]; simpl; [discriminate|].
  destruct (decide (k0 = k)) as [->|_].
  - intros [= ->]. left. reflexivity.
  - intros H. right. apply IH. exact H.
Qed.

Lemma od_get_key {K V} `{EqDecision K} (d : odict K V) (k : K) :
  In k (od_keys d) -> exists v, od_get d k = Some v.
Proof.
  unfold od_keys. induction d as [|[k0 v0] d IH]; simpl; [intros []|].
  destruct (decide (k0 = k)) as [->|Hne]; [eauto|].
  intros [H|H]; [contradiction|apply IH; exact H].
Qed.

Lemma od_item_key {V} (d : odict Z V) (k : Z) (st : Context) :
  In k (od_keys d) -> exists v, od_item d k st = Ok (v, st) /\ In (k, v) d.
Proof.
  intros Hk. destruct (od_get_key d k Hk) as [v Hv]. exists v.
  unfold od_item. rewrite Hv. split; [reflexivity|].
  apply od_get_Some_In. exact Hv.
Qed.

Lemma fold_od_set_fresh (idx : nat) (s : list Annotation) :
  forall d : odict Z (Annotation * nat),
    NoDup (od_keys d ++ map ann_id s) ->
    fold_left (fun d a => od_set d (ann_id a) (a, idx)) s d
    = d ++ map (fun a => (ann_id a, (a, idx))) s.
Proof.
  induction s as [|a s IH]; intros d Hnd; simpl.
  - rewrite app_nil_r. reflexivity.
  - simpl in Hnd. rewrite od_set_fresh.
    + rewrite IH; [rewrite <- app_assoc; reflexivity|].
      unfold od_keys in *. rewrite map_app, <- app_assoc. exact Hnd.
    + apply NoDup_app in Hnd as (_ & Hdisj & _). intros H.
      apply (Hdisj (ann_id a)); [apply list_elem_of_In; exact H|left].
Qed.

Lemma build_id_segm_eq (srcs : list (list Annotation)) :
  forall idx (d : odict Z (Annotation * nat)),
    NoDup (od_keys d ++ map ann_id (concat srcs)) ->
    exists tail,
      build_id_segm idx srcs d = d ++ tail /\
      od_keys tail = map ann_id (concat srcs) /\
      map (fun e => fst (snd e)) tail = concat srcs.
Proof.
  induction srcs as [|s srcs IH]; intros idx d Hnd; simpl.
  - exists []. rewrite app_nil_r. auto.
  - simpl in Hnd. rewrite map_app, app_assoc in Hnd.
    rewrite fold_od_set_fresh by (apply NoDup_app in Hnd as (H & _ & _); exact H).
    destruct (IH (S idx) (d ++ map (fun a => (ann_id a, (a, idx))) s)) as (tail & He & Hk & Hv).
    { unfold od_keys in *. rewrite map_app, map_map. exact Hnd. }
    exists (map (fun a => (ann_id a, (a, idx))) s ++ tail).
    rewrite He, <- app_assoc. split; [reflexivity|].
    unfold od_keys in *. rewrite !map_app, !map_map, Hk, Hv. simpl.
    rewrite map_id. auto.
Qed.

(** The annotation a handle stands for. *)
Definition ann_of (id_segm : odict Z (Annotation * nat)) (i : Z) : Annotation :=
  match od_get id_segm i with
  | Some e => fst e
  | None => mkAnnotation i AnnotationType.label None ∅ 0
  end.

Lemma id_segm_facts (sources : list (list Annotation)) :
  NoDup (map ann_id (concat sources)) ->
  let id_segm := build_id_segm 0 sources [] in
  NoDup (od_keys id_segm) /\
  od_keys id_segm = map ann_id (concat sources) /\
  map (ann_of id_segm) (od_keys id_segm) = concat sources.
Proof.
  intros Hnd id_segm.
  destruct (build_id_segm_eq sources 0%nat [] Hnd) as (tail & He & Hk & Hv).
  simpl in He. fold id_segm in He. rewrite He.
  split; [rewrite Hk; exact Hnd|]. split; [exact Hk|].
  rewrite <- Hv. unfold od_keys. rewrite map_map. apply map_ext_in.
  intros [k v] Hin. unfold ann_of. simpl.
  rewrite (od_get_In tail k v); [reflexivity| |exact Hin].
  rewrite Hk. exact Hnd.
Qed.

Section partition.
Variable sim_fn : Annotation -> Annotation -> M Q.
Variable match_annotations_two_sources :
  list Annotation -> list Annotation -> M (list (Annotation * Annotation)).
Variable pick : list Z -> nat.
Variable sources : list (list Annotation).

Hypothesis sim_fn_returns : forall a b s, exists q s', sim_fn a b s = Ok (q, s').
Hypothesis matcher_returns : forall src_a src_b s,
  exists pairs s',
    match_annotations_two_sources src_a src_b s = Ok (pairs, s') /\
    forall p, In p pairs -> In (fst p) src_a /\ In (snd p) src_b.
Hypothesis handles_distinct : NoDup (map ann_id (concat sources)).

Let id_segm := build_id_segm 0 sources [].
Let ids := od_keys id_segm.

Lemma distance_returns a b s : exists q s', distance sim_fn a b s = Ok (q, s').
Proof.
  unfold distance, CachedSimilarityFunction.call.
  destruct (decide (ann_id a = ann_id b)); [unfold ret; eauto|].
  unfold bind at 1. unfold get_ctx at 1.
  destruct (cache s !! _) as [v|]; [unfold ret; eauto|].
  unfold bind at 1. destruct (sim_fn_returns a b s) as (q & s' & ->).
  unfold bind, get_ctx, put_ctx, ret. eauto.
Qed.

(** The adjacency lists: one per handle, holding handles only. *)
Definition adjacency_ok (adjacent : odict Z (list Z)) : Prop :=
  od_keys adjacent = ids /\
  forall k l, In (k, l) adjacent -> forall i, In i l -> In i ids.

Lemma source_ids src a : In src sources -> In a src -> In (ann_id a) ids.
Proof.
  intros Hsrc Ha. unfold ids, id_segm.
  rewrite (proj1 (proj2 (id_segm_facts sources handles_distinct))).
  apply in_map, in_concat. eauto.
Qed.

Lemma add_matches_ok matches : forall adjacent s,
  adjacency_ok adjacent ->
  (forall p, In p matches -> In (ann_id (fst p)) ids /\ In (ann_id (snd p)) ids) ->
  exists adjacent',
    add_matches adjacent matches s = Ok (adjacent', s) /\ adjacency_ok adjacent'.
Proof.
  unfold add_matches.
  induction matches as [|p matches IH]; intros adjacent s Hadj Hp; cbn [for_each].
  - exists adjacent. split; [reflexivity|exact Hadj].
  - destruct (Hp p (or_introl eq_refl)) as [Ha Hb].
    destruct Hadj as [Hkeys Hvals].
    destruct (od_item_key adjacent (ann_id (fst p)) s) as (l & Hl & Hin);
      [rewrite Hkeys; exact Ha|].
    unfold bind at 1. unfold bind at 1. rewrite Hl. unfold ret at 1.
    apply IH; [|intros p' Hp'; apply Hp; right; exact Hp'].
    split.
    + rewrite od_keys_set, bool_decide_eq_true_2; [exact Hkeys|].
      apply list_elem_of_In. rewrite Hkeys. exact Ha.
    + intros k l' Hkl i Hi. apply od_set_In in Hkl as [[= -> ->]|Hkl].
      * apply in_app_or in Hi as [Hi|[<-|[]]]; [|exact Hb].
        eapply Hvals; eassumption.
      * eapply Hvals; eassumption.
Qed.

Lemma match_pairwise_ok srcs : forall adjacent s,
  (forall src, In src srcs -> In src sources) ->
  adjacency_ok adjacent ->
  exists adjacent' s',
    match_pairwise match_annotations_two_sources srcs adjacent s = Ok (adjacent', s') /\
    adjacency_ok adjacent'.
Proof.
  induction srcs as [|src_a rest IH]; intros adjacent s Hsub Hadj; cbn [match_pairwise].
  - exists adjacent, s. split; [reflexivity|exact Hadj].
  - assert (Hinner : forall (l : list (list Annotation)) adjacent s,
               (forall src, In src l -> In src sources) ->
               adjacency_ok adjacent ->
               exists adjacent' s',
                 for_each l adjacent (fun adjacent src_b =>
                   matches <- match_annotations_two_sources src_a src_b ;;
                   add_matches adjacent matches) s = Ok (adjacent', s') /\
                 adjacency_ok adjacent').
    { induction l as [|src_b l IHl]; intros adj0 s0 Hl Hadj0; cbn [for_each].
      - exists adj0, s0. split; [reflexivity|exact Hadj0].
      - destruct (matcher_returns src_a src_b s0) as (pairs & s1 & Hm & Hpairs).
        destruct (add_matches_ok pairs adj0 s1 Hadj0) as (adj1 & Hadd & Hadj1).
        { intros p Hp. destruct (Hpairs p Hp) as [Ha Hb]. split.
          - eapply source_ids; [apply Hsub; left; reflexivity|exact Ha].
          - eapply source_ids; [apply Hl; left; reflexivity|exact Hb]. }
        unfold bind at 1. unfold bind at 1. rewrite Hm, Hadd.
        apply IHl; [intros src Hsrc; apply Hl; right; exact Hsrc|exact Hadj1]. }
    destruct (Hinner rest adjacent s) as (adj1 & s1 & Hrun & Hadj1);
      [intros src Hsrc; apply Hsub; right; exact Hsrc|exact Hadj|].
    unfold bind at 1. rewrite Hrun.
    apply IH; [intros src Hsrc; apply Hsub; right; exact Hsrc|exact Hadj1].
Qed.

Lemma has_same_source_returns cluster i s :
  (forall x, In x cluster -> In x ids) -> In i ids ->
  exists b, _has_same_source id_segm cluster i s = Ok (b, s).
Proof.
  intros Hcl Hi. unfold _has_same_source.
  destruct (od_item_key id_segm i s Hi) as (e & He & _).
  unfold bind at 1. rewrite He. generalize (snd e) as src. intros src.
  induction cluster as [|a_id cluster IH]; cbn [_has_same_source_loop].
  - unfold ret. eauto.
  - destruct (od_item_key id_segm a_id s) as (a & Ha & _);
      [apply Hcl; left; reflexivity|].
    unfold bind at 1. rewrite Ha.
    destruct (decide (snd a = src)); [unfold ret; eauto|].
    apply IH. intros x Hx. apply Hcl. right. exact Hx.
Qed.

Lemma is_close_enough_returns cd cluster i s :
  (forall x, In x cluster -> In x ids) -> In i ids ->
  exists b s', _is_close_enough sim_fn id_segm cd cluster i s = Ok (b, s').
Proof.
  intros Hcl Hi. unfold _is_close_enough.
  destruct (od_item_key id_segm i s Hi) as (e & He & _).
  unfold bind at 1. rewrite He. clear He. generalize (fst e) as b. intros b. revert s.
  induction cluster as [|a_id cluster IH]; intros s; cbn [_is_close_enough_loop].
  - unfold ret. eauto.
  - destruct (od_item_key id_segm a_id s) as (a & Ha & _);
      [apply Hcl; left; reflexivity|].
    unfold bind at 1. rewrite Ha.
    destruct (distance_returns (fst a) b s) as (q & s1 & Hq).
    unfold bind at 1. rewrite Hq.
    destruct (Qltb q cd); [unfold ret; eauto|].
    apply (IH (fun x Hx => Hcl x (or_intror Hx)) s1).
Qed.

(** What is waiting to be visited: distinct handles that have not been
    visited. *)
Definition waiting_ok (visited to_visit : list Z) : Prop :=
  NoDup to_visit /\ forall x, In x to_visit -> In x ids /\ ~ In x visited.

Lemma set_add_fresh x (s : list Z) : ~ In x s -> set_add x s = s ++ [x].
Proof.
  intros H. unfold set_add. rewrite bool_decide_eq_false_2; [reflexivity|].
  intros Hx. apply H, list_elem_of_In. exact Hx.
Qed.

Lemma set_add_waiting visited to_visit i :
  waiting_ok visited to_visit -> In i ids -> ~ In i visited ->
  waiting_ok visited (set_add i to_visit).
Proof.
  intros [Hnd Hall] Hi Hv. unfold set_add.
  destruct (bool_decide (i ∈ to_visit)) eqn:Hb; [split; assumption|].
  apply bool_decide_eq_false_1 in Hb. split.
  - apply NoDup_app. split; [exact Hnd|]. split; [|apply NoDup_singleton].
    intros x Hx Hx'. apply list_elem_of_singleton in Hx'. subst. contradiction.
  - intros x Hx. apply in_app_or in Hx as [Hx|[<-|[]]]; auto.
Qed.

Lemma admit_candidate_returns cd cluster visited to_visit i s :
  (forall x, In x cluster -> In x ids) -> In i ids ->
  waiting_ok visited to_visit ->
  exists to_visit' s',
    admit_candidate sim_fn id_segm cd cluster visited to_visit i s
      = Ok (to_visit', s') /\
    waiting_ok visited to_visit'.
Proof.
  intros Hcl Hi Hw. unfold admit_candidate.
  destruct (bool_decide (i ∈ visited)) eqn:Hv; [unfold ret; eauto|].
  apply bool_decide_eq_false_1 in Hv.
  assert (Hv' : ~ In i visited) by (intros H; apply Hv, list_elem_of_In; exact H).
  assert (Hfar : exists far s1,
             (if Qltb 0 cd
              then close <- _is_close_enough sim_fn id_segm cd cluster i ;;
                   ret (negb close)
              else ret false)%merge s = Ok (far, s1)).
  { destruct (Qltb 0 cd); [|unfold ret; eauto].
    destruct (is_close_enough_returns cd cluster i s Hcl Hi) as (b & s1 & Hb).
    unfold bind. rewrite Hb. unfold ret. eauto. }
  destruct Hfar as (far & s1 & Hfar). unfold bind at 1. rewrite Hfar.
  destruct far; [unfold ret; eauto|].
  destruct (has_same_source_returns cluster i s1 Hcl Hi) as (same & Hsame).
  unfold bind at 1. rewrite Hsame.
  destruct same; unfold ret; [eauto|].
  eexists. eexists. split; [reflexivity|]. apply set_add_waiting; assumption.
Qed.

Lemma admit_loop_returns cd cluster visited adj :
  (forall x, In x cluster -> In x ids) ->
  (forall i, In i adj -> In i ids) ->
  forall to_visit s,
    waiting_ok visited to_visit ->
    exists to_visit' s',
      for_each adj to_visit (admit_candidate sim_fn id_segm cd cluster visited) s
        = Ok (to_visit', s') /\
      waiting_ok visited to_visit'.
Proof.
  intros Hcl. induction adj as [|i adj IH]; intros Hadj to_visit s Hw; cbn [for_each].
  - unfold ret. eauto.
  - destruct (admit_candidate_returns cd cluster visited to_visit i s Hcl
                (Hadj i (or_introl eq_refl)) Hw) as (tv1 & s1 & Hrun & Hw1).
    unfold bind at 1. rewrite Hrun.
    apply IH; [intros j Hj; apply Hadj; right; exact Hj|exact Hw1].
Qed.

Lemma set_pop_ok (to_visit : list Z) c rest :
  NoDup to_visit -> set_pop pick to_visit = Some (c, rest) ->
  In c to_visit /\ NoDup rest /\ forall x, In x rest -> In x to_visit /\ x <> c.
Proof.
  intros Hnd. unfold set_pop. destruct to_visit as [|c0 s0]; [discriminate|].
  destruct ((c0 :: s0) !! pick (c0 :: s0)) as [c'|] eqn:Hc.
  - intros [= <- <-]. split; [|split].
    + apply list_elem_of_In. eapply list_elem_of_lookup_2. exact Hc.
    + apply NoDup_filter. exact Hnd.
    + intros x Hx. apply list_elem_of_In, list_elem_of_filter in Hx as [Hne Hx].
      split; [apply list_elem_of_In; exact Hx|exact Hne].
  - intros [= <- <-]. apply NoDup_cons in Hnd as [Hc0 Hnd].
    split; [left; reflexivity|]. split; [exact Hnd|].
    intros x Hx. split; [right; exact Hx|].
    intros ->. apply Hc0, list_elem_of_In. exact Hx.
Qed.

(** [while to_visit], with rounds for every handle not yet visited: the
    loop ends, and what it adds to the cluster is what it adds to the
    visited handles. *)
Lemma grow_cluster_returns cd adjacent :
  adjacency_ok adjacent ->
  forall rounds cluster visited to_visit s,
    NoDup visited ->
    (forall x, In x visited -> In x ids) ->
    (forall x, In x cluster -> In x visited) ->
    waiting_ok visited to_visit ->
    (length ids <= rounds + length visited)%nat ->
    exists more s',
      grow_cluster sim_fn pick id_segm cd rounds adjacent cluster visited to_visit s
        = Ok ((cluster ++ more, visited ++ more), s') /\
      NoDup (visited ++ more) /\
      (forall x, In x (visited ++ more) -> In x ids) /\
      (to_visit <> [] -> more <> []).
Proof.
  intros [Hkeys Hvals].
  induction rounds as [|rounds IH];
    intros cluster visited to_visit s Hnd Hsub Hcl [Hw Hwall] Hfuel;
    cbn [grow_cluster].
  - destruct (set_pop pick to_visit) as [[c rest]|] eqn:Hpop.
    + exfalso. apply (set_pop_ok _ _ _ Hw) in Hpop as (Hc & _ & _).
      destruct (Hwall c Hc) as [Hcid Hcv].
      assert (Hlen : (length (c :: visited) <= length ids)%nat).
      { apply NoDup_incl_length.
        - apply NoDup_ListNoDup, NoDup_cons. split; [|exact Hnd].
          intros H. apply Hcv, list_elem_of_In. exact H.
        - intros x [<-|Hx]; [exact Hcid|apply Hsub; exact Hx]. }
      simpl in Hlen. lia.
    + exists [], s. rewrite !app_nil_r. unfold ret.
      split; [reflexivity|]. split; [exact Hnd|]. split; [exact Hsub|].
      intros Hne. exfalso. apply Hne. unfold set_pop in Hpop.
      destruct to_visit as [|c0 s0]; [reflexivity|].
      destruct ((c0 :: s0) !! pick (c0 :: s0)); discriminate.
  - destruct (set_pop pick to_visit) as [[c rest]|] eqn:Hpop.
    + apply (set_pop_ok _ _ _ Hw) in Hpop as (Hc & Hrest & Hrest_in).
      destruct (Hwall c Hc) as [Hcid Hcv].
      assert (Hcc : ~ In c cluster) by (intros H; apply Hcv, Hcl; exact H).
      rewrite (set_add_fresh c cluster Hcc), (set_add_fresh c visited Hcv).
      destruct (od_item_key adjacent c s) as (adj & Hadj & Hadj_in);
        [rewrite Hkeys; exact Hcid|].
      unfold bind at 1. rewrite Hadj.
      assert (Hnd1 : NoDup (visited ++ [c])).
      { apply NoDup_app. split; [exact Hnd|]. split; [|apply NoDup_singleton].
        intros x Hx Hx'. apply list_elem_of_singleton in Hx'. subst.
        apply Hcv, list_elem_of_In. exact Hx. }
      assert (Hsub1 : forall x, In x (visited ++ [c]) -> In x ids).
      { intros x Hx. apply in_app_or in Hx as [Hx|[<-|[]]]; auto. }
      assert (Hcl1 : forall x, In x (cluster ++ [c]) -> In x (visited ++ [c])).
      { intros x Hx. apply in_or_app. apply in_app_or in Hx as [Hx|Hx]; auto. }
      assert (Hw1 : waiting_ok (visited ++ [c]) rest).
      { split; [exact Hrest|]. intros x Hx. destruct (Hrest_in x Hx) as [Hx' Hne].
        destruct (Hwall x Hx') as [Hxid Hxv]. split; [exact Hxid|].
        intros H. apply in_app_or in H as [H|[H|[]]]; [auto|congruence]. }
      destruct (admit_loop_returns cd (cluster ++ [c]) (visited ++ [c]) adj
                  (fun x Hx => Hsub1 x (Hcl1 x Hx))
                  (fun i Hi => Hvals c adj Hadj_in i Hi) rest s Hw1)
        as (tv2 & s2 & Hloop & Hw2).
      unfold bind at 1. rewrite Hloop.
      destruct (IH (cluster ++ [c]) (visited ++ [c]) tv2 s2 Hnd1 Hsub1 Hcl1 Hw2)
        as (more & s3 & Hrun & Hnd3 & Hsub3 & _).
      { rewrite length_app. simpl. lia. }
      exists (c :: more), s3.
      rewrite <- (app_assoc cluster), <- (app_assoc visited) in Hrun.
      rewrite <- (app_assoc visited) in Hnd3.
      assert (Hsub3' : forall x, In x (visited ++ c :: more) -> In x ids).
      { intros x Hx. apply Hsub3. rewrite <- app_assoc. exact Hx. }
      clear Hsub3. rename Hsub3' into Hsub3.
      split; [exact Hrun|]. split; [exact Hnd3|]. split; [exact Hsub3|]. discriminate.
    + exists [], s. rewrite !app_nil_r. unfold ret.
      split; [reflexivity|]. split; [exact Hnd|]. split; [exact Hsub|].
      intros Hne. exfalso. apply Hne. unfold set_pop in Hpop.
      destruct to_visit as [|c0 s0]; [reflexivity|].
      destruct ((c0 :: s0) !! pick (c0 :: s0)); discriminate.
Qed.

Lemma members_return (cluster : list Z) s :
  (forall x, In x cluster -> In x ids) ->
  map_m (fun i => a <- od_item id_segm i ;; ret (fst a)) cluster s
  = Ok (map (ann_of id_segm) cluster, s).
Proof.
  induction cluster as [|i cluster IH]; intros Hsub; cbn [map_m map].
  - reflexivity.
  - destruct (od_get_key id_segm i (Hsub i (or_introl eq_refl))) as [e He].
    unfold bind at 1. unfold bind at 1. unfold od_item at 1. rewrite He.
    unfold ret at 1. unfold ret at 1. unfold bind at 1.
    rewrite IH by (intros x Hx; apply Hsub; right; exact Hx).
    unfold ret, ann_of. rewrite He. reflexivity.
Qed.

(** [for cluster_idx in adjacent]. *)
Lemma join_clusters_return cd adjacent :
  adjacency_ok adjacent ->
  forall keys clusters visited s,
    (forall k, In k keys -> In k ids) ->
    NoDup visited ->
    (forall x, In x visited -> In x ids) ->
    concat clusters = map (ann_of id_segm) visited ->
    Forall (fun c => c <> []) clusters ->
    exists clusters' visited' s',
      join_clusters sim_fn pick id_segm cd adjacent keys clusters visited s
        = Ok (clusters', s') /\
      NoDup visited' /\
      (forall x, In x visited' -> In x ids) /\
      concat clusters' = map (ann_of id_segm) visited' /\
      Forall (fun c => c <> []) clusters' /\
      (forall x, In x visited \/ In x keys -> In x visited').
Proof.
  intros Hadj.
  induction keys as [|k keys IH]; intros clusters visited s Hkeys Hnd Hsub Hcl Hne;
    cbn [join_clusters].
  - exists clusters, visited, s. unfold ret. repeat split; try assumption.
    intros x [Hx|[]]. exact Hx.
  - destruct (bool_decide (k ∈ visited)) eqn:Hk.
    + apply bool_decide_eq_true_1, list_elem_of_In in Hk.
      destruct (IH clusters visited s (fun x Hx => Hkeys x (or_intror Hx))
                  Hnd Hsub Hcl Hne)
        as (cl' & v' & s' & Hrun & Hnd' & Hsub' & Hcl' & Hne' & Hin').
      exists cl', v', s'. repeat split; try assumption.
      intros x [Hx|[<-|Hx]]; apply Hin'; auto.
    + apply bool_decide_eq_false_1 in Hk.
      assert (Hkv : ~ In k visited) by (intros H; apply Hk, list_elem_of_In; exact H).
      destruct (grow_cluster_returns cd adjacent Hadj (length id_segm) [] visited [k] s
                  Hnd Hsub (fun x (H : In x []) => match H with end))
        as (more & s1 & Hgrow & Hnd1 & Hsub1 & Hmore).
      { split; [apply NoDup_singleton|].
        intros x [<-|[]]. split; [apply Hkeys; left; reflexivity|exact Hkv]. }
      { unfold ids, od_keys. rewrite length_map. lia. }
      unfold bind at 1. rewrite Hgrow. cbn [fst snd app].
      unfold bind at 1.
      rewrite members_return
        by (intros x Hx; apply Hsub1, in_or_app; right; exact Hx).
      destruct (IH (clusters ++ [map (ann_of id_segm) more]) (visited ++ more) s1
                  (fun x Hx => Hkeys x (or_intror Hx)) Hnd1 Hsub1)
        as (cl' & v' & s' & Hrun & Hnd' & Hsub' & Hcl' & Hne' & Hin').
      { rewrite concat_app, map_app, Hcl. simpl. rewrite app_nil_r. reflexivity. }
      { apply Forall_app. split; [exact Hne|]. constructor; [|constructor].
        intros H. apply map_eq_nil in H. apply Hmore; [discriminate|exact H]. }
      exists cl', v', s'. repeat split; try assumption.
      assert (Hkm : In k more).
      { revert Hgrow Hmore. clear. intros Hgrow Hmore.
        cbn [grow_cluster] in Hgrow.
        destruct (length id_segm) as [|rounds] eqn:Hlen.
        - cbn [grow_cluster] in Hgrow.
          destruct (set_pop pick [k]) as [[c rest]|]; [discriminate|].
          unfold ret in Hgrow. injection Hgrow as Hc _ _.
          destruct more; [exfalso; apply Hmore; [discriminate|reflexivity]|].
          discriminate.
        - cbn [grow_cluster] in Hgrow.
          assert (Hpop : set_pop pick [k] = Some (k, [])).
          { unfold set_pop. destruct ([k] !! pick [k]) as [c|] eqn:Hc; [|reflexivity].
            apply list_elem_of_lookup_2, list_elem_of_singleton in Hc. subst c.
            cbn. rewrite decide_False by (intros H; apply H; reflexivity).
            reflexivity. }
          rewrite Hpop in Hgrow. cbn [set_add] in Hgrow.
          revert Hgrow. unfold set_add at 1.
          rewrite bool_decide_eq_false_2 by (apply not_elem_of_nil).
          cbn [app]. intros Hgrow.
          assert (Hmono : forall rounds adjacent cluster visited to_visit s r s',
                     grow_cluster sim_fn pick id_segm cd rounds adjacent cluster visited
                                  to_visit s = Ok (r, s') ->
                     forall x, In x cluster -> In x (fst r)).
          { clear. induction rounds as [|rounds IHr];
              intros adjacent cluster visited to_visit s r s'; cbn [grow_cluster];
              destruct (set_pop pick to_visit) as [[c rest]|];
              try discriminate;
              try (unfold ret; intros [= <- _]; auto).
            unfold bind at 1. destruct (od_item adjacent c s) as [[adj s1]|];
              [|discriminate].
            unfold bind at 1.
            destruct (for_each adj rest _ s1) as [[tv s2]|]; [|discriminate].
            intros Hrun x Hx. eapply IHr; [exact Hrun|].
            unfold set_add. destruct (bool_decide (c ∈ cluster)); [exact Hx|].
            apply in_or_app. left. exact Hx. }
          revert Hgrow. unfold bind at 1.
          destruct (od_item adjacent k s) as [[adj s0]|]; [|discriminate].
          unfold bind at 1.
          destruct (for_each adj [] _ s0) as [[tv s2]|]; [|discriminate].
          intros Hgrow. apply (Hmono _ _ _ _ _ _ _ _ Hgrow k). left. reflexivity. }
      intros x [Hx|[<-|Hx]]; apply Hin'.
      * left. apply in_or_app. left. exact Hx.
      * left. apply in_or_app. right. exact Hkm.
      * right. exact Hx.
Qed.

Lemma match_annotations_returns pairwise_dist cluster_dist s :
  exists clusters s',
    match_annotations sim_fn match_annotations_two_sources pairwise_dist cluster_dist
                      pick sources s = Ok (clusters, s') /\
    Permutation (concat clusters) (concat sources) /\
    Forall (fun c => c <> []) clusters.
Proof.
  unfold match_annotations. fold id_segm.
  set (cd := if Qltb cluster_dist 0 then pairwise_dist else cluster_dist).
  assert (Hadj0 : adjacency_ok (map (fun e => (fst e, @nil Z)) id_segm)).
  { split.
    - unfold ids, od_keys. rewrite map_map. reflexivity.
    - intros k l Hkl i Hi. apply in_map_iff in Hkl as (e & [= _ <-] & _).
      destruct Hi. }
  destruct (match_pairwise_ok sources _ s (fun _ H => H) Hadj0)
    as (adjacent & s1 & Hrun & Hadj).
  unfold bind. rewrite Hrun.
  destruct (join_clusters_return cd adjacent Hadj (od_keys adjacent) [] [] s1)
    as (clusters & visited & s2 & Hjoin & Hnd & Hsub & Hcl & Hne & Hin).
  - intros k Hk. rewrite (proj1 Hadj) in Hk. exact Hk.
  - constructor.
  - intros x [].
  - reflexivity.
  - constructor.
  - exists clusters, s2. split; [exact Hjoin|]. split; [|exact Hne].
    destruct (id_segm_facts sources handles_distinct) as (Hids & _ & Hsrc).
    fold id_segm in Hids, Hsrc. rewrite Hcl, <- Hsrc. apply Permutation_map.
    apply NoDup_Permutation; [exact Hnd|exact Hids|].
    intros x. rewrite !list_elem_of_In. split; [apply Hsub|].
    intros Hx. apply Hin. right. rewrite (proj1 Hadj). exact Hx.
Qed.

End partition.

(** X7. [_ShapeMatcher.match_annotations] terminates and partitions its
    input: when the similarity and the pairwise matcher return, the
    matcher pairing only annotations of the two lists it is given, and the
    annotations are distinct objects, then for every order in which
    [to_visit.pop()] may hand out the handles the cluster builder returns,
    the clusters together hold every annotation of the sources exactly
    once, and no cluster is empty. *)
Theorem match_annotations_partitions
    (sim_fn : Annotation -> Annotation -> M Q)
    (match_annotations_two_sources :
       list Annotation -> list Annotation -> M (list (Annotation * Annotation)))
    (pairwise_dist cluster_dist : Q) (pick : list Z -> nat)
    (sources : list (list Annotation)) (st : Context) :
  (forall a b s, exists q s', sim_fn a b s = Ok (q, s')) ->
  (forall src_a src_b s,
     exists pairs s',
       match_annotations_two_sources src_a src_b s = Ok (pairs, s') /\
       forall p, In p pairs -> In (fst p) src_a /\ In (snd p) src_b) ->
  NoDup (map ann_id (concat sources)) ->
  exists clusters st',
    match_annotations sim_fn match_annotations_two_sources pairwise_dist cluster_dist
                      pick sources st = Ok (clusters, st') /\
    Permutation (concat clusters) (concat sources) /\
    Forall (fun c => c <> []) clusters.
Proof.
  intros Hsim Hmatch Hnd.
  apply match_annotations_returns; assumption.
Qed.

Lemma match_annotations_partitions_witness :
  exists clusters st',
    match_annotations (table_sim BoxesInThreeSources.iou)
                      (table_matcher BoxesInThreeSources.matched) (1 # 2) (-1 # 1)
                      BoxesInThreeSources.pop_first BoxesInThreeSources.sources
                      empty_context
      = Ok (clusters, st') /\
    Permutation (concat clusters) (concat BoxesInThreeSources.sources) /\
    Forall (fun c => c <> []) clusters.
Proof.
  apply match_annotations_partitions.
  - intros a b s. unfold table_sim, ret. eauto.
  - intros src_a src_b s. unfold table_matcher, ret.
    eexists. eexists. split; [reflexivity|].
    intros [a b] Hp. apply list_elem_of_In, list_elem_of_filter in Hp as [_ Hp].
    apply list_elem_of_In, in_prod_iff in Hp. exact Hp.
  - apply (bool_decide_unpack _). vm_compute. exact I.
Defined.

(** ** The distances of a skeleton matcher after a pair of sources *)

Lemma _sort_key_inv a b a' b' :
  CachedSimilarityFunction._sort_key (a, b) = CachedSimilarityFunction._sort_key (a', b') ->
  (a = a' /\ b = b') \/ (a = b' /\ b = a').
Proof.
  unfold CachedSimilarityFunction._sort_key. simpl.
  destruct (a <=? b), (a' <=? b'); intros [= -> ->]; auto.
Qed.

Lemma _sort_key_fst a b :
  fst (CachedSimilarityFunction._sort_key (a, b)) = a \/
  fst (CachedSimilarityFunction._sort_key (a, b)) = b.
Proof.
  unfold CachedSimilarityFunction._sort_key. simpl. destruct (a <=? b); auto.
Qed.

Lemma remap_distance_outcome points_map key st :
  match points_map !! fst key, points_map !! snd key with
  | Some a, Some b =>
      exists st',
        remap_distance points_map key st = Ok (tt, st') /\
        let k := CachedSimilarityFunction._sort_key key in
        let t := CachedSimilarityFunction._sort_key (a, b) in
        cache st' = match cache st !! k with
                    | Some d => <[t := d]> (delete k (cache st))
                    | None => delete t (delete k (cache st))
                    end
  | _, _ => remap_distance points_map key st = Raise KeyError
  end.
Proof.
  unfold remap_distance, CachedSimilarityFunction.pop.
  unfold bind, get_ctx, put_ctx, ret, gmap_item.
  destruct (points_map !! fst key) as [a|]; [|reflexivity].
  destruct (points_map !! snd key) as [b|]; [|reflexivity].
  unfold set_popped, CachedSimilarityFunction.set, bind, get_ctx, put_ctx.
  destruct (cache st !! CachedSimilarityFunction._sort_key key) as [d|];
    eexists; (split; [reflexivity|reflexivity]).
Qed.

(** X8. The loop that moves the cached distances to the skeletons looks
    every handle of every cached key up in [points_map], the map of the
    point sets built in this very call. A key with a handle that is not
    such a point set, as the keys are that an earlier call for another
    pair of sources has already moved to handles of skeletons, makes the
    loop end in [KeyError], in whatever order the keys are visited. *)
Theorem skeleton_remap_rejects_foreign_keys
    (points_map : gmap Z Z) (keys : list (Z * Z)) (key : Z * Z) (st : Context) :
  In key keys ->
  points_map !! fst key = None \/ points_map !! snd key = None ->
  remap_distances points_map keys st = Raise KeyError.
Proof.
  unfold remap_distances. revert st.
  induction keys as [|k keys IH]; intros st Hin Hforeign; [destruct Hin|].
  cbn [for_each]. unfold bind at 1.
  pose proof (remap_distance_outcome points_map k st) as Hk.
  destruct Hin as [->|Hin].
  - destruct Hforeign as [H|H]; rewrite H in Hk.
    + rewrite Hk. reflexivity.
    + destruct (points_map !! fst key); rewrite Hk; reflexivity.
  - destruct (points_map !! fst k) as [a|]; [|rewrite Hk; reflexivity].
    destruct (points_map !! snd k) as [b|]; [|rewrite Hk; reflexivity].
    destruct Hk as (st' & -> & _). apply IH; assumption.
Qed.

Lemma skeleton_remap_rejects_foreign_keys_witness :
  remap_distances {[ 101 := 1; 102 := 2; 103 := 3 ]} [(101, 102); (1, 2)]
                  (with_cache (fun _ => {[ (101, 102) := 4 # 5; (1, 2) := 9 # 10 ]})
                              empty_context)
  = Raise KeyError.
Proof.
  apply (skeleton_remap_rejects_foreign_keys _ _ (1, 2)).
  - right. left. reflexivity.
  - left. reflexivity.
Defined.

Section remap.
Variable points_map : gmap Z Z.
(** Different point sets stand for different skeletons, and no skeleton
    is a point set. *)
Hypothesis skeletons_distinct : NoDup (map snd (map_to_list points_map)).
Hypothesis skeletons_no_points :
  Forall (fun p => points_map !! snd p = None) (map_to_list points_map).

Lemma points_map_inj x y v :
  points_map !! x = Some v -> points_map !! y = Some v -> x = y.
Proof.
  intros Hx Hy. apply elem_of_map_to_list in Hx, Hy.
  revert skeletons_distinct Hx Hy. generalize (map_to_list points_map) as l.
  induction l as [|[k w] l IH]; intros Hnd Hx Hy; [inversion Hx|].
  simpl in Hnd. apply NoDup_cons in Hnd as [Hw Hnd].
  apply list_elem_of_In in Hx, Hy. simpl in Hx, Hy.
  assert (Hsnd : forall z, In (z, v) l -> w <> v).
  { intros z Hz ->. apply Hw, list_elem_of_In.
    apply (in_map snd) in Hz. exact Hz. }
  destruct Hx as [Hx|Hx], Hy as [Hy|Hy].
  - congruence.
  - exfalso. apply (Hsnd _ Hy). congruence.
  - exfalso. apply (Hsnd _ Hx). congruence.
  - apply IH; [exact Hnd| |]; apply list_elem_of_In; assumption.
Qed.

Lemma skeletons_apart x v : points_map !! x = Some v -> points_map !! v = None.
Proof.
  intros Hx. apply elem_of_map_to_list in Hx.
  rewrite List.Forall_forall in skeletons_no_points.
  apply list_elem_of_In in Hx. exact (skeletons_no_points _ Hx).
Qed.

(** The key an entry moves to. *)
Definition target (key : Z * Z) : Z * Z :=
  CachedSimilarityFunction._sort_key
    (default 0 (points_map !! fst key), default 0 (points_map !! snd key)).

Definition known (key : Z * Z) : Prop :=
  CachedSimilarityFunction._sort_key key = key /\
  is_Some (points_map !! fst key) /\ is_Some (points_map !! snd key).

Lemma target_not_known k k' : known k -> known k' -> target k <> k'.
Proof.
  intros (_ & [a Ha] & [b Hb]) (_ & [a' Ha'] & _) Heq.
  unfold target in Heq. rewrite Ha, Hb in Heq. simpl in Heq.
  assert (Hfst : fst k' = a \/ fst k' = b).
  { rewrite <- Heq. apply _sort_key_fst. }
  destruct Hfst as [H|H]; rewrite H in Ha'.
  - rewrite (skeletons_apart _ _ Ha) in Ha'. discriminate.
  - rewrite (skeletons_apart _ _ Hb) in Ha'. discriminate.
Qed.

Lemma target_inj k k' : known k -> known k' -> target k = target k' -> k = k'.
Proof.
  intros (Hs & [a Ha] & [b Hb]) (Hs' & [a' Ha'] & [b' Hb']) Heq.
  unfold target in Heq. rewrite Ha, Hb, Ha', Hb' in Heq. simpl in Heq.
  destruct k as [x y], k' as [x' y']. simpl in *.
  apply _sort_key_inv in Heq as [[-> ->]|[-> ->]].
  - rewrite (points_map_inj _ _ _ Ha Ha'), (points_map_inj _ _ _ Hb Hb'). reflexivity.
  - pose proof (points_map_inj _ _ _ Ha Hb') as ->.
    pose proof (points_map_inj _ _ _ Hb Ha') as ->.
    rewrite <- Hs, <- Hs'. apply _sort_key_comm.
Qed.

Lemma remap_distances_moves keys : forall st,
  NoDup keys ->
  (forall k, In k keys -> known k) ->
  exists st',
    remap_distances points_map keys st = Ok (tt, st') /\
    (forall k, In k keys ->
       cache st' !! target k = cache st !! k /\ cache st' !! k = None) /\
    (forall key, (forall k, In k keys -> key <> k /\ key <> target k) ->
       cache st' !! key = cache st !! key).
Proof.
  unfold remap_distances.
  induction keys as [|k keys IH]; intros st Hnd Hknown; cbn [for_each].
  - exists st. unfold ret. split; [reflexivity|]. split; [intros k []|reflexivity].
  - apply NoDup_cons in Hnd as [Hk Hnd].
    assert (Hkk : known k) by (apply Hknown; left; reflexivity).
    pose proof (remap_distance_outcome points_map k st) as Hstep.
    destruct Hkk as (Hsorted & [a Ha] & [b Hb]).
    rewrite Ha, Hb, Hsorted in Hstep. destruct Hstep as (st1 & Hrun & Hc1).
    cbn zeta in Hc1.
    assert (Htk : CachedSimilarityFunction._sort_key (a, b) = target k).
    { unfold target. rewrite Ha, Hb. reflexivity. }
    rewrite Htk in Hc1.
    assert (Hkk : known k) by (apply Hknown; left; reflexivity).
    assert (Hne : target k <> k) by (apply target_not_known; assumption).
    assert (H1t : cache st1 !! target k = cache st !! k).
    { rewrite Hc1. destruct (cache st !! k) as [d|].
      - apply lookup_insert_eq.
      - apply lookup_delete_eq. }
    assert (H1k : cache st1 !! k = None).
    { rewrite Hc1. destruct (cache st !! k) as [d|].
      - rewrite lookup_insert_ne by exact Hne. apply lookup_delete_eq.
      - rewrite lookup_delete_ne by exact Hne. apply lookup_delete_eq. }
    assert (H1o : forall key, key <> k -> key <> target k ->
                    cache st1 !! key = cache st !! key).
    { intros key Hk1 Hk2. rewrite Hc1. destruct (cache st !! k) as [d|].
      - rewrite lookup_insert_ne by congruence. apply lookup_delete_ne. congruence.
      - rewrite lookup_delete_ne by congruence. apply lookup_delete_ne. congruence. }
    destruct (IH st1 Hnd (fun k' Hk' => Hknown k' (or_intror Hk')))
      as (st' & Hrest & Hmoved & Hframe).
    unfold bind at 1. rewrite Hrun. exists st'. split; [exact Hrest|].
    assert (Hother : forall k', In k' keys -> k <> k' /\ known k').
    { intros k' Hk'. split; [|apply Hknown; right; exact Hk'].
      intros ->. apply Hk, list_elem_of_In. exact Hk'. }
    split.
    + intros k' [<-|Hk'].
      * split.
        -- rewrite Hframe; [exact H1t|]. intros k' Hk'.
           destruct (Hother k' Hk') as [Hd Hkn]. split.
           ++ apply target_not_known; assumption.
           ++ intros Heq. apply Hd. apply target_inj; assumption.
        -- rewrite Hframe; [exact H1k|]. intros k' Hk'.
           destruct (Hother k' Hk') as [Hd Hkn]. split; [exact Hd|].
           intros Heq. symmetry in Heq. revert Heq. apply target_not_known; assumption.
      * destruct (Hmoved k' Hk') as [Ht Hn]. destruct (Hother k' Hk') as [Hd Hkn].
        split; [|exact Hn]. rewrite Ht. apply H1o; [congruence|].
        intros Heq. symmetry in Heq. revert Heq. apply target_not_known; assumption.
    + intros key Hkey. destruct (Hkey k (or_introl eq_refl)) as [Hk1 Hk2].
      rewrite Hframe by (intros k' Hk'; apply Hkey; right; exact Hk').
      apply H1o; assumption.
Qed.

End remap.

Lemma remap_distances_foreign (points_map : gmap Z Z) (keys : list (Z * Z))
    (key : Z * Z) (st : Context) :
  In key keys ->
  points_map !! fst key = None \/ points_map !! snd key = None ->
  remap_distances points_map keys st = Raise KeyError.
Proof.
  unfold remap_distances. revert st.
  induction keys as [|k keys IH]; intros st Hin Hforeign; [destruct Hin|].
  cbn [for_each]. unfold bind at 1.
  pose proof (remap_distance_outcome points_map k st) as Hk.
  destruct Hin as [->|Hin].
  - destruct Hforeign as [H|H]; rewrite H in Hk.
    + rewrite Hk. reflexivity.
    + destruct (points_map !! fst key); rewrite Hk; reflexivity.
  - destruct (points_map !! fst k) as [a|]; [|rewrite Hk; reflexivity].
    destruct (points_map !! snd k) as [b|]; [|rewrite Hk; reflexivity].
    destruct Hk as (st' & -> & _). apply IH; assumption.
Qed.

(** X9. When the cache holds the distances of the point sets of this
    call (sorted keys [keys], all of point sets in [points_map]), and
    different point sets stand for different skeletons, none of which is
    itself a point set, the loop returns and moves every entry: the
    distance that was stored for two point sets is afterwards stored for
    their two skeletons, nothing is left under the point sets, and every
    other entry of the cache is as before. *)
Theorem skeleton_remap_moves_entries
    (points_map : gmap Z Z) (keys : list (Z * Z)) (st : Context) :
  NoDup (map snd (map_to_list points_map)) ->
  Forall (fun p => points_map !! snd p = None) (map_to_list points_map) ->
  NoDup keys ->
  (forall k, In k keys -> known points_map k) ->
  exists st',
    remap_distances points_map keys st = Ok (tt, st') /\
    (forall k, In k keys ->
       cache st' !! target points_map k = cache st !! k /\ cache st' !! k = None) /\
    (forall key, (forall k, In k keys -> key <> k /\ key <> target points_map k) ->
       cache st' !! key = cache st !! key).
Proof.
  intros Hinj Hapart Hnd Hknown. apply remap_distances_moves; assumption.
Qed.

Lemma skeleton_remap_moves_entries_witness :
  exists st',
    remap_distances {[ 101 := 1; 102 := 2; 103 := 3 ]} [(101, 102); (102, 103)]
      (with_cache (fun _ => {[ (101, 102) := 4 # 5; (102, 103) := 1 # 2 ]})
                  empty_context) = Ok (tt, st') /\
    cache st' !! (1, 2) = Some (4 # 5) /\ cache st' !! (101, 102) = None.
Proof.
  destruct (skeleton_remap_moves_entries {[ 101 := 1; 102 := 2; 103 := 3 ]}
              [(101, 102); (102, 103)]
              (with_cache (fun _ => {[ (101, 102) := 4 # 5; (102, 103) := 1 # 2 ]})
                          empty_context))
    as (st' & Hrun & Hmoved & _).
  - apply (bool_decide_unpack _). vm_compute. exact I.
  - apply (bool_decide_unpack _). vm_compute. exact I.
  - apply (bool_decide_unpack _). vm_compute. exact I.
  - intros k [<-|[<-|[]]]; (split; [reflexivity|split; vm_compute; eauto]).
  - exists st'. split; [exact Hrun|].
    exact (Hmoved (101, 102) (or_introl eq_refl)).
Defined.

(** X10. Once the loop has moved a distance to a pair of skeletons, the
    same loop run for the next pair of sources fails: the key made of the
    two skeletons is still in the cache, the point sets of the next call
    are new objects, so the skeleton is in no [points_map] of a later
    call, and the loop ends in [KeyError]. *)
Theorem skeleton_remap_fails_on_next_pair
    (points_map next_points_map : gmap Z Z) (keys : list (Z * Z))
    (key : Z * Z) (d : Q) (st : Context) :
  NoDup (map snd (map_to_list points_map)) ->
  Forall (fun p => points_map !! snd p = None) (map_to_list points_map) ->
  NoDup keys ->
  (forall k, In k keys -> known points_map k) ->
  In key keys ->
  cache st !! key = Some d ->
  Forall (fun p => next_points_map !! snd p = None) (map_to_list points_map) ->
  exists st',
    remap_distances points_map keys st = Ok (tt, st') /\
    cache st' !! target points_map key = Some d /\
    forall next_keys,
      (forall k, is_Some (cache st' !! k) -> In k next_keys) ->
      remap_distances next_points_map next_keys st' = Raise KeyError.
Proof.
  intros Hinj Hapart Hnd Hknown Hkey Hd Hnext.
  destruct (remap_distances_moves points_map Hinj Hapart keys st Hnd Hknown)
    as (st' & Hrun & Hmoved & _).
  destruct (Hmoved key Hkey) as [Ht _]. rewrite Hd in Ht.
  exists st'. split; [exact Hrun|]. split; [exact Ht|].
  intros keys' Hsnap.
  apply (remap_distances_foreign next_points_map keys' (target points_map key)).
  - apply Hsnap. rewrite Ht. eauto.
  - left. destruct (Hknown key Hkey) as (_ & [a Ha] & [b Hb]).
    unfold target. rewrite Ha, Hb. simpl.
    rewrite List.Forall_forall in Hnext.
    destruct (_sort_key_fst a b) as [->| ->].
    + apply (Hnext (fst key, a)), list_elem_of_In, elem_of_map_to_list. exact Ha.
    + apply (Hnext (snd key, b)), list_elem_of_In, elem_of_map_to_list. exact Hb.
Qed.

Lemma skeleton_remap_fails_on_next_pair_witness :
  exists st',
    remap_distances {[ 101 := 1; 102 := 2; 103 := 3 ]} [(101, 102)]
      (with_cache (fun _ => {[ (101, 102) := 4 # 5 ]}) empty_context) = Ok (tt, st') /\
    remap_distances {[ 201 := 1; 202 := 3 ]} [(1, 2)] st' = Raise KeyError.
Proof.
  destruct (skeleton_remap_fails_on_next_pair
              {[ 101 := 1; 102 := 2; 103 := 3 ]} {[ 201 := 1; 202 := 3 ]}
              [(101, 102)] (101, 102) (4 # 5)
              (with_cache (fun _ => {[ (101, 102) := 4 # 5 ]}) empty_context))
    as (st' & Hrun & Hmoved & Hnext).
  - apply (bool_decide_unpack _). vm_compute. exact I.
  - apply (bool_decide_unpack _). vm_compute. exact I.
  - apply (bool_decide_unpack _). vm_compute. exact I.
  - intros k [<-|[]]. split; [reflexivity|split; vm_compute; eauto].
  - left. reflexivity.
  - reflexivity.
  - apply (bool_decide_unpack _). vm_compute. exact I.
  - exists st'. split; [exact Hrun|]. apply Hnext.
    intros k [v Hk]. left.
    revert Hrun Hk. vm_compute. intros [= <-]. cbn.
    intros Hk.
    destruct (decide (k = (1, 2))) as [->|Hne]; [reflexivity|].
    exfalso. revert Hk.
    change (({[ (1, 2) := 4 # 5 ]} : gmap (Z * Z) Q) !! k = Some v -> False).
    rewrite lookup_singleton_ne by congruence. discriminate.
Defined.

(** ** What [merge_clusters] hands back *)

Lemma map_m_results {A B} (f : A -> M B) (xs : list A) : forall st rs st',
  map_m f xs st = Ok (rs, st') ->
  length rs = length xs /\
  forall r, In r rs -> exists x s1 s2, In x xs /\ f x s1 = Ok (r, s2).
Proof.
  induction xs as [|x xs IH]; intros st rs st'; cbn [map_m].
  - unfold ret. intros [= <- _]. split; [reflexivity|intros r []].
  - unfold bind at 1. destruct (f x st) as [[y s1]|] eqn:Hy; [|discriminate].
    unfold bind at 1. destruct (map_m f xs s1) as [[ys s2]|] eqn:Hys; [|discriminate].
    unfold ret. intros [= <- _]. apply IH in Hys as [Hlen Hall].
    split; [simpl; rewrite Hlen; reflexivity|].
    intros r [<-|Hr].
    + exists x, st, s1. split; [left; reflexivity|exact Hy].
    + destruct (Hall r Hr) as (x' & sa & sb & Hx' & Hf).
      exists x', sa, sb. split; [right; exact Hx'|exact Hf].
Qed.

Lemma max_z_order_spec cluster st z st' :
  max_z_order cluster st = Ok (z, st') ->
  st' = st /\
  (forall a, In a cluster -> z_order a <= z) /\
  (exists a, In a cluster /\ z_order a = z).
Proof.
  unfold max_z_order. destruct cluster as [|a rest]; [discriminate|].
  unfold ret. intros [= <- <-]. split; [reflexivity|].
  assert (Hgen : forall (l : list Annotation) z0,
             z0 <= fold_left (fun z b => Z.max z (z_order b)) l z0 /\
             (forall b, In b l ->
                z_order b <= fold_left (fun z b => Z.max z (z_order b)) l z0) /\
             (fold_left (fun z b => Z.max z (z_order b)) l z0 = z0 \/
              exists b, In b l /\
                z_order b = fold_left (fun z b => Z.max z (z_order b)) l z0)).
  { induction l as [|b l IH]; intros z0; simpl.
    - split; [lia|]. split; [intros b []|left; reflexivity].
    - destruct (IH (Z.max z0 (z_order b))) as (Hge & Hall & Hatt).
      split; [lia|]. split.
      + intros c [<-|Hc]; [lia|apply Hall; exact Hc].
      + destruct Hatt as [Heq|(c & Hc & Heq)].
        * destruct (Z.max_spec z0 (z_order b)) as [[_ Hm]|[_ Hm]].
          -- right. exists b. split; [left; reflexivity|]. congruence.
          -- left. congruence.
        * right. exists c. split; [right; exact Hc|exact Heq]. }
  destruct (Hgen rest (z_order a)) as (Hge & Hall & Hatt). split.
  - intros b [<-|Hb]; [exact Hge|apply Hall; exact Hb].
  - destruct Hatt as [Heq|(b & Hb & Heq)].
    + exists a. split; [left; reflexivity|]. symmetry. exact Heq.
    + exists b. split; [right; exact Hb|exact Heq].
Qed.



(** ** Label clusters whose labels all reach the quorum *)

(** The members of a cluster that carry the label name [l]. *)
Definition carriers (get_src_label_name : Annotation -> option nat -> option string)
    (l : option string) (cluster : list Annotation) : list Annotation :=
  List.filter (fun a => bool_decide (get_src_label_name a (ann_label a) = l)) cluster.

Lemma label_votes_spec get_src_label_name cluster :
  NoDup (od_keys (label_votes get_src_label_name cluster)) /\
  forall l,
    default 0 (od_get (label_votes get_src_label_name cluster) l)
    = Z.of_nat (length (carriers get_src_label_name l cluster)).
Proof.
  unfold label_votes.
  assert (Hgen : forall (cluster : list Annotation) (acc : LabelVotes),
             NoDup (od_keys acc) ->
             let r := fold_left (fun votes ann =>
                        let label := get_src_label_name ann (ann_label ann) in
                        od_set votes label (1 + default 0 (od_get votes label)))
                        cluster acc in
             NoDup (od_keys r) /\
             forall l, default 0 (od_get r l)
                       = default 0 (od_get acc l)
                         + Z.of_nat (length (carriers get_src_label_name l cluster))).
  { clear cluster. induction cluster as [|a cluster IH]; intros acc Hnd; cbn [fold_left].
    - split; [exact Hnd|]. intros l. simpl. lia.
    - destruct (IH (od_set acc (get_src_label_name a (ann_label a))
                       (1 + default 0 (od_get acc (get_src_label_name a (ann_label a))))))
        as [Hnd' Hcount]; [apply od_keys_set_NoDup; exact Hnd|].
      split; [exact Hnd'|]. intros l. rewrite Hcount, od_get_set.
      unfold carriers. cbn [List.filter].
      destruct (decide (get_src_label_name a (ann_label a) = l)) as [Heq|Hne].
      + rewrite bool_decide_eq_true_2 by exact Heq. rewrite Heq. simpl length.
        simpl default. lia.
      + rewrite bool_decide_eq_false_2 by exact Hne. reflexivity. }
  destruct (Hgen cluster [] (NoDup_nil_2)) as [Hnd Hcount].
  split; [exact Hnd|]. intros l. rewrite Hcount. simpl. lia.
Qed.

(** X12. [LabelMerger.merge_clusters] on a cluster whose labels all have
    at least [quorum] votes, over at least one source: it returns one
    label annotation for every label name of the cluster (each name
    once), each with the number of members that carry the name divided by
    the number of sources as its "score"; it
    records no error and leaves the context as it is. Without a cluster it
    returns nothing, and more than one cluster is an [AssertionError]. *)
Theorem label_merge_clusters_all_reach_quorum
    (get_src_label_name : Annotation -> option nat -> option string)
    (get_label_id : option string -> option nat) (quorum : Z)
    (cluster : list Annotation) (st : Context) :
  (0 < size (_dataset_map st))%nat ->
  (forall l, In l (map (fun a => get_src_label_name a (ann_label a)) cluster) ->
     quorum <= Z.of_nat (length (carriers get_src_label_name l cluster))) ->
  exists names,
    NoDup names /\
    (forall l, In l names <->
       In l (map (fun a => get_src_label_name a (ann_label a)) cluster)) /\
    label_merge_clusters get_src_label_name get_label_id quorum [cluster] st
    = Ok (map (fun l =>
                 Label (get_label_id l)
                   {["score" :=
                       VNum (inject_Z (Z.of_nat
                                         (length (carriers get_src_label_name l cluster)))
                             / inject_Z (Z.of_nat (size (_dataset_map st))))]})
              names, st) /\
    label_merge_clusters get_src_label_name get_label_id quorum [] st = Ok ([], st) /\
    forall c1 c2 rest,
      label_merge_clusters get_src_label_name get_label_id quorum (c1 :: c2 :: rest) st
      = Raise AssertionError.
Proof.
  intros Hn Hquorum.
  destruct (label_votes_spec get_src_label_name cluster) as [Hnd Hcount].
  set (votes := label_votes get_src_label_name cluster) in *.
  assert (Hentry : forall l c, In (l, c) votes ->
             c = Z.of_nat (length (carriers get_src_label_name l cluster))).
  { intros l c Hin. rewrite <- Hcount, (od_get_In votes l c Hnd Hin). reflexivity. }
  assert (Hkeys : forall l, In l (od_keys votes) <->
             In l (map (fun a => get_src_label_name a (ann_label a)) cluster)).
  { intros l. split.
    - intros Hl. destruct (od_get_key votes l Hl) as [c Hc].
      pose proof (Hcount l) as Hd. rewrite Hc in Hd. simpl in Hd.
      destruct (carriers get_src_label_name l cluster) as [|a rest] eqn:Hcar.
      + exfalso. apply od_get_Some_In in Hc.
        (* a key is only created with a positive count *)
        assert (Hpos : forall (cl : list Annotation) (acc : LabelVotes),
                   (forall e, In e acc -> 0 < snd e) ->
                   forall e, In e (fold_left (fun votes ann =>
                        let label := get_src_label_name ann (ann_label ann) in
                        od_set votes label (1 + default 0 (od_get votes label)))
                        cl acc) -> 0 < snd e).
        { induction cl as [|b cl IHcl]; intros acc Hacc; cbn [fold_left]; [exact Hacc|].
          apply IHcl. intros e He. apply od_set_In in He as [->|He]; [|auto].
          simpl. destruct (od_get acc _) as [c0|] eqn:Hc0; simpl; [|lia].
          apply od_get_Some_In in Hc0. apply Hacc in Hc0. simpl in Hc0. lia. }
        apply (Hpos cluster [] (fun e (H : In e []) => match H with end)) in Hc.
        simpl in Hc, Hd. lia.
      + assert (Ha : In a (carriers get_src_label_name l cluster))
          by (rewrite Hcar; left; reflexivity).
        unfold carriers in Ha. apply filter_In in Ha as [Ha Hl'].
        apply bool_decide_eq_true_1 in Hl'. rewrite <- Hl'.
        apply (in_map (fun a => get_src_label_name a (ann_label a))). exact Ha.
    - intros Hl. apply in_map_iff in Hl as (a & <- & Ha).
      destruct (od_get votes (get_src_label_name a (ann_label a))) as [c|] eqn:Hc.
      + apply od_get_Some_In in Hc. unfold od_keys.
        apply (in_map fst) in Hc. exact Hc.
      + exfalso. pose proof (Hcount (get_src_label_name a (ann_label a))) as Hd.
        rewrite Hc in Hd. simpl in Hd.
        assert (Hin : In a (carriers get_src_label_name
                              (get_src_label_name a (ann_label a)) cluster)).
        { unfold carriers. apply filter_In. split; [exact Ha|].
          apply bool_decide_eq_true_2. reflexivity. }
        destruct (carriers _ _ cluster); [destruct Hin|simpl in Hd; lia]. }
  exists (od_keys votes). split; [exact Hnd|]. split; [exact Hkeys|].
  split; [|split; [reflexivity|reflexivity]].
  unfold label_merge_clusters. cbn [length Nat.ltb Nat.leb]. fold votes.
  assert (Hloop : forall (l : list (option string * Z)) merged,
             (forall e, In e l -> In e votes) ->
             for_each l merged (fun merged lc =>
               if snd lc <? quorum then
                 sources <- non_voting_sources get_src_label_name (fst lc) cluster ;;
                 sources <- map_m get_dataset_source_id (elements sources) ;;
                 add_item_error (fun item =>
                   FailedLabelVotingError item (VotesLabel votes) (list_to_set sources)) ;;;
                 ret merged
               else
                 n <- dataset_count ;;
                 score <- py_div (inject_Z (snd lc)) n ;;
                 ret (merged ++ [Label (get_label_id (fst lc)) {["score" := VNum score]}]))
               st
             = Ok (merged ++ map (fun k =>
                     Label (get_label_id k)
                       {["score" :=
                           VNum (inject_Z (Z.of_nat
                                   (length (carriers get_src_label_name k cluster)))
                                 / inject_Z (Z.of_nat (size (_dataset_map st))))]})
                     (od_keys l), st)).
  { induction l as [|[k c] l IH]; intros merged Hsub; cbn [for_each].
    - unfold ret. simpl. rewrite app_nil_r. reflexivity.
    - pose proof (Hentry k c (Hsub _ (or_introl eq_refl))) as Hc.
      assert (Hk : In k (map (fun a => get_src_label_name a (ann_label a)) cluster)).
      { apply Hkeys. unfold od_keys.
        apply (in_map fst _ _ (Hsub _ (or_introl eq_refl))). }
      apply Hquorum in Hk. cbn [fst snd].
      replace (c <? quorum) with false by (symmetry; apply Z.ltb_ge; lia).
      unfold bind at 1. unfold bind at 1. unfold dataset_count at 1.
      unfold bind at 1. unfold get_ctx at 1. unfold ret at 1.
      unfold bind at 1. unfold py_div.
      rewrite decide_False by lia. unfold ret at 1. unfold ret at 1.
      rewrite IH by (intros e He; apply Hsub; right; exact He).
      rewrite <- app_assoc. rewrite Hc. reflexivity. }
  rewrite (Hloop votes [] (fun e H => H)). reflexivity.
Qed.

Lemma label_merge_clusters_all_reach_quorum_witness :
  exists names,
    NoDup names /\
    label_merge_clusters VoteExample.label_names VoteExample.label_ids 1
                         [LabelVoteExample.cluster] VoteExample.st
    = Ok (map (fun l =>
                 Label (VoteExample.label_ids l)
                   {["score" :=
                       VNum (inject_Z (Z.of_nat
                                         (length (carriers VoteExample.label_names l
                                                           LabelVoteExample.cluster)))
                             / inject_Z (Z.of_nat (size (_dataset_map VoteExample.st))))]})
              names, VoteExample.st).
Proof.
  destruct (label_merge_clusters_all_reach_quorum VoteExample.label_names
              VoteExample.label_ids 1 LabelVoteExample.cluster VoteExample.st)
    as (names & Hnd & _ & Hrun & _).
  - vm_compute. lia.
  - intros l [<-|[<-|[<-|[]]]]; vm_compute; discriminate.
  - exists names. split; [exact Hnd|exact Hrun].
Defined.
